(** * Indoclimate front end: session store, history redaction, chunk merging,
      context assembly and query routing

    A shallow embedding of the TypeScript sources

      - [utils/requestUtils.ts]           (string hash, connection fingerprint,
                                           client address)
      - [services/SessionStorage.ts]      (session store with sliding window)
      - [services/chatHistoryService.ts]  (chat history over the store)
      - [services/chatService.ts]         (router fail-safe)
      - [services/ragProcessingService.ts] (overlap merge, context assembly)
      - [app/api/chat/route.ts], [app/api/chat/history/route.ts],
        [app/api/chat/clear/route.ts], [app/api/webhook/route.ts]
                                          (session identifiers, cleanup timers,
                                           connection view, clearing,
                                           reference list)

    JavaScript strings are sequences of UTF-16 code units; they are modelled
    as lists of code units ([list N]).  A JavaScript [Map] iterates in
    insertion order, so the session table is an insertion-ordered association
    list; the two secondary indexes are never iterated and are [gmap]s. *)

From Stdlib Require Import ZArith NArith QArith List String Ascii Lia Bool.
From stdpp Require Import base list option gmap.

Local Open Scope Z_scope.

(** ** JavaScript values and built-ins used by the sources *)

Module JS.

(** A UTF-16 code unit. *)
Abbreviation char := N (only parsing).

(** A JavaScript string. *)
Abbreviation jstring := (list N) (only parsing).

(** Literal notation: the code units of an ASCII/Latin-1 literal. *)
Definition js (s : string) : jstring :=
  List.map N_of_ascii (list_ascii_of_string s).

(** [||] on strings: the empty string is falsy. *)
Definition truthy (s : jstring) : bool :=
  match s with [] => false | _ :: _ => true end.

(** [a || b] where [a] is [string | null | undefined]. *)
Definition or_default (a : option jstring) (b : jstring) : jstring :=
  match a with
  | Some s => if truthy s then s else b
  | None => b
  end.

(** ECMAScript WhiteSpace and LineTerminator code units, the set stripped
    by [String.prototype.trim] and matched by [\s]. *)
Definition isWhiteSpace (c : char) : bool :=
  ((9 <=? c) && (c <=? 13) || (c =? 32) || (c =? 160) || (c =? 5760)
   || (8192 <=? c) && (c <=? 8202) || (c =? 8232) || (c =? 8233)
   || (c =? 8239) || (c =? 8287) || (c =? 12288) || (c =? 65279))%N.

Fixpoint trimStart (s : jstring) : jstring :=
  match s with
  | c :: r => if isWhiteSpace c then trimStart r else s
  | [] => []
  end.

Definition trimEnd (s : jstring) : jstring :=
  rev (trimStart (rev s)).

(** [String.prototype.trim] *)
Definition trim (s : jstring) : jstring := trimEnd (trimStart s).

(** Relative index resolution shared by [Array.prototype.slice] and
    [String.prototype.slice]: a negative index counts from the end. *)
Definition rel_index (i : Z) (len : nat) : nat :=
  Z.to_nat (if i <? 0 then Z.max (Z.of_nat len + i) 0
            else Z.min i (Z.of_nat len)).

(** [x.slice(start)] *)
Definition slice_from {A} (start : Z) (l : list A) : list A :=
  drop (rel_index start (length l)) l.

(** [x.slice(start, end)] *)
Definition slice {A} (start stop : Z) (l : list A) : list A :=
  let from := rel_index start (length l) in
  let to := rel_index stop (length l) in
  take (to - from) (drop from l).

(** ToInt32: reduction modulo 2^32 into the signed 32-bit range. *)
Definition toInt32 (x : Z) : Z :=
  (x + 2147483648) mod 4294967296 - 2147483648.

(** [a << n] on numbers holding integers. *)
Definition shl (a n : Z) : Z :=
  toInt32 (Z.shiftl (toInt32 a) (n mod 32)).

(** [a & b] on numbers holding integers. *)
Definition band (a b : Z) : Z :=
  toInt32 (Z.land (toInt32 a) (toInt32 b)).

(** One base-36 digit, lower case as [Number.prototype.toString] prints. *)
Definition digit36 (d : Z) : char :=
  Z.to_N (if d <? 10 then 48 + d else 87 + d).

Fixpoint digits36 (fuel : nat) (n : Z) (acc : jstring) : jstring :=
  match fuel with
  | O => acc
  | S fuel' =>
      let acc' := digit36 (n mod 36) :: acc in
      if n <? 36 then acc' else digits36 fuel' (n / 36) acc'
  end.

(** [n.toString(36)] for a non-negative integer [n]. *)
Definition toString36 (n : Z) : jstring :=
  digits36 (S (Z.to_nat (Z.log2 n))) n [].

(** [n.toString()] for a non-negative integer [n] (template literals). *)
Fixpoint digits10 (fuel : nat) (n : Z) (acc : jstring) : jstring :=
  match fuel with
  | O => acc
  | S fuel' =>
      let acc' := Z.to_N (48 + n mod 10) :: acc in
      if n <? 10 then acc' else digits10 fuel' (n / 10) acc'
  end.

Definition toString10 (n : Z) : jstring :=
  if n <? 0 then N_of_ascii "-" :: digits10 (S (Z.to_nat (Z.log2 (- n)))) (- n) []
  else digits10 (S (Z.to_nat (Z.log2 n))) n [].

(** [s.replace(/<fence>\n?/g, "")] for a literal [fence]: every
    occurrence, scanning left to right, together with one following
    line feed.  [skip] counts the code units of the current match that
    are still to be dropped. *)
Fixpoint remove_all (fence : jstring) (skip : nat) (s : jstring) : jstring :=
  match s with
  | [] => []
  | c :: r =>
      match skip with
      | S k => remove_all fence k r
      | O =>
          if bool_decide (fence `prefix_of` s) then
            let after := drop (length fence) s in
            let n := match after with
                     | 10%N :: _ => S (length fence)
                     | _ => length fence
                     end in
            match n with
            | O => c :: remove_all fence O r
            | S k => remove_all fence k r
            end
          else c :: remove_all fence O r
      end
  end.

End JS.

Import JS.

(** ** utils/requestUtils.ts *)

Module RequestUtils.

(** The loop body of [createSimpleHash]:
    [hash = ((hash << 5) - hash) + char; hash = hash & hash]. *)
Definition hash_step (hash : Z) (c : char) : Z :=
  let hash := (shl hash 5 - hash) + Z.of_N c in
  band hash hash.

Definition createSimpleHash (str : jstring) : jstring :=
  let hash := fold_left hash_step str 0 in
  toString36 (Z.abs hash).

Definition getClientConnectionFingerprint
    (ipAddress : jstring) (userAgent : option jstring) : jstring :=
  let ipHash := createSimpleHash (or_default (Some ipAddress) (js "unknown")) in
  let uaHash := createSimpleHash (or_default userAgent (js "unknown")) in
  ipHash ++ js "_" ++ uaHash.

End RequestUtils.

(** ** Insertion-ordered maps ([Map] of the host language) *)

Module JSMap.
Section Ops.
Context {V : Type}.

Definition t := list (jstring * V).

Fixpoint get (k : jstring) (m : t) : option V :=
  match m with
  | [] => None
  | (k', v) :: m' => if decide (k' = k) then Some v else get k m'
  end.

Definition has (k : jstring) (m : t) : bool :=
  match get k m with Some _ => true | None => false end.

(** [m.set(k, v)]: an existing key keeps its position, a new key goes
    to the end of the iteration order. *)
Fixpoint set (k : jstring) (v : V) (m : t) : t :=
  match m with
  | [] => [(k, v)]
  | (k', v') :: m' =>
      if decide (k' = k) then (k, v) :: m' else (k', v') :: set k v m'
  end.

Fixpoint delete (k : jstring) (m : t) : t :=
  match m with
  | [] => []
  | (k', v') :: m' =>
      if decide (k' = k) then m' else (k', v') :: delete k m'
  end.

Definition keys (m : t) : list jstring := List.map fst m.
End Ops.
Arguments t : clear implicits.
End JSMap.

(** ** services/SessionStorage.ts *)

Module SessionStorage.

Inductive MessageKind := HumanMessage | AIMessage | SystemMessage.

Record BaseMessage := mkMessage {
  kind : MessageKind;
  content : jstring;
}.

Inductive SessionType := general | rag.

Record SessionMetadata := mkMetadata {
  userId : option jstring;
  createdAt : Z;
  lastActive : Z;
  userAgent : option jstring;
  ipAddress : option jstring;
  sessionType : SessionType;
  metadata : list (jstring * jstring);
}.

Record Session := mkSession {
  id : jstring;
  messages : list BaseMessage;
  smeta : SessionMetadata;
}.

Record ClientConnectionFingerprint := mkConnection {
  ipHash : jstring;
  userAgentHash : jstring;
  fingerprint : jstring;
  firstSeen : Z;
  lastSeen : Z;
  conn_sessionIds : list jstring;
}.

Record UserSessionData := mkUserData {
  ud_userId : jstring;
  ud_sessionIds : list jstring;
  ud_createdAt : Z;
  ud_lastActive : Z;
}.

(** The fields of the class instance, and the number of clock readings
    ([new Date()]) made so far. *)
Record Store := mkStore {
  sessions : JSMap.t Session;
  userSessions : gmap jstring UserSessionData;
  clientConnections : gmap jstring ClientConnectionFingerprint;
  maxMessages : Z;
  ticks : nat;
}.

#[global] Instance MessageKind_eq_dec : EqDecision MessageKind.
Proof. solve_decision. Defined.
#[global] Instance BaseMessage_eq_dec : EqDecision BaseMessage.
Proof. solve_decision. Defined.
#[global] Instance SessionType_eq_dec : EqDecision SessionType.
Proof. solve_decision. Defined.
#[global] Instance SessionMetadata_eq_dec : EqDecision SessionMetadata.
Proof. solve_decision. Defined.
#[global] Instance Session_eq_dec : EqDecision Session.
Proof. solve_decision. Defined.

(** Functional field updates (assignments to object fields). *)
Definition set_lastActive (t : Z) (m : SessionMetadata) : SessionMetadata :=
  mkMetadata (userId m) (createdAt m) t (userAgent m) (ipAddress m)
             (sessionType m) (metadata m).

Definition set_messages (ms : list BaseMessage) (s : Session) : Session :=
  mkSession (id s) ms (smeta s).

Definition set_smeta (m : SessionMetadata) (s : Session) : Session :=
  mkSession (id s) (messages s) m.

Definition with_sessions (m : JSMap.t Session) (st : Store) : Store :=
  mkStore m (userSessions st) (clientConnections st) (maxMessages st) (ticks st).

Definition with_userSessions (u : gmap jstring UserSessionData) (st : Store) : Store :=
  mkStore (sessions st) u (clientConnections st) (maxMessages st) (ticks st).

Definition with_clientConnections
    (c : gmap jstring ClientConnectionFingerprint) (st : Store) : Store :=
  mkStore (sessions st) (userSessions st) c (maxMessages st) (ticks st).

(** [new SessionStorage(maxMessages)] *)
Definition new (maxMessages : Z) : Store := mkStore [] ∅ ∅ maxMessages 0.

(** The exported singleton is [new SessionStorage(4)]. *)
Definition sessionStorage : Store := new 4.

(** [includes] on an array of strings. *)
Definition includes (x : jstring) (l : list jstring) : bool :=
  bool_decide (x ∈ l).

(** [private createSimpleHash(str)] *)
Definition createSimpleHash (str : jstring) : jstring :=
  let hash :=
    fold_left (fun hash c =>
                 let hash := (shl hash 5 - hash) + Z.of_N c in
                 band hash hash) str 0 in
  toString36 (Z.abs hash).

Section WithClock.

(** [clock n] is the time in milliseconds returned by the [n]-th
    evaluation of [new Date()]. *)
Variable clock : nat -> Z.

Definition new_Date (st : Store) : Z * Store :=
  (clock (ticks st),
   mkStore (sessions st) (userSessions st) (clientConnections st)
           (maxMessages st) (S (ticks st))).

Definition getSession (sessionId : jstring) (st : Store) : option Session :=
  JSMap.get sessionId (sessions st).

Definition associateSessionWithUser
    (sessionId userId : jstring) (st : Store) : Store :=
  let st :=
    match userSessions st !! userId with
    | Some _ => st
    | None =>
        let '(c, st) := new_Date st in
        let '(a, st) := new_Date st in
        with_userSessions
          (<[userId := mkUserData userId [] c a]> (userSessions st)) st
    end in
  match userSessions st !! userId with
  | Some userData =>
      let ids :=
        if includes sessionId (ud_sessionIds userData)
        then ud_sessionIds userData
        else ud_sessionIds userData ++ [sessionId] in
      let '(a, st) := new_Date st in
      with_userSessions
        (<[userId := mkUserData (ud_userId userData) ids
                                (ud_createdAt userData) a]>
           (userSessions st)) st
  | None => st
  end.

Definition createSession (sessionId : jstring) (userId : option jstring)
    (additionalMetadata : option (list (jstring * jstring)))
    (st : Store) : Session * Store :=
  let '(c, st) := new_Date st in
  let '(a, st) := new_Date st in
  let session :=
    mkSession sessionId []
      (mkMetadata userId c a None None general
                  (default [] additionalMetadata)) in
  let st := with_sessions (JSMap.set sessionId session (sessions st)) st in
  let st :=
    match userId with
    | Some u => if truthy u then associateSessionWithUser sessionId u st else st
    | None => st
    end in
  (session, st).

Definition saveSession (session : Session) (st : Store) : Store :=
  let '(a, st) := new_Date st in
  let session := set_smeta (set_lastActive a (smeta session)) session in
  let st := with_sessions (JSMap.set (id session) session (sessions st)) st in
  match userId (smeta session) with
  | Some u => if truthy u then associateSessionWithUser (id session) u st else st
  | None => st
  end.


(** [content.match(/\$([^$]+)\$/)]: capture group 1 of the leftmost
    match, if any.  [span_body] is the greedy [[^$]+] scan. *)
Definition dollar : char := 36%N.

Fixpoint span_body (s : jstring) : jstring * jstring :=
  match s with
  | [] => ([], [])
  | c :: r =>
      if (c =? dollar)%N then ([], s)
      else let '(body, rest) := span_body r in (c :: body, rest)
  end.

Fixpoint match_pattern (s : jstring) : option jstring :=
  match s with
  | [] => None
  | c :: r =>
      if (c =? dollar)%N then
        match span_body r with
        | ((_ :: _) as body, _ :: _) => Some body
        | _ => match_pattern r
        end
      else match_pattern r
  end.

Definition extractQueryFromMessage (content : jstring) : jstring :=
  match match_pattern content with
  | Some group1 => trim group1
  | None => content
  end.

Definition trimHistory (session : Session) (st : Store) : Session :=
  if Z.of_nat (length (messages session)) >? maxMessages st
  then set_messages (slice_from (- maxMessages st) (messages session)) session
  else session.

(** The message [addMessage] stores: a [HumanMessage] is rebuilt from
    the extracted query, any other message is kept as it is. *)
Definition cleanedMessage (message : BaseMessage) : BaseMessage :=
  match kind message with
  | HumanMessage =>
      mkMessage HumanMessage (extractQueryFromMessage (content message))
  | _ => message
  end.

Definition addMessage (sessionId : jstring) (message : BaseMessage)
    (st : Store) : Store :=
  let '(session, st) :=
    match getSession sessionId st with
    | Some session => (session, st)
    | None => createSession sessionId None None st
    end in
  let session :=
    set_messages (messages session ++ [cleanedMessage message]) session in
  let session := trimHistory session st in
  saveSession session st.

Definition getMessages (sessionId : jstring) (st : Store) : list BaseMessage :=
  match getSession sessionId st with
  | Some session => messages session
  | None => []
  end.

Definition getMetadata (sessionId : jstring) (st : Store)
    : option SessionMetadata :=
  match getSession sessionId st with
  | Some session => Some (smeta session)
  | None => None
  end.

Definition getOrCreateClientConnection
    (ipAddress : jstring) (userAgent : option jstring) (st : Store)
    : ClientConnectionFingerprint * Store :=
  let ipHash := createSimpleHash (or_default (Some ipAddress) (js "unknown")) in
  let uaHash := createSimpleHash (or_default userAgent (js "unknown")) in
  let fingerprint := ipHash ++ js "_" ++ uaHash in
  let st :=
    match clientConnections st !! fingerprint with
    | Some _ => st
    | None =>
        let '(f, st) := new_Date st in
        let '(l, st) := new_Date st in
        with_clientConnections
          (<[fingerprint := mkConnection ipHash uaHash fingerprint f l []]>
             (clientConnections st)) st
    end in
  match clientConnections st !! fingerprint with
  | Some connection =>
      let '(l, st) := new_Date st in
      let connection :=
        mkConnection (SessionStorage.ipHash connection)
                     (userAgentHash connection)
                     (SessionStorage.fingerprint connection)
                     (firstSeen connection) l (conn_sessionIds connection) in
      (connection,
       with_clientConnections
         (<[fingerprint := connection]> (clientConnections st)) st)
  | None => (mkConnection ipHash uaHash fingerprint 0 0 [], st)
  end.

Definition associateSessionWithClientConnection
    (sessionId ipAddress : jstring) (userAgent : option jstring)
    (st : Store) : Store :=
  let ipHash := createSimpleHash (or_default (Some ipAddress) (js "unknown")) in
  let uaHash := createSimpleHash (or_default userAgent (js "unknown")) in
  let fingerprint := ipHash ++ js "_" ++ uaHash in
  let '(connection, st) := getOrCreateClientConnection ipAddress userAgent st in
  if includes sessionId (conn_sessionIds connection) then st
  else
    with_clientConnections
      (<[fingerprint :=
           mkConnection (SessionStorage.ipHash connection)
                        (userAgentHash connection)
                        (SessionStorage.fingerprint connection)
                        (firstSeen connection) (lastSeen connection)
                        (conn_sessionIds connection ++ [sessionId])]>
         (clientConnections st)) st.

Definition getClientConnectionSessions
    (ipAddress : jstring) (userAgent : option jstring) (st : Store)
    : list Session :=
  let ipHash := createSimpleHash (or_default (Some ipAddress) (js "unknown")) in
  let uaHash := createSimpleHash (or_default userAgent (js "unknown")) in
  let fingerprint := ipHash ++ js "_" ++ uaHash in
  match clientConnections st !! fingerprint with
  | None => []
  | Some connection =>
      omap (fun sessionId => getSession sessionId st)
           (conn_sessionIds connection)
  end.

Definition getUserSessions (userId : jstring) (st : Store) : list Session :=
  match userSessions st !! userId with
  | None => []
  | Some userData =>
      omap (fun sessionId => getSession sessionId st) (ud_sessionIds userData)
  end.

(** [Partial<SessionMetadata>]: [Some v] is a property that is present. *)
Record PartialMetadata := mkPartial {
  p_userId : option (option jstring);
  p_createdAt : option Z;
  p_lastActive : option Z;
  p_userAgent : option (option jstring);
  p_ipAddress : option (option jstring);
  p_sessionType : option SessionType;
  p_metadata : option (list (jstring * jstring));
}.

(** [{...base, ...partial}] *)
Definition spread (base : SessionMetadata) (p : PartialMetadata)
    : SessionMetadata :=
  mkMetadata (default (userId base) (p_userId p))
             (default (createdAt base) (p_createdAt p))
             (default (lastActive base) (p_lastActive p))
             (default (userAgent base) (p_userAgent p))
             (default (ipAddress base) (p_ipAddress p))
             (default (sessionType base) (p_sessionType p))
             (default (metadata base) (p_metadata p)).

(** [a || b] on optional strings, the result again optional. *)
Definition or_else (a b : option jstring) : option jstring :=
  match a with
  | Some s => if truthy s then a else b
  | None => b
  end.

Definition updateMetadata (sessionId : jstring) (partial : PartialMetadata)
    (st : Store) : Store :=
  match getSession sessionId st with
  | None => st
  | Some session =>
      let '(a, st) := new_Date st in
      let session :=
        set_smeta (set_lastActive a (spread (smeta session) partial)) session in
      let st := saveSession session st in
      let given_ip := mjoin (p_ipAddress partial) in
      let given_ua := mjoin (p_userAgent partial) in
      if truthy (default [] given_ip) || truthy (default [] given_ua) then
        associateSessionWithClientConnection sessionId
          (or_default (or_else given_ip (ipAddress (smeta session)))
                      (js "unknown"))
          (or_else given_ua (userAgent (smeta session))) st
      else st
  end.

Definition clearSessionMessages (sessionId : jstring) (st : Store) : Store :=
  match getSession sessionId st with
  | Some session => saveSession (set_messages [] session) st
  | None => st
  end.

(** The [for (const [sessionId, session] of this.sessions.entries())]
    loops.  Saving a session under its own key neither adds nor reorders
    entries, so the loop visits the keys present when it starts, each
    with its current value. *)
Definition for_entries (body : jstring -> Session -> Store * Z -> Store * Z)
    (st : Store) (count : Z) : Store * Z :=
  fold_left
    (fun acc sessionId =>
       match getSession sessionId (fst acc) with
       | Some session => body sessionId session acc
       | None => acc
       end)
    (JSMap.keys (sessions st)) (st, count).

Definition startsWith (s pattern : jstring) : bool :=
  bool_decide (pattern `prefix_of` s).

Definition clearSessionMessagesByPattern (pattern : jstring) (st : Store)
    : Z * Store :=
  let '(st, clearedCount) :=
    for_entries
      (fun sessionId session acc =>
         if startsWith sessionId pattern
         then (saveSession (set_messages [] session) (fst acc), snd acc + 1)
         else acc)
      st 0 in
  (clearedCount, st).

Definition clearInactiveSessions (inactiveThresholdMs : Z) (st : Store)
    : Z * Store :=
  let '(now, st) := new_Date st in
  let '(st, clearedCount) :=
    for_entries
      (fun _ session acc =>
         let lastActiveTime := lastActive (smeta session) in
         let inactiveTime := now - lastActiveTime in
         if inactiveTime >? inactiveThresholdMs
         then (saveSession (set_messages [] session) (fst acc), snd acc + 1)
         else acc)
      st 0 in
  (clearedCount, st).

Definition clearSession (sessionId : jstring) (st : Store) : Store :=
  let st :=
    match getSession sessionId st with
    | Some session =>
        match userId (smeta session) with
        | Some u =>
            if truthy u then
              match userSessions st !! u with
              | Some userData =>
                  let ids :=
                    filter (fun i => i <> sessionId) (ud_sessionIds userData) in
                  if (length ids =? 0)%nat
                  then with_userSessions (delete u (userSessions st)) st
                  else with_userSessions
                         (<[u := mkUserData (ud_userId userData) ids
                                   (ud_createdAt userData)
                                   (ud_lastActive userData)]>
                            (userSessions st)) st
              | None => st
              end
            else st
        | None => st
        end
    | None => st
    end in
  with_sessions (JSMap.delete sessionId (sessions st)) st.

Definition clearAll (st : Store) : Store :=
  with_userSessions ∅ (with_sessions [] st).

Definition getAllSessionIds (st : Store) : list jstring :=
  JSMap.keys (sessions st).

Definition getSessionCount (st : Store) : Z :=
  Z.of_nat (length (sessions st)).

Definition hasSession (sessionId : jstring) (st : Store) : bool :=
  JSMap.has sessionId (sessions st).

End WithClock.

End SessionStorage.

(** ** Host capabilities: numbers, JSON values, exceptions *)

Module Host.

(** The host's number type (IEEE doubles), through the operations the
    sources use on it. *)
Class Numbers := {
  number : Type;
  num_zero : number;
  num_one : number;
  (** [a - b] *)
  num_sub : number -> number -> number;
  (** truthiness: false for [0], [-0] and [NaN] *)
  num_truthy : number -> bool;
  (** [x > 0] *)
  num_pos : number -> bool;
  (** the integer a number is, when it is one *)
  num_to_Z : number -> option Z;
}.

(** The values [JSON.parse] can return. *)
#[warnings="-register-all"]
Inductive json `{Numbers} :=
| JNull
| JBool (b : bool)
| JNumber (x : number)
| JString (s : jstring)
| JArray (l : list json)
| JObject (props : list (jstring * json)).

Inductive error := SyntaxError | TypeError | OtherError (message : jstring).

(** The result of evaluating code that may throw. *)
Inductive outcome (A : Type) :=
| Return (a : A)
| Throw (e : error).
Arguments Return {A} a.
Arguments Throw {A} e.

Definition bind {A B} (k : A -> outcome B) (m : outcome A) : outcome B :=
  match m with
  | Return a => k a
  | Throw e => Throw e
  end.

(** [try { body } catch (error) { handler }] *)
Definition try_catch {A} (body : outcome A) (handler : error -> outcome A)
    : outcome A :=
  match body with
  | Return a => Return a
  | Throw e => handler e
  end.

Section Values.
Context `{Numbers}.

(** [v.name] for a property name that no prototype defines: a property
    of an object, [undefined] ([None]) on other values, and a
    [TypeError] on [null]. *)
Definition get_prop (v : json) (name : jstring) : outcome (option json) :=
  match v with
  | JNull => Throw TypeError
  | JObject props =>
      Return (snd <$> List.find (fun kv => bool_decide (fst kv = name)) props)
  | _ => Return None
  end.

(** Truthiness of a value or [undefined]. *)
Definition json_truthy (v : option json) : bool :=
  match v with
  | None | Some JNull => false
  | Some (JBool b) => b
  | Some (JNumber x) => num_truthy x
  | Some (JString s) => truthy s
  | Some (JArray _) | Some (JObject _) => true
  end.

(** An element of a parsed array, seen as a candidate document number:
    the integer it holds, or [None] for any value that is not an integer
    number (such a value equals no document number). *)
Definition json_int (v : json) : option Z :=
  match v with
  | JNumber x => num_to_Z x
  | _ => None
  end.

(** [Array.isArray(v) ? v : []], its elements seen through [json_int]. *)
Definition array_or_empty (v : option json) : list (option Z) :=
  match v with
  | Some (JArray l) => List.map json_int l
  | _ => []
  end.

(** [ids.includes(n)] for an integer [n]. *)
Definition includes_int (ids : list (option Z)) (n : Z) : bool :=
  existsb (fun v => bool_decide (v = Some n)) ids.

(** [ids.indexOf(n)] for an integer [n]; [-1] when absent. *)
Fixpoint indexOf_int (ids : list (option Z)) (n : Z) : Z :=
  match ids with
  | [] => -1
  | v :: r =>
      if bool_decide (v = Some n) then 0
      else let i := indexOf_int r n in if i <? 0 then -1 else i + 1
  end.
End Values.

End Host.

#[global] Instance outcome_bind : MBind Host.outcome := @Host.bind.
#[global] Instance outcome_ret : MRet Host.outcome := @Host.Return.

Import Host.

(** ** services/chatService.ts: the routing agent *)

Module ChatService.

Record ChatConfig := mkChatConfig {
  model : jstring;
  temperature : Z;
  maxTokens : Z;
  streaming : bool;
}.

Definition generalConfig : ChatConfig :=
  mkChatConfig (js "gpt-4.1-mini-2025-04-14") 0 2000 true.

Definition agentConfig : ChatConfig :=
  mkChatConfig (js "gpt-4.1-mini-2025-04-14") 0 4000 false.

Definition routingConfig : ChatConfig :=
  mkChatConfig (js "gpt-4.1-nano-2025-04-14") 0 500 false.

Section Router.
Context `{Numbers}.

(** [JSON.parse]: [None] stands for the [SyntaxError] it throws on text
    that is not valid JSON. *)
Variable JSON_parse : jstring -> option json.

(** A language model client, through [llm.invoke]: the text of its reply,
    or the error it throws. *)
Definition LLM : Type := list SessionStorage.BaseMessage -> outcome jstring.

(** [createLLM(config)]: building the client can itself fail. *)
Variable createLLM : ChatConfig -> outcome LLM.

(** The constant text returned by [getRoutingSystemPrompt]. *)
Variable routingSystemPrompt : jstring.

Definition parse (s : jstring) : outcome json :=
  match JSON_parse s with
  | Some v => Return v
  | None => Throw SyntaxError
  end.

(** The text handed to [JSON.parse]. *)
Definition jsonString (content : jstring) : jstring :=
  trim (remove_all (js "```") 0
          (remove_all (js "```json") 0 content)).

Record RouteResult := mkRoute {
  action : option json;
  expanded_query : option json;
  rag_optimized_query : option json;
  fixed_grammar : option json;
}.

Definition no_rag : RouteResult :=
  mkRoute (Some (JString (js "no_rag"))) None None None.

Definition routeQuery (message : jstring)
    (history : option (list SessionStorage.BaseMessage))
    : outcome RouteResult :=
  llm ← createLLM routingConfig;
  let messages :=
    [SessionStorage.mkMessage SessionStorage.SystemMessage routingSystemPrompt]
      ++ default [] history
      ++ [SessionStorage.mkMessage SessionStorage.HumanMessage message] in
  try_catch
    (response ← llm messages;
     let content := trim response in
     parsed ← parse (jsonString content);
     a ← get_prop parsed (js "action");
     e ← get_prop parsed (js "expanded_query");
     r ← get_prop parsed (js "rag_optimized_query");
     f ← get_prop parsed (js "fixed_grammar");
     mret (mkRoute a e r f))
    (fun _ => Return no_rag).

End Router.
End ChatService.

(** ** services/ragProcessingService.ts *)

Module RAGProcessingService.

Record ChromaMetadata := mkChromaMetadata {
  id : jstring;
  document_code : jstring;
  current_chunk : Z;
  total_chunks : Z;
  jenis : jstring;
  nomor : Z;
  tahun : Z;
  tentang : jstring;
  tanggal_ditetapkan : jstring;
  tanggal_berlaku : jstring;
  status : jstring;
  dasar_hukum : list jstring;
  view_link : option jstring;
}.

Record Source := mkSource {
  src_jenis : jstring;
  src_nomor : Z;
  src_tahun : Z;
  src_view_link : option jstring;
}.

Section Service.
Context `{Numbers}.

Record MergedChunk := mkMergedChunk {
  content : jstring;
  metadata : ChromaMetadata;
  docNum : Z;
  similarity : number;
}.

Record AgentEvaluation := mkEvaluation {
  rationale : json;
  ids : list (option Z);
}.

(** What [chromaService.query] resolves to. *)
Record QueryResults := mkResults {
  res_ids : list (list jstring);
  res_distances : list (list (option number));
  res_documents : list (list (option jstring));
  res_metadatas : list (list (option ChromaMetadata));
}.

Record RAGResult := mkRAGResult {
  contextPrompt : jstring;
  res_rationale : json;
  sources : list Source;
}.

(** [String.prototype.toLowerCase], full Unicode case folding. *)
Variable toLowerCase : jstring -> jstring.

(** [JSON.parse]; [None] is the [SyntaxError]. *)
Variable JSON_parse : jstring -> option json.

(** [chromaService.query(text, nResults)] *)
Variable query : jstring -> Z -> outcome QueryResults.

(** [chromaService.getById(id)], which reports every failure as [null]. *)
Variable getById : jstring -> option (jstring * ChromaMetadata).

(** [chatService.agentChat(prompt)] *)
Variable agentChat : jstring -> outcome jstring.

(** [parseInt(process.env.RAG_TOP_K || "5", 10)] *)
Variable defaultTopK : Z.

(** The [for (let len = maxPossibleOverlap; len >= 1; len--)] loop. *)
Fixpoint overlap_loop (text1Trimmed text2Trimmed : jstring) (len : nat) : Z :=
  match len with
  | O => 0
  | S len' =>
      let suffix := slice_from (- Z.of_nat len) text1Trimmed in
      let prefix := slice 0 (Z.of_nat len) text2Trimmed in
      if bool_decide (toLowerCase suffix = toLowerCase prefix)
      then Z.of_nat len
      else overlap_loop text1Trimmed text2Trimmed len'
  end.

Definition findOverlap (text1 text2 : jstring) : Z :=
  let text1Trimmed := trim text1 in
  let text2Trimmed := trim text2 in
  let maxPossibleOverlap :=
    Nat.min (length text1Trimmed) (length text2Trimmed) in
  overlap_loop text1Trimmed text2Trimmed maxPossibleOverlap.

Definition mergeChunks (chunk1 chunk2 : jstring) : jstring :=
  let overlapLength := findOverlap chunk1 chunk2 in
  if overlapLength >? 0 then
    let chunk1Trimmed := trim chunk1 in
    let chunk1WithoutOverlap := slice 0 (- overlapLength) chunk1Trimmed in
    chunk1WithoutOverlap ++ chunk2
  else trim chunk1 ++ js " " ++ chunk2.

Definition getAdjacentChunk (documentCode : jstring) (chunkNumber : Z)
    : option (jstring * ChromaMetadata) :=
  let targetId := documentCode ++ js "_" ++ toString10 chunkNumber in
  getById targetId.

Definition expandChunk (content : jstring) (metadata : ChromaMetadata)
    : jstring :=
  if current_chunk metadata >=? total_chunks metadata - 1 then content
  else
    match getAdjacentChunk (document_code metadata)
                           (current_chunk metadata + 1) with
    | None => content
    | Some nextChunk => mergeChunks content (fst nextChunk)
    end.

Definition nl : jstring := [10%N].

Definition formatDocument (chunk : MergedChunk) (docNum : Z) : jstring :=
  let meta := metadata chunk in
  js "[" ++ toString10 docNum ++ js "]" ++ nl
  ++ js "Jenis: " ++ jenis meta ++ nl
  ++ js "Nomor: " ++ toString10 (nomor meta) ++ nl
  ++ js "Tahun: " ++ toString10 (tahun meta) ++ nl
  ++ js "Tentang: " ++ tentang meta ++ nl
  ++ nl
  ++ content chunk ++ nl
  ++ nl
  ++ js "---".

(** [parts.join(sep)] *)
Fixpoint join (sep : jstring) (parts : list jstring) : jstring :=
  match parts with
  | [] => []
  | [p] => p
  | p :: rest => p ++ sep ++ join sep rest
  end.


Definition dq : jstring := [34%N].

(** The prompt built by [evaluateChunks]. *)
Definition evaluation_prompt (formattedChunks expandedQuery : jstring)
    : jstring :=
  js "Tugas: Evaluasi relevansi setiap dokumen terhadap pertanyaan pengguna." ++ nl
  ++ nl
  ++ js "Pertanyaan: " ++ expandedQuery ++ nl
  ++ nl
  ++ js "Dokumen yang tersedia:" ++ nl
  ++ formattedChunks ++ nl
  ++ nl
  ++ js "Instruksi:" ++ nl
  ++ js "1. Analisis setiap dokumen [1], [2], [3], dst." ++ nl
  ++ js "2. Tentukan dokumen mana yang relevan untuk menjawab pertanyaan" ++ nl
  ++ js "3. Pertanyaan boleh dijawab sebagian (partial answer) jika tidak ada dokumen yang sepenuhnya menjawab" ++ nl
  ++ js "4. Berikan penjelasan detail mengapa dokumen dipilih atau tidak" ++ nl
  ++ js "5. Output HARUS JSON valid dengan format:" ++ nl
  ++ nl
  ++ js "{" ++ nl
  ++ js "  " ++ dq ++ js "rationale" ++ dq ++ js ": " ++ dq
  ++ js "penjelasan detail dokumen mana yang relevan dan mengapa" ++ dq
  ++ js "," ++ nl
  ++ js "  " ++ dq ++ js "ids" ++ dq ++ js ": [1, 3, 5]" ++ nl
  ++ js "}" ++ nl
  ++ nl
  ++ js "PENTING: Output harus JSON valid tanpa markdown/backticks.".

Definition isDigit (c : char) : bool := ((48 <=? c) && (c <=? 57))%N.

Fixpoint span_digits (s : jstring) : jstring * jstring :=
  match s with
  | [] => ([], [])
  | c :: r =>
      if isDigit c
      then let '(digits, rest) := span_digits r in (c :: digits, rest)
      else ([], s)
  end.

(** [(s.match(/\[(\d+)\]/g) || []).length].  A match holds no second
    opening bracket, so resuming the scan inside it counts the same. *)
Fixpoint count_doc_markers (s : jstring) : nat :=
  match s with
  | [] => O
  | c :: r =>
      if (c =? 91)%N then
        match span_digits r with
        | (_ :: _, 93%N :: _) => S (count_doc_markers r)
        | _ => count_doc_markers r
        end
      else count_doc_markers r
  end.

Definition parse (s : jstring) : outcome json :=
  match JSON_parse s with
  | Some v => Return v
  | None => Throw SyntaxError
  end.

Definition evaluateChunks (formattedChunks expandedQuery : jstring)
    : outcome AgentEvaluation :=
  let prompt := evaluation_prompt formattedChunks expandedQuery in
  try_catch
    (response ← agentChat prompt;
     let jsonString :=
       trim (remove_all (js "```") 0
               (remove_all (js "```json") 0 response)) in
     parsed ← parse jsonString;
     r ← get_prop parsed (js "rationale");
     i ← get_prop parsed (js "ids");
     mret (mkEvaluation
             (if json_truthy r then default (JString []) r else JString [])
             (array_or_empty i)))
    (fun _ =>
       let totalDocs := count_doc_markers formattedChunks in
       Return (mkEvaluation
                 (JString (js "Error in evaluation, returning all documents."))
                 (List.map (fun i => Some (Z.of_nat i + 1)) (seq 0 totalDocs)))).

(** The character class of the language heuristic: letters, white space,
    digits, and the marks ? ! . , ; : - and the two quote characters. *)
Definition isEnglishChar (c : char) : bool :=
  ((97 <=? c) && (c <=? 122) || (65 <=? c) && (c <=? 90) || isWhiteSpace c
   || (c =? 63) || (c =? 33) || (c =? 46) || (c =? 44) || (c =? 59)
   || (c =? 58) || (c =? 39) || (c =? 34) || isDigit c || (c =? 45))%N.

Definition isEnglish (fixedGrammar : jstring) : bool :=
  let probe := slice 0 100 (trim fixedGrammar) in
  truthy probe && forallb isEnglishChar probe.

(** The template shared by both context blocks. *)
Definition context_block (body fixedGrammar : jstring) : jstring :=
  js "___begin_context___" ++ nl
  ++ body ++ nl
  ++ js "___end_context___" ++ nl
  ++ nl
  ++ js "IMPORTANT INSTRUCTION / INSTRUKSI PENTING:" ++ nl
  ++ js "Answer in the SAME LANGUAGE as the question below. If the question is in English, respond in English. If the question is in Indonesian, respond in Indonesian." ++ nl
  ++ js "Jawab dalam BAHASA YANG SAMA dengan pertanyaan di bawah. Jika pertanyaan dalam Bahasa Inggris, jawab dalam Bahasa Inggris. Jika pertanyaan dalam Bahasa Indonesia, jawab dalam Bahasa Indonesia." ++ nl
  ++ js "question/pertanyaan:" ++ nl
  ++ js "$" ++ fixedGrammar ++ js "$".

(** [distances[i] ? 1 - distances[i] : 0] *)
Definition similarity_of (distance : option number) : number :=
  match distance with
  | Some d => if num_truthy d then num_sub num_one d else num_zero
  | None => num_zero
  end.

(** Step 2, the loop over [documents] from index [i] on. *)
Fixpoint expand_from (i : nat) (rest : list jstring)
    (metadatas : list ChromaMetadata) (distances : list number)
    : list MergedChunk :=
  match rest with
  | [] => []
  | content :: rest' =>
      let similarity := similarity_of (distances !! i) in
      match truthy content, metadatas !! i with
      | true, Some metadata =>
          let expandedContent := expandChunk content metadata in
          mkMergedChunk expandedContent metadata (Z.of_nat i + 1) similarity
            :: expand_from (S i) rest' metadatas distances
      | _, _ => expand_from (S i) rest' metadatas distances
      end
  end.

(** Step 3, [sort((a, b) => b.similarity - a.similarity)]: a stable sort,
    [a] staying before [b] unless the comparator is positive. *)
Fixpoint insert_chunk (a : MergedChunk) (sorted : list MergedChunk)
    : list MergedChunk :=
  match sorted with
  | [] => [a]
  | b :: rest =>
      if num_pos (num_sub (similarity b) (similarity a))
      then b :: insert_chunk a rest
      else a :: sorted
  end.

Definition sort_chunks (chunks : list MergedChunk) : list MergedChunk :=
  foldr insert_chunk [] chunks.

(** Step 4 *)
Definition allFormattedDocs (mergedChunks : list MergedChunk) : jstring :=
  join nl (imap (fun idx chunk => formatDocument chunk (Z.of_nat idx + 1))
                mergedChunks).

(** Step 6, with the fallback to all chunks. *)
Definition selectedChunks (mergedChunks : list MergedChunk)
    (evaluation : AgentEvaluation) : list MergedChunk :=
  let selected :=
    List.filter (fun chunk => includes_int (ids evaluation) (docNum chunk))
                mergedChunks in
  if (length selected =? 0)%nat then selected ++ mergedChunks else selected.

(** Step 7 *)
Definition finalDocNum (evaluation : AgentEvaluation) (chunk : MergedChunk)
    : Z :=
  indexOf_int (ids evaluation) (docNum chunk) + 1.

Definition finalContext (selected : list MergedChunk)
    (evaluation : AgentEvaluation) : jstring :=
  join nl (List.map (fun chunk =>
                       formatDocument chunk (finalDocNum evaluation chunk))
                    selected).

Definition source_of (chunk : MergedChunk) : Source :=
  mkSource (jenis (metadata chunk)) (nomor (metadata chunk))
           (tahun (metadata chunk)) (view_link (metadata chunk)).

Definition processRAGQuery
    (ragOptimizedQuery expandedQuery fixedGrammar : jstring) (k : option Z)
    : outcome RAGResult :=
  let topK := default defaultTopK k in
  results ← query ragOptimizedQuery topK;
  let documents := omap Datatypes.id (default [] (head (res_documents results))) in
  let metadatas := omap Datatypes.id (default [] (head (res_metadatas results))) in
  let distances := omap Datatypes.id (default [] (head (res_distances results))) in
  if (length documents =? 0)%nat then
    let noDocsMessage :=
      if isEnglish fixedGrammar then js "No documents found."
      else js "Tidak ada dokumen yang ditemukan." in
    mret (mkRAGResult (context_block noDocsMessage fixedGrammar)
                      (JString (js "No documents found")) [])
  else
    let mergedChunks := expand_from 0 documents metadatas distances in
    let mergedChunks := sort_chunks mergedChunks in
    evaluation ← evaluateChunks (allFormattedDocs mergedChunks) expandedQuery;
    let selected := selectedChunks mergedChunks evaluation in
    let contextPrompt :=
      context_block (finalContext selected evaluation) fixedGrammar in
    mret (mkRAGResult contextPrompt (rationale evaluation)
                      (List.map source_of selected)).

End Service.
End RAGProcessingService.

(** ** Concrete instances used to run the model *)

Module Samples.

(** Case folding of the code units below 256 (ASCII and Latin-1), where
    it is one code unit to one code unit. *)
Definition lowerLatin1 (c : char) : char :=
  (if (65 <=? c) && (c <=? 90) then c + 32
   else if (192 <=? c) && (c <=? 222) && negb (c =? 215) then c + 32
   else c)%N.

Definition toLowerCase (s : jstring) : jstring := List.map lowerLatin1 s.

(** A clock that advances one millisecond per reading. *)
Definition tick_clock (n : nat) : Z := Z.of_nat n.

(** A clock that jumps by a minute after its first three readings. *)
Definition late_clock (n : nat) : Z :=
  if (n <? 3)%nat then Z.of_nat n else 60000 + Z.of_nat n.

Definition human (text : string) : SessionStorage.BaseMessage :=
  SessionStorage.mkMessage SessionStorage.HumanMessage (js text).

Definition ai (text : string) : SessionStorage.BaseMessage :=
  SessionStorage.mkMessage SessionStorage.AIMessage (js text).

Definition nl : jstring := [10%N].

(** Five turns in one conversation and one in another. *)
Definition five_calls : list (jstring * SessionStorage.BaseMessage) :=
  [ (js "s1", human "m1"); (js "s1", ai "m2"); (js "s2", human "other");
    (js "s1", human "m3"); (js "s1", ai "m4"); (js "s1", human "m5") ].

(** The example prompt of the redaction rule. *)
Definition example_prompt : jstring :=
  js "___begin_context___" ++ nl ++ js "X" ++ nl ++ js "___end_context___"
  ++ nl ++ js "..." ++ nl ++ js "$hello$".

(** A context block whose rendered fragment mentions an amount of money. *)
Definition leaky_prompt : jstring :=
  RAGProcessingService.context_block (js "fee $5") (js "hello").

(** A store with one conversation, last touched at tick 2. *)
Definition idle_store : SessionStorage.Store :=
  SessionStorage.addMessage late_clock (js "s1") (human "halo")
    SessionStorage.sessionStorage.

(** Numbers as exact rationals: every finite double is one, and the sign
    and zero tests of the sources agree with those of the doubles. *)
#[export] Instance rational_numbers : Numbers := {|
  number := Q;
  num_zero := 0%Q;
  num_one := 1%Q;
  num_sub := Qminus;
  num_truthy q := negb (Qnum q =? 0);
  num_pos q := 0 <? Qnum q;
  num_to_Z q :=
    if Qnum q mod Zpos (Qden q) =? 0 then Some (Qnum q / Zpos (Qden q)) else None;
|}.

(** A [JSON.parse] for running the model: a recursive-descent reader of the
    JSON grammar.  [None] is the [SyntaxError]. *)
Module Json.

Definition is_ws (c : char) : bool :=
  ((c =? 32) || (c =? 9) || (c =? 10) || (c =? 13))%N.

Fixpoint skip_ws (s : jstring) : jstring :=
  match s with
  | c :: r => if is_ws c then skip_ws r else s
  | [] => []
  end.

Definition hex_value (c : char) : option N :=
  (if (48 <=? c) && (c <=? 57) then Some (c - 48)
   else if (97 <=? c) && (c <=? 102) then Some (c - 87)
   else if (65 <=? c) && (c <=? 70) then Some (c - 55)
   else None)%N.

Definition hex4 (a b c d : char) : option N :=
  a ← hex_value a; b ← hex_value b; c ← hex_value c; d ← hex_value d;
  Some (((a * 16 + b) * 16 + c) * 16 + d)%N.

(** The characters of a string after its opening quote. *)
Fixpoint string_body (s : jstring) (acc : jstring) : option (jstring * jstring) :=
  match s with
  | [] => None
  | 34%N :: r => Some (rev acc, r)
  | 92%N :: 117%N :: a :: b :: c :: d :: r =>
      match hex4 a b c d with
      | Some u => string_body r (u :: acc)
      | None => None
      end
  | 92%N :: e :: r =>
      match e with
      | 34%N | 92%N | 47%N => string_body r (e :: acc)
      | 98%N => string_body r (8%N :: acc)
      | 102%N => string_body r (12%N :: acc)
      | 110%N => string_body r (10%N :: acc)
      | 114%N => string_body r (13%N :: acc)
      | 116%N => string_body r (9%N :: acc)
      | _ => None
      end
  | c :: r => if (c <? 32)%N then None else string_body r (c :: acc)
  end.

Definition digits_value (ds : jstring) : Z :=
  fold_left (fun v d => v * 10 + (Z.of_N d - 48)) ds 0.

Definition span_digits := @RAGProcessingService.span_digits.

(** [int frac? exp?] after an optional minus sign. *)
Definition number_body (negative : bool) (s : jstring) : option (Q * jstring) :=
  let '(int, s) := span_digits s in
  match int with
  | [] => None
  | 48%N :: _ :: _ => None
  | _ =>
      frac ← match s with
             | 46%N :: r =>
                 let '(ds, r') := span_digits r in
                 match ds with [] => None | _ => Some (ds, r') end
             | _ => Some ([], s)
             end;
      let '(fracs, s) := frac in
      ex ← match s with
           | (101%N | 69%N) :: r =>
               let '(sign, r) :=
                 match r with
                 | 45%N :: r' => (-1, r')
                 | 43%N :: r' => (1, r')
                 | _ => (1, r)
                 end in
               let '(ds, r') := span_digits r in
               match ds with [] => None | _ => Some (sign * digits_value ds, r') end
           | _ => Some (0, s)
           end;
      let '(e, s) := ex in
      let mantissa := digits_value (int ++ fracs) in
      let scale := e - Z.of_nat (length fracs) in
      let magnitude :=
        if scale <? 0 then Qmake mantissa (Z.to_pos (10 ^ (- scale)))
        else Qmake (mantissa * 10 ^ scale) 1 in
      Some (if negative then Qopp magnitude else magnitude, s)
  end.

(** [obj[key] = v]: a repeated key keeps its place and takes the new value. *)
Fixpoint put (key : jstring) (v : json) (props : list (jstring * json))
    : list (jstring * json) :=
  match props with
  | [] => [(key, v)]
  | (k, v') :: rest =>
      if bool_decide (k = key) then (k, v) :: rest else (k, v') :: put key v rest
  end.

Fixpoint value (fuel : nat) (s : jstring) : option (json * jstring) :=
  match fuel with
  | O => None
  | S fuel =>
      match skip_ws s with
      | 110%N :: 117%N :: 108%N :: 108%N :: r => Some (JNull, r)
      | 116%N :: 114%N :: 117%N :: 101%N :: r => Some (JBool true, r)
      | 102%N :: 97%N :: 108%N :: 115%N :: 101%N :: r => Some (JBool false, r)
      | 34%N :: r =>
          '(str, r) ← string_body r []; Some (JString str, r)
      | 91%N :: r =>
          match skip_ws r with
          | 93%N :: r' => Some (JArray [], r')
          | _ => '(vs, r') ← elements fuel r []; Some (JArray vs, r')
          end
      | 123%N :: r =>
          match skip_ws r with
          | 125%N :: r' => Some (JObject [], r')
          | _ => '(ps, r') ← members fuel r []; Some (JObject ps, r')
          end
      | 45%N :: r => '(q, r) ← number_body true r; Some (JNumber q, r)
      | r => '(q, r) ← number_body false r; Some (JNumber q, r)
      end
  end
with elements (fuel : nat) (s : jstring) (acc : list json)
    : option (list json * jstring) :=
  match fuel with
  | O => None
  | S fuel =>
      '(v, r) ← value fuel s;
      match skip_ws r with
      | 44%N :: r' => elements fuel r' (v :: acc)
      | 93%N :: r' => Some (rev (v :: acc), r')
      | _ => None
      end
  end
with members (fuel : nat) (s : jstring) (acc : list (jstring * json))
    : option (list (jstring * json) * jstring) :=
  match fuel with
  | O => None
  | S fuel =>
      match skip_ws s with
      | 34%N :: r =>
          '(key, r) ← string_body r [];
          match skip_ws r with
          | 58%N :: r =>
              '(v, r) ← value fuel r;
              match skip_ws r with
              | 44%N :: r' => members fuel r' (put key v acc)
              | 125%N :: r' => Some (put key v acc, r')
              | _ => None
              end
          | _ => None
          end
      | _ => None
      end
  end.

Definition parse (s : jstring) : option json :=
  match value (2 * length s + 2) s with
  | Some (v, rest) => match skip_ws rest with [] => Some v | _ => None end
  | None => None
  end.

End Json.

Definition JSON_parse : jstring -> option json := Json.parse.

Definition meta (code : string) (chunk total : Z) : RAGProcessingService.ChromaMetadata :=
  RAGProcessingService.mkChromaMetadata
    (js code ++ js "_" ++ toString10 chunk) (js code) chunk total
    (js "Perda") 5 2019 (js "Pengelolaan Sampah")
    (js "2019-01-01") (js "2019-02-01") (js "Berlaku") [] None.

(** The vector store holds two chunks of one regulation and one of
    another. *)
Definition getById (id : jstring) : option (jstring * RAGProcessingService.ChromaMetadata) :=
  if bool_decide (id = js "perda5_0")
  then Some (js "Setiap orang dilarang membuang sampah", meta "perda5" 0 2)
  else if bool_decide (id = js "perda5_1")
  then Some (js "membuang sampah ke sungai.", meta "perda5" 1 2)
  else if bool_decide (id = js "uu32_0")
  then Some (js "Denda paling banyak lima juta.", meta "uu32" 0 1)
  else None.

(** A search that returns the first and the third chunk; the first one is
    an exact match, at distance zero. *)
Definition results : RAGProcessingService.QueryResults :=
  RAGProcessingService.mkResults
    [[js "perda5_0"; js "uu32_0"]]
    [[Some 0%Q; Some (1 # 4)%Q]]
    [[Some (js "Setiap orang dilarang membuang sampah");
      Some (js "Denda paling banyak lima juta.")]]
    [[Some (meta "perda5" 0 2); Some (meta "uu32" 0 1)]].

Definition query (text : jstring) (nResults : Z)
    : outcome RAGProcessingService.QueryResults :=
  Return results.

Definition quote : jstring := [34%N].

(** An evaluator that judges nothing relevant. *)
Definition agentChat_none (prompt : jstring) : outcome jstring :=
  Return (js "```json" ++ nl
          ++ js "{" ++ quote ++ js "rationale" ++ quote ++ js ": "
          ++ quote ++ js "tidak ada yang relevan" ++ quote ++ js ", "
          ++ quote ++ js "ids" ++ quote ++ js ": []}" ++ nl
          ++ js "```").

(** The fragments of the sample search, merged and ranked. *)
Definition mergedChunks : list RAGProcessingService.MergedChunk :=
  RAGProcessingService.sort_chunks
    (RAGProcessingService.expand_from toLowerCase getById 0
       [js "Setiap orang dilarang membuang sampah";
        js "Denda paling banyak lima juta."]
       [meta "perda5" 0 2; meta "uu32" 0 1]
       [0%Q; (1 # 4)%Q]).

Definition select (ids : list Z) : RAGProcessingService.AgentEvaluation :=
  RAGProcessingService.mkEvaluation (JString (js "sample")) (List.map Some ids).

(** A router model that answers in prose, and one that answers in a
    fenced JSON block. *)
Definition invoke_prose (messages : list SessionStorage.BaseMessage)
    : outcome jstring :=
  Return (js "This question needs the regulation database.").

Definition invoke_fenced (messages : list SessionStorage.BaseMessage)
    : outcome jstring :=
  Return (js "```json" ++ nl
          ++ js "{" ++ quote ++ js "action" ++ quote ++ js ":"
          ++ quote ++ js "rag" ++ quote ++ js "}" ++ nl ++ js "```").

Definition invoke_null (messages : list SessionStorage.BaseMessage)
    : outcome jstring :=
  Return (js "null").

(** A router model that is out of service. *)
Definition invoke_down (messages : list SessionStorage.BaseMessage)
    : outcome jstring :=
  Throw (OtherError (js "503 Service Unavailable")).

(** The two merged chunks of the sample search. *)
Definition chunk_denda : RAGProcessingService.MergedChunk :=
  RAGProcessingService.mkMergedChunk
    (js "Denda paling banyak lima juta.") (meta "uu32" 0 1) 2
    ((3 # 4)%Q : number).

Definition chunk_sampah : RAGProcessingService.MergedChunk :=
  RAGProcessingService.mkMergedChunk
    (js "Setiap orang dilarang membuang sampah ke sungai.") (meta "perda5" 0 2) 1
    (0%Q : number).

End Samples.

(** ** Vocabulary of the properties *)

Module SS := SessionStorage.
Module RAG := RAGProcessingService.

Module Spec.

(** [sub] occurs in [s] as a contiguous substring. *)
Definition contains (s sub : jstring) : Prop :=
  exists pre post, s = pre ++ sub ++ post.

(** [s.includes(sub)], the executable form of [contains]. *)
Fixpoint str_includes (s sub : jstring) : bool :=
  bool_decide (sub `prefix_of` s)
  || match s with
     | [] => false
     | _ :: r => str_includes r sub
     end.

(** The last [n] elements of a list, in order. *)
Definition last_n {A} (n : nat) (l : list A) : list A :=
  drop (length l - n) l.

(** What [trimHistory] leaves of a message list for window size [W]. *)
Definition window {A} (W : Z) (l : list A) : list A :=
  if Z.of_nat (length l) >? W then slice_from (- W) l else l.

(** Every session is filed once, under its own identifier. *)
Definition store_wf (st : SS.Store) : Prop :=
  NoDup (JSMap.keys (SS.sessions st))
  /\ forall k s, JSMap.get k (SS.sessions st) = Some s ->
                 SS.id s = k.

(** A sequence of [addMessage] calls, each with its session identifier. *)
Definition run (clock : nat -> Z)
    (calls : list (jstring * SS.BaseMessage))
    (st : SS.Store) : SS.Store :=
  fold_left (fun st call => SS.addMessage clock call.1 call.2 st)
            calls st.

(** The messages appended to session [sid] by [calls], as stored. *)
Definition appended (sid : jstring)
    (calls : list (jstring * SS.BaseMessage))
    : list SS.BaseMessage :=
  List.map (fun call => SS.cleanedMessage call.2)
           (List.filter (fun call => bool_decide (call.1 = sid)) calls).

(** [content] holds [body], non-empty and free of the delimiter, between
    two delimiters, after [pre] and before [post]. *)
Definition wrapped_at (content pre body post : jstring) : Prop :=
  content = pre ++ SS.dollar :: body ++ SS.dollar :: post
  /\ body <> []
  /\ (SS.dollar ∉ body).

(** ... and no wrapped substring starts further left. *)
Definition first_wrapped (content pre body post : jstring) : Prop :=
  wrapped_at content pre body post
  /\ forall pre' body' post',
       wrapped_at content pre' body' post' -> (length pre <= length pre')%nat.

Definition no_wrapper (content : jstring) : Prop :=
  forall pre body post, ~ wrapped_at content pre body post.

Definition beginMarker : jstring := js "___begin_context___".
Definition endMarker : jstring := js "___end_context___".

(** Two metadata records agree on every field but [lastActive]. *)
Definition same_but_lastActive (m m' : SS.SessionMetadata) : Prop :=
  SS.userId m' = SS.userId m
  /\ SS.createdAt m' = SS.createdAt m
  /\ SS.userAgent m' = SS.userAgent m
  /\ SS.ipAddress m' = SS.ipAddress m
  /\ SS.sessionType m' = SS.sessionType m
  /\ SS.metadata m' = SS.metadata m.

(** The test of the inactivity sweep. *)
Definition inactive (now threshold : Z) (s : SS.Session) : bool :=
  now - SS.lastActive (SS.smeta s) >? threshold.

Section MergeAsStated.
Variable toLowerCase : jstring -> jstring.

(** A suffix of [a] and a prefix of [b] of length [len] that are equal
    up to case. *)
Definition overlaps (a b : jstring) (len : nat) : Prop :=
  toLowerCase (drop (length a - len) a) = toLowerCase (take len b).

#[local] Instance overlaps_dec a b len : Decision (overlaps a b len).
Proof. unfold overlaps. apply _. Defined.

(** The merge in the words of the specification: the overlap is sought
    between the two texts as they are given. *)
Fixpoint longest_from (a b : jstring) (len : nat) : nat :=
  match len with
  | O => O
  | S len' =>
      if bool_decide (overlaps a b len) then len else longest_from a b len'
  end.

Definition mergeChunks_as_stated (a b : jstring) : jstring :=
  let L := longest_from a b (Nat.min (length a) (length b)) in
  if (0 <? L)%nat then take (length a - L) a ++ b
  else trim a ++ js " " ++ b.
End MergeAsStated.

(** The key [getOrCreateClientConnection] computes for a connection. *)
Definition connection_key (ip : jstring) (ua : option jstring) : jstring :=
  SS.createSimpleHash (or_default (Some ip) (js "unknown"))
  ++ js "_"
  ++ SS.createSimpleHash (or_default ua (js "unknown")).

(** The session [addMessage] works on, and the store it saves it to. *)
Definition opened (clock : nat -> Z) (sid : jstring) (st : SS.Store)
    : SS.Session * SS.Store :=
  match SS.getSession sid st with
  | Some session => (session, st)
  | None => SS.createSession clock sid None None st
  end.

(** The fixed text of a context block: what precedes the rendered body, and
    what lies between the body and the wrapped question. *)
Definition block_head : jstring :=
  js "___begin_context___" ++ RAG.nl.

Definition block_tail : jstring :=
  RAG.nl
  ++ js "___end_context___" ++ RAG.nl
  ++ RAG.nl
  ++ js "IMPORTANT INSTRUCTION / INSTRUKSI PENTING:" ++ RAG.nl
  ++ js "Answer in the SAME LANGUAGE as the question below. If the question is in English, respond in English. If the question is in Indonesian, respond in Indonesian." ++ RAG.nl
  ++ js "Jawab dalam BAHASA YANG SAMA dengan pertanyaan di bawah. Jika pertanyaan dalam Bahasa Inggris, jawab dalam Bahasa Inggris. Jika pertanyaan dalam Bahasa Indonesia, jawab dalam Bahasa Indonesia." ++ RAG.nl
  ++ js "question/pertanyaan:" ++ RAG.nl.

Section SweepVocabulary.
Variable clock : nat -> Z.

(** The session test of a sweep. *)
Variable P : jstring -> SS.Session -> bool.

(** The loop body both sweeps share. *)
Definition sweep_body (sid : jstring) (s : SS.Session) (acc : SS.Store * Z)
    : SS.Store * Z :=
  if P sid s
  then (SS.saveSession clock (SS.set_messages [] s) acc.1, acc.2 + 1)
  else acc.

Definition sweep_step (acc : SS.Store * Z) (sid : jstring) : SS.Store * Z :=
  match SS.getSession sid acc.1 with
  | Some s => sweep_body sid s acc
  | None => acc
  end.

(** Whether the sweep clears the session filed under [k] in [st]. *)
Definition swept (st : SS.Store) (k : jstring) : bool :=
  match JSMap.get k (SS.sessions st) with
  | Some s => P k s
  | None => false
  end.

(** The state of a session after the sweep cleared it at tick [t]. *)
Definition cleared (t : nat) (s : SS.Session) : SS.Session :=
  SS.mkSession (SS.id s) [] (SS.set_lastActive (clock t) (SS.smeta s)).

End SweepVocabulary.

(** The messages [routeQuery] sends to the model. *)
Definition route_messages (routingSystemPrompt message : jstring)
    (history : option (list SS.BaseMessage))
    : list SS.BaseMessage :=
  [SS.mkMessage SS.SystemMessage routingSystemPrompt]
    ++ default [] history ++ [SS.mkMessage SS.HumanMessage message].

Section PipelineVocabulary.
Context `{Numbers}.
Variable toLowerCase : jstring -> jstring.
Variable getById : jstring -> option (jstring * RAG.ChromaMetadata).

(** The non-null documents of a search result. *)
Definition documents_of (results : RAG.QueryResults) : list jstring :=
  omap Datatypes.id (default [] (head (RAG.res_documents results))).

(** The merged chunks of a search result, ranked (steps 2 and 3). *)
Definition merged_of (results : RAG.QueryResults) : list RAG.MergedChunk :=
  RAG.sort_chunks
    (RAG.expand_from toLowerCase getById 0
       (documents_of results)
       (omap Datatypes.id (default [] (head (RAG.res_metadatas results))))
       (omap Datatypes.id (default [] (head (RAG.res_distances results))))).

End PipelineVocabulary.

(** The value of a digit character and of a digit string in a base. *)
Definition digit_value (c : char) : Z :=
  if (c <? 58)%N then Z.of_N c - 48 else Z.of_N c - 87.

Definition decode (base : Z) (s : jstring) : Z :=
  fold_left (fun v c => v * base + digit_value c) s 0.

(** The public operations of the store that change it. *)
Inductive operation :=
| CreateSession (sessionId : jstring) (userId : option jstring)
    (additionalMetadata : option (list (jstring * jstring)))
| SaveSession (session : SS.Session)
| AddMessage (sessionId : jstring) (message : SS.BaseMessage)
| UpdateMetadata (sessionId : jstring) (partial : SS.PartialMetadata)
| ClearSessionMessages (sessionId : jstring)
| ClearSessionMessagesByPattern (pattern : jstring)
| ClearInactiveSessions (inactiveThresholdMs : Z)
| ClearSession (sessionId : jstring)
| ClearAll
| GetOrCreateClientConnection (ipAddress : jstring) (userAgent : option jstring)
| AssociateSessionWithClientConnection
    (sessionId ipAddress : jstring) (userAgent : option jstring).

Definition perform (clock : nat -> Z) (st : SS.Store) (op : operation) : SS.Store :=
  match op with
  | CreateSession sid u extra => (SS.createSession clock sid u extra st).2
  | SaveSession s => SS.saveSession clock s st
  | AddMessage sid m => SS.addMessage clock sid m st
  | UpdateMetadata sid p => SS.updateMetadata clock sid p st
  | ClearSessionMessages sid => SS.clearSessionMessages clock sid st
  | ClearSessionMessagesByPattern p => (SS.clearSessionMessagesByPattern clock p st).2
  | ClearInactiveSessions t => (SS.clearInactiveSessions clock t st).2
  | ClearSession sid => SS.clearSession sid st
  | ClearAll => SS.clearAll st
  | GetOrCreateClientConnection ip ua =>
      (SS.getOrCreateClientConnection clock ip ua st).2
  | AssociateSessionWithClientConnection sid ip ua =>
      SS.associateSessionWithClientConnection clock sid ip ua st
  end.

(** The stores a program can hold: those obtained from a new store by
    calling its operations. *)
Definition reachable (clock : nat -> Z) (W : Z) (st : SS.Store) : Prop :=
  exists ops, st = fold_left (perform clock) ops (SS.new W).

End Spec.

(** ** utils/requestUtils.ts: the client address *)

Module Request.

Definition comma : char := 44%N.

(** [s.split(sep)] for a separator of one code unit: the pieces between
    the separators, at least one. *)
Fixpoint split (sep : char) (s : jstring) : list jstring :=
  match s with
  | [] => [[]]
  | c :: r =>
      if (c =? sep)%N then [] :: split sep r
      else match split sep r with
           | piece :: pieces => (c :: piece) :: pieces
           | [] => [[c]]
           end
  end.

(** [request.headers.get]: the value of a header, or [null]. *)
Definition Headers : Type := jstring -> option jstring.

(** [getClientIP(request)].  [ips[0].trim()] is a [TypeError] on an empty
    array. *)
Definition getClientIP (headers : Headers) : outcome jstring :=
  let forwarded := headers (js "x-forwarded-for") in
  if truthy (default [] forwarded) then
    let ips := split comma (default [] forwarded) in
    match ips with
    | ip :: _ => Return (trim ip)
    | [] => Throw TypeError
    end
  else
    let realIP := headers (js "x-real-ip") in
    if truthy (default [] realIP) then Return (default [] realIP)
    else Return (js "unknown").

End Request.

(** ** services/chatHistoryService.ts *)

Module ChatHistoryService.

(** An instance of the class: its two fields. *)
Record t := mk {
  sessionId : jstring;
  maxMessages : Z;
}.

Record Summary := mkSummary {
  totalMessages : Z;
  pairs : Z;
}.

Section WithClock.
Variable clock : nat -> Z.

Definition addHumanMessage (this : t) (content : jstring) (st : SS.Store)
    : SS.Store :=
  SS.addMessage clock (sessionId this) (SS.mkMessage SS.HumanMessage content) st.

Definition addAIMessage (this : t) (content : jstring) (st : SS.Store)
    : SS.Store :=
  SS.addMessage clock (sessionId this) (SS.mkMessage SS.AIMessage content) st.

Definition getMessages (this : t) (st : SS.Store) : list SS.BaseMessage :=
  SS.getMessages (sessionId this) st.

Definition clear (this : t) (st : SS.Store) : SS.Store :=
  SS.clearSession (sessionId this) st.

Definition getSummary (this : t) (st : SS.Store) : Summary :=
  let messages := getMessages this st in
  mkSummary (Z.of_nat (length messages)) (Z.of_nat (length messages) / 2).

Definition isEmpty (this : t) (st : SS.Store) : bool :=
  (length (getMessages this st) =? 0)%nat.

End WithClock.

(** [chatHistoryStore.getHistory(sessionId, maxMessages = 4)] *)
Definition getHistory (sessionId : jstring) (maxMessages : option Z) : t :=
  mk sessionId (default 4 maxMessages).

End ChatHistoryService.

(** ** app/api/chat/route.ts and app/api/webhook/route.ts *)

Module Routes.

(** [generateSessionId(request, userId)]; [now] is the reading of
    [Date.now()]. *)
Definition generateSessionId (headers : Request.Headers)
    (userId : option jstring) (now : Z) : outcome jstring :=
  if truthy (default [] userId) then
    Return (js "user_" ++ default [] userId ++ js "_" ++ toString10 now)
  else
    clientIP ← Request.getClientIP headers;
    let userAgent := or_default (headers (js "user-agent")) (js "unknown") in
    let timestamp := toString10 now in
    let ipHash := RequestUtils.createSimpleHash clientIP in
    let uaHash := RequestUtils.createSimpleHash userAgent in
    Return (js "session_" ++ ipHash ++ js "_" ++ uaHash ++ js "_" ++ timestamp).

(** The session of a Wablas sender: [`wablass_${targetPhone}`]. *)
Definition webhookSessionId (targetPhone : jstring) : jstring :=
  js "wablass_" ++ targetPhone.

(** The pattern of the Wablas cleanup timer. *)
Definition wablasPattern : jstring := js "wablass_".

(** The threshold of the web chat cleanup timer. *)
Definition webInactiveThresholdMs : Z := 20000.

(** [`[${idx + 1}] ${source.jenis}, ${source.nomor}, ${source.tahun}`] *)
Definition sourceName (idx : nat) (source : RAG.Source) : jstring :=
  js "[" ++ toString10 (Z.of_nat idx + 1) ++ js "] "
  ++ RAG.src_jenis source ++ js ", "
  ++ toString10 (RAG.src_nomor source) ++ js ", "
  ++ toString10 (RAG.src_tahun source).

(** One entry of the reference list: plain text for Wablas, a markdown
    link for the web. *)
Definition referenceEntry (isWablas : bool) (idx : nat) (source : RAG.Source)
    : jstring :=
  let viewLink := or_default (RAG.src_view_link source) (js "#") in
  if isWablas
  then sourceName idx source ++ RAG.nl ++ viewLink ++ RAG.nl ++ RAG.nl
  else js "[" ++ sourceName idx source ++ js "](" ++ viewLink ++ js ")"
       ++ RAG.nl ++ RAG.nl.

(** The answer with its references, as [processRAGQueryNonStreaming]
    builds and stores it. *)
Definition responseWithSources (isWablas : bool) (fullResponse : jstring)
    (sources : list RAG.Source) : jstring :=
  if (0 <? length sources)%nat then
    let refHeader :=
      if RAG.isEnglish fullResponse
      then RAG.nl ++ RAG.nl ++ js "References:" ++ RAG.nl ++ RAG.nl
      else RAG.nl ++ RAG.nl ++ js "Referensi:" ++ RAG.nl ++ RAG.nl in
    fold_left (fun response entry => response ++ entry)
              (imap (referenceEntry isWablas) sources)
              (fullResponse ++ refHeader)
  else fullResponse.

(** [request.headers.get("user-agent") || undefined] of the chat route,
    [... || null] of the history route. *)
Definition userAgentOf (headers : Request.Headers) : option jstring :=
  SS.or_else (headers (js "user-agent")) None.

(** The sessions the history route lists for [?clientConnection]. *)
Definition connectionSessions (headers : Request.Headers) (st : SS.Store)
    : outcome (list SS.Session) :=
  let userAgent := userAgentOf headers in
  clientIP ← Request.getClientIP headers;
  Return (SS.getClientConnectionSessions clientIP userAgent st).

Section WithClock.
Variable clock : nat -> Z.

(** The clear route, on the body [{ sessionId = "default", userId }]. *)
Definition clearRoute (sessionId userId : option jstring) (st : SS.Store)
    : SS.Store :=
  let sessionId := default (js "default") sessionId in
  let st := SS.clearSession sessionId st in
  if truthy (default [] userId)
  then (SS.createSession clock sessionId userId None st).2
  else st.

End WithClock.

End Routes.

(** ** Vocabulary of the further properties *)

Module Laws.

(** The polynomial hash [c0 * 31^(n-1) + ... + c(n-1)], unreduced. *)
Definition poly31 (str : jstring) : Z :=
  fold_left (fun h c => h * 31 + Z.of_N c) str 0.

(** A digit or a lower-case letter, the alphabet of base 36. *)
Definition isBase36 (c : char) : bool :=
  ((48 <=? c) && (c <=? 57) || (97 <=? c) && (c <=? 122))%N.

Definition underscore : char := 95%N.

(** A text that neither starts nor ends with white space. *)
Definition trimmed (s : jstring) : Prop :=
  (forall c r, s = c :: r -> isWhiteSpace c = false)
  /\ (forall c r, s = r ++ [c] -> isWhiteSpace c = false).

(** The user index: every record is filed under its own, non-empty user
    identifier and lists at least one session, each once. *)
Definition user_index_wf (st : SS.Store) : Prop :=
  forall u d, SS.userSessions st !! u = Some d ->
    SS.ud_userId d = u
    /\ truthy u = true
    /\ NoDup (SS.ud_sessionIds d)
    /\ SS.ud_sessionIds d <> [].

(** Every stored session that has a user is listed under that user. *)
Definition users_indexed (st : SS.Store) : Prop :=
  forall k s u, JSMap.get k (SS.sessions st) = Some s ->
    SS.userId (SS.smeta s) = Some u -> truthy u = true ->
    exists d, SS.userSessions st !! u = Some d /\ k ∈ SS.ud_sessionIds d.

(** The connection index: every record is filed under its own
    fingerprint, which joins its two hashes with the one underscore that
    the address hash does not contain, and lists each session once. *)
Definition connection_index_wf (st : SS.Store) : Prop :=
  forall fp c, SS.clientConnections st !! fp = Some c ->
    SS.fingerprint c = fp
    /\ fp = SS.ipHash c ++ js "_" ++ SS.userAgentHash c
    /\ (underscore ∉ SS.ipHash c)
    /\ NoDup (SS.conn_sessionIds c).

(** No session holds more messages than the window allows. *)
Definition bounded (st : SS.Store) : Prop :=
  forall sid, Z.of_nat (length (SS.getMessages sid st)) <= SS.maxMessages st.

(** An operation that cannot file a longer history than [W] at once: every
    operation but a [saveSession] of a session with more than [W]
    messages. *)
Definition bounded_op (W : Z) (op : Spec.operation) : Prop :=
  match op with
  | Spec.SaveSession s => Z.of_nat (length (SS.messages s)) <= W
  | _ => True
  end.

(** A step that leaves every history as it is or empties it, and keeps
    the window size. *)
Definition shrinks (st st' : SS.Store) : Prop :=
  SS.maxMessages st' = SS.maxMessages st
  /\ forall k, SS.getMessages k st' = SS.getMessages k st
               \/ SS.getMessages k st' = [].

(** The session [createSession] builds at clock reading [t]. *)
Definition fresh (clock : nat -> Z) (t : nat) (sessionId : jstring)
    (userId : option jstring) (extra : option (list (jstring * jstring)))
    : SS.Session :=
  SS.mkSession sessionId []
    (SS.mkMetadata userId (clock t) (clock (S t)) None None SS.general
                   (default [] extra)).

Definition backtick : char := 96%N.

(** Whether what follows an opening bracket completes a document marker:
    at least one digit, then the closing bracket. *)
Definition closes_marker (p : jstring * jstring) : bool :=
  match p with
  | (_ :: _, c :: _) => (c =? 93)%N
  | _ => false
  end.

(** The property lookup of [get_prop] on the properties of an object. *)
Definition prop_of `{Numbers} (props : list (jstring * json)) (name : string)
    : option json :=
  snd <$> List.find (fun kv => bool_decide (fst kv = js name)) props.

(** The routing result read from what [JSON.parse] made of the reply:
    the fail-safe for text that is not JSON and for [null], the four
    properties of an object, and nothing at all for any other value. *)
Definition route_of `{Numbers} (parsed : option json) : ChatService.RouteResult :=
  match parsed with
  | None | Some JNull => ChatService.no_rag
  | Some (JObject props) =>
      ChatService.mkRoute (prop_of props "action") (prop_of props "expanded_query")
        (prop_of props "rag_optimized_query") (prop_of props "fixed_grammar")
  | Some _ => ChatService.mkRoute None None None None
  end.

(** The evaluation [evaluateChunks] falls back to when the model call or
    the reading of its reply fails: every number from 1 to the number of
    document markers in the rendered chunks. *)
Definition fail_open `{Numbers} (formattedChunks : jstring) : RAG.AgentEvaluation :=
  RAG.mkEvaluation
    (JString (js "Error in evaluation, returning all documents."))
    (List.map (fun i => Some (Z.of_nat i + 1))
              (seq 0 (RAG.count_doc_markers formattedChunks))).

(** The reply text [evaluateChunks] hands to [JSON.parse]. *)
Definition evaluation_json (response : jstring) : jstring :=
  trim (remove_all (js "```") 0 (remove_all (js "```json") 0 response)).


(** The metadata of a search result, without the missing ones. *)
Definition metadatas_of `{Numbers} (results : RAG.QueryResults)
    : list RAG.ChromaMetadata :=
  omap Datatypes.id (default [] (head (RAG.res_metadatas results))).

(** A metadata update that carries the connection data of a request, as
    the chat route builds it: the address [getClientIP] gave and the user
    agent header, whatever else it holds. *)
Definition carries_connection (headers : Request.Headers) (ip : jstring)
    (partial : SS.PartialMetadata) : Prop :=
  SS.p_ipAddress partial = Some (Some ip)
  /\ SS.p_userAgent partial = Some (Routes.userAgentOf headers).

Definition invariant (st : SS.Store) : Prop :=
  Spec.store_wf st
  /\ user_index_wf st
  /\ users_indexed st
  /\ connection_index_wf st.

End Laws.

(** ** Further sample inputs *)

Module Examples.

(** The headers of a request that came through two proxies. *)
Definition proxied : Request.Headers :=
  fun name =>
    if bool_decide (name = js "x-forwarded-for")
    then Some (js " 203.0.113.7 , 10.0.0.1")
    else if bool_decide (name = js "user-agent")
    then Some (js "Mozilla/5.0")
    else None.

(** A store with one Wablas conversation and one web conversation. *)
Definition mixed_store : SS.Store :=
  SS.addMessage Samples.tick_clock (js "session_abc_def_1700000000000")
    (Samples.human "apa itu perda?")
    (SS.addMessage Samples.tick_clock (Routes.webhookSessionId (js "628123456789"))
       (Samples.human "halo") SS.sessionStorage).

(** The metadata update of the chat request with the headers [proxied]. *)
Definition proxied_update : SS.PartialMetadata :=
  SS.mkPartial (Some None) None (Some 1700000000000)
    (Some (Some (js "Mozilla/5.0"))) (Some (Some (js "203.0.113.7"))) None None.

(** The metadata update of a chat request from [203.0.113.7]. *)
Definition connection_update : SS.PartialMetadata :=
  SS.mkPartial None None None (Some (Some (js "Mozilla/5.0")))
    (Some (Some (js "203.0.113.7"))) None None.

(** Two conversations of one user; the first is seen again from a known
    address, the second is cleared. *)
Definition busy_ops : list Spec.operation :=
  [ Spec.CreateSession (js "a") (Some (js "u1")) None;
    Spec.AddMessage (js "a") (Samples.human "halo");
    Spec.CreateSession (js "b") (Some (js "u1")) None;
    Spec.UpdateMetadata (js "a") connection_update;
    Spec.ClearSession (js "b") ].

Definition busy_store : SS.Store :=
  fold_left (Spec.perform Samples.tick_clock) busy_ops SS.sessionStorage.

(** A search whose second hit has an empty text. *)
Definition results_with_gap : @RAG.QueryResults Samples.rational_numbers :=
  @RAG.mkResults Samples.rational_numbers
    [[js "perda5_0"; js "perda5_1"; js "uu32_0"]]
    [[Some (1 # 4)%Q; Some (1 # 2)%Q; Some (3 # 4)%Q]]
    [[Some (js "Setiap orang dilarang membuang sampah"); Some [];
      Some (js "Denda paling banyak lima juta.")]]
    [[Some (Samples.meta "perda5" 0 2); Some (Samples.meta "perda5" 1 2);
      Some (Samples.meta "uu32" 0 1)]].

(** A search that finds nothing. *)
Definition query_nothing (text : jstring) (nResults : Z)
    : outcome (@RAG.QueryResults Samples.rational_numbers) :=
  Return (@RAG.mkResults Samples.rational_numbers [[]] [[]] [[]] [[]]).

(** An evaluator that is out of service. *)
Definition agentChat_down (prompt : jstring) : outcome jstring :=
  Throw (OtherError (js "503 Service Unavailable")).

End Examples.

(** * Properties *)

(** ** Built-ins *)

Section BuiltinFacts.

Lemma trimStart_suffix (s : jstring) : trimStart s `suffix_of` s.
Proof.
  induction s as [|c r IH]; simpl; [done|].
  destruct (isWhiteSpace c); [|done].
  by apply suffix_cons_r.
Qed.

Lemma trimEnd_prefix (s : jstring) : trimEnd s `prefix_of` s.
Proof.
  unfold trimEnd.
  destruct (trimStart_suffix (rev s)) as [k Hk].
  exists (rev k).
  by rewrite <- rev_app_distr, <- Hk, rev_involutive.
Qed.

(** Trimming keeps a contiguous part of the text. *)
Lemma trim_infix (s : jstring) : exists pre post, s = pre ++ trim s ++ post.
Proof.
  unfold trim.
  destruct (trimStart_suffix s) as [pre Hpre].
  destruct (trimEnd_prefix (trimStart s)) as [post Hpost].
  exists pre, post. by rewrite <- Hpost.
Qed.

Lemma trim_length (s : jstring) : (length (trim s) <= length s)%nat.
Proof.
  destruct (trim_infix s) as (pre & post & Heq).
  rewrite Heq at 2. rewrite !length_app. lia.
Qed.

Lemma rel_index_neg (n : Z) (len : nat) :
  0 < n -> rel_index (- n) len = (len - Z.to_nat n)%nat.
Proof.
  intros Hn. unfold rel_index.
  destruct (Z.ltb_spec (- n) 0); lia.
Qed.

Lemma rel_index_nonneg (n : Z) (len : nat) :
  0 <= n -> rel_index n len = Nat.min (Z.to_nat n) len.
Proof.
  intros Hn. unfold rel_index.
  destruct (Z.ltb_spec n 0); lia.
Qed.

(** [l.slice(-n)] keeps the last [n] elements. *)
Lemma slice_from_neg {A} (n : Z) (l : list A) :
  0 < n -> slice_from (- n) l = drop (length l - Z.to_nat n) l.
Proof. intros Hn. unfold slice_from. by rewrite rel_index_neg. Qed.

(** [l.slice(-0)] is [l.slice(0)]: the whole array. *)
Lemma slice_from_zero {A} (l : list A) : slice_from (- 0) l = l.
Proof. unfold slice_from. by rewrite rel_index_nonneg. Qed.

(** [s.slice(0, n)] keeps the first [n] elements. *)
Lemma slice_0_nonneg {A} (n : Z) (l : list A) :
  0 <= n -> slice 0 n l = take (Z.to_nat n) l.
Proof.
  intros Hn. unfold slice.
  rewrite (rel_index_nonneg 0), (rel_index_nonneg n) by lia.
  simpl. rewrite Nat.sub_0_r, drop_0.
  destruct (Nat.min_spec (Z.to_nat n) (length l)) as [[? ->]|[? ->]]; [done|].
  rewrite !take_ge; [done|lia|lia].
Qed.

(** [s.slice(0, -n)] drops the last [n] elements. *)
Lemma slice_0_neg {A} (n : Z) (l : list A) :
  0 < n -> slice 0 (- n) l = take (length l - Z.to_nat n) l.
Proof.
  intros Hn. unfold slice.
  rewrite (rel_index_nonneg 0), rel_index_neg by lia.
  simpl. by rewrite Nat.sub_0_r, drop_0.
Qed.

End BuiltinFacts.

(** ** Number printing: the fuel is enough *)

Lemma decode_snoc (base : Z) (s : jstring) (c : N) :
  Spec.decode base (s ++ [c]) = Spec.decode base s * base + Spec.digit_value c.
Proof. unfold Spec.decode. by rewrite fold_left_app. Qed.

Lemma digit36_value (d : Z) : 0 <= d < 36 -> Spec.digit_value (digit36 d) = d.
Proof.
  intros Hd. unfold Spec.digit_value, digit36.
  destruct (Z.ltb_spec d 10).
  - destruct (N.ltb_spec (Z.to_N (48 + d)) 58); lia.
  - destruct (N.ltb_spec (Z.to_N (87 + d)) 58); lia.
Qed.

Lemma digits36_acc (fuel : nat) (n : Z) (acc : jstring) :
  digits36 fuel n acc = digits36 fuel n [] ++ acc.
Proof.
  revert n acc. induction fuel as [|fuel IH]; intros n acc; simpl; [done|].
  destruct (n <? 36); [done|].
  rewrite IH, (IH _ [_]). by rewrite <- app_assoc.
Qed.

Lemma decode_digits36 (fuel : nat) (n : Z) :
  0 <= n < 36 ^ Z.of_nat fuel -> Spec.decode 36 (digits36 fuel n []) = n.
Proof.
  revert n. induction fuel as [|fuel IH]; intros n Hn.
  - change (36 ^ Z.of_nat 0) with 1 in Hn.
    assert (n = 0) as -> by lia. reflexivity.
  - simpl. destruct (Z.ltb_spec n 36) as [Hlt|Hge].
    + unfold Spec.decode. simpl. rewrite Z.mod_small by lia.
      rewrite digit36_value; lia.
    + rewrite digits36_acc, decode_snoc, IH.
      * rewrite digit36_value by (apply Z.mod_pos_bound; lia).
        pose proof (Z.div_mod n 36). lia.
      * rewrite Nat2Z.inj_succ, Z.pow_succ_r in Hn by lia.
        split; [apply Z.div_pos; lia|].
        apply Z.div_lt_upper_bound; lia.
Qed.

Lemma below_pow_log2 (base n : Z) :
  2 <= base -> 0 <= n -> n < base ^ Z.of_nat (S (Z.to_nat (Z.log2 n))).
Proof.
  intros Hb Hn.
  rewrite Nat2Z.inj_succ, Z2Nat.id by apply Z.log2_nonneg.
  destruct (decide (n = 0)) as [->|Hne].
  - simpl. lia.
  - pose proof (Z.log2_spec n ltac:(lia)) as [_ Hlt].
    eapply Z.lt_le_trans; [exact Hlt|].
    apply Z.pow_le_mono_l. pose proof (Z.log2_nonneg n). lia.
Qed.

(** [toString(36)] prints every digit: reading the text back gives the
    number. *)
Lemma toString36_decode (n : Z) : 0 <= n -> Spec.decode 36 (toString36 n) = n.
Proof.
  intros Hn. unfold toString36. apply decode_digits36.
  split; [done|]. by apply below_pow_log2.
Qed.

Lemma digits10_acc (fuel : nat) (n : Z) (acc : jstring) :
  digits10 fuel n acc = digits10 fuel n [] ++ acc.
Proof.
  revert n acc. induction fuel as [|fuel IH]; intros n acc; simpl; [done|].
  destruct (n <? 10); [done|].
  rewrite IH, (IH _ [_]). by rewrite <- app_assoc.
Qed.

Lemma decode_digits10 (fuel : nat) (n : Z) :
  0 <= n < 10 ^ Z.of_nat fuel -> Spec.decode 10 (digits10 fuel n []) = n.
Proof.
  revert n. induction fuel as [|fuel IH]; intros n Hn.
  - change (10 ^ Z.of_nat 0) with 1 in Hn.
    assert (n = 0) as -> by lia. reflexivity.
  - assert (Hdigit : forall d, 0 <= d < 10 ->
                               Spec.digit_value (Z.to_N (48 + d)) = d).
    { intros d Hd. unfold Spec.digit_value.
      destruct (N.ltb_spec (Z.to_N (48 + d)) 58); lia. }
    simpl. destruct (Z.ltb_spec n 10) as [Hlt|Hge].
    + unfold Spec.decode. simpl. rewrite Z.mod_small by lia.
      rewrite Hdigit; lia.
    + rewrite digits10_acc, decode_snoc, IH.
      * rewrite Hdigit by (apply Z.mod_pos_bound; lia).
        pose proof (Z.div_mod n 10). lia.
      * rewrite Nat2Z.inj_succ, Z.pow_succ_r in Hn by lia.
        split; [apply Z.div_pos; lia|].
        apply Z.div_lt_upper_bound; lia.
Qed.

(** A document number is printed in full. *)
Lemma toString10_decode (n : Z) : 0 <= n -> Spec.decode 10 (toString10 n) = n.
Proof.
  intros Hn. unfold toString10.
  destruct (Z.ltb_spec n 0); [lia|].
  apply decode_digits10. split; [done|]. by apply below_pow_log2.
Qed.

(** ** The two string hashes *)

Lemma hash_loops_agree (str : jstring) (h : Z) :
  fold_left RequestUtils.hash_step str h =
  fold_left (fun hash c =>
               let hash := (shl hash 5 - hash) + Z.of_N c in band hash hash)
            str h.
Proof. revert h. induction str as [|c r IH]; intros h; simpl; [done|apply IH]. Qed.

Lemma createSimpleHash_same (str : jstring) :
  RequestUtils.createSimpleHash str = SessionStorage.createSimpleHash str.
Proof.
  unfold RequestUtils.createSimpleHash, SessionStorage.createSimpleHash.
  by rewrite hash_loops_agree.
Qed.

(** The running hash stays a signed 32-bit integer. *)
Lemma toInt32_range (x : Z) : -2147483648 <= toInt32 x < 2147483648.
Proof. unfold toInt32. pose proof (Z.mod_pos_bound (x + 2147483648) 4294967296). lia. Qed.

Lemma toInt32_id (x : Z) : -2147483648 <= x < 2147483648 -> toInt32 x = x.
Proof.
  intros Hx. unfold toInt32.
  rewrite Z.mod_small by lia. lia.
Qed.

Lemma band_self (x : Z) : band x x = toInt32 x.
Proof.
  unfold band. rewrite Z.land_diag. apply toInt32_id, toInt32_range.
Qed.

(** On 32-bit values one loop step is [hash * 31 + char] reduced to 32 bits. *)
Lemma hash_step_spec (h : Z) (c : char) :
  -2147483648 <= h < 2147483648 ->
  RequestUtils.hash_step h c = toInt32 (h * 31 + Z.of_N c).
Proof.
  intros Hh. unfold RequestUtils.hash_step. rewrite band_self.
  unfold shl. rewrite (toInt32_id h) by done.
  change (5 mod 32) with 5. rewrite Z.shiftl_mul_pow2 by lia.
  change (2 ^ 5) with 32.
  unfold toInt32. f_equal.
  set (X := h * 32 + 2147483648).
  transitivity ((X mod 4294967296 + (Z.of_N c - h)) mod 4294967296).
  { f_equal. lia. }
  rewrite Zplus_mod_idemp_l. f_equal. unfold X. lia.
Qed.

(** C10.  The hash of the request utilities and the private hash of the
    session store are the same function: on every string they return the
    same base-36 text.  Hence the connection fingerprint computed by
    [getClientConnectionFingerprint] is the key under which the store files
    the connection, and the fingerprint it records for a new connection. *)
Theorem createSimpleHash_implementations_agree :
  (forall str : jstring,
      RequestUtils.createSimpleHash str = SessionStorage.createSimpleHash str)
  /\ (forall (clock : nat -> Z) (ip : jstring) (ua : option jstring)
             (st : SessionStorage.Store),
        let r := SessionStorage.getOrCreateClientConnection clock ip ua st in
        SessionStorage.clientConnections (snd r)
          !! RequestUtils.getClientConnectionFingerprint ip ua = Some (fst r))
  /\ (forall (clock : nat -> Z) (ip : jstring) (ua : option jstring) (W : Z),
        SessionStorage.fingerprint
          (fst (SessionStorage.getOrCreateClientConnection clock ip ua
                  (SessionStorage.new W)))
        = RequestUtils.getClientConnectionFingerprint ip ua).
Proof.
  split; [exact createSimpleHash_same|].
  assert (Hkey : forall ip ua,
             Spec.connection_key ip ua = RequestUtils.getClientConnectionFingerprint ip ua)
    by reflexivity.
  split.
  - intros clock ip ua st r. subst r. rewrite <- Hkey.
    unfold SessionStorage.getOrCreateClientConnection.
    fold (Spec.connection_key ip ua).
    generalize (Spec.connection_key ip ua)
      (SessionStorage.createSimpleHash (or_default (Some ip) (js "unknown")))
      (SessionStorage.createSimpleHash (or_default ua (js "unknown"))).
    intros fp h1 h2.
    destruct (SessionStorage.clientConnections st !! fp) as [conn|] eqn:Hfp.
    + rewrite Hfp. cbn. by rewrite lookup_insert_eq.
    + cbn. rewrite lookup_insert_eq. cbn. by rewrite lookup_insert_eq.
  - intros clock ip ua W. rewrite <- Hkey.
    unfold SessionStorage.getOrCreateClientConnection.
    fold (Spec.connection_key ip ua).
    generalize (Spec.connection_key ip ua)
      (SessionStorage.createSimpleHash (or_default (Some ip) (js "unknown")))
      (SessionStorage.createSimpleHash (or_default ua (js "unknown"))).
    intros fp h1 h2.
    cbn. rewrite lookup_empty. cbn. rewrite lookup_insert_eq. done.
Qed.

(** ** Insertion-ordered maps *)

Section JSMapFacts.
Context {V : Type}.
Implicit Types (m : JSMap.t V) (k : jstring) (v : V).

Lemma get_set_eq k v m : JSMap.get k (JSMap.set k v m) = Some v.
Proof.
  induction m as [|[k' v'] m IH]; simpl.
  - by rewrite decide_True.
  - destruct (decide (k' = k)) as [->|Hne]; simpl.
    + by rewrite decide_True.
    + by rewrite decide_False.
Qed.

Lemma get_set_ne k k' v m :
  k <> k' -> JSMap.get k' (JSMap.set k v m) = JSMap.get k' m.
Proof.
  intros Hne. induction m as [|[k0 v0] m IH]; simpl.
  - by rewrite decide_False.
  - destruct (decide (k0 = k)) as [->|Hne0]; simpl.
    + by rewrite !decide_False.
    + by rewrite IH.
Qed.

Lemma get_Some_keys k v m : JSMap.get k m = Some v -> k ∈ JSMap.keys m.
Proof.
  induction m as [|[k0 v0] m IH]; simpl; [done|].
  destruct (decide (k0 = k)) as [->|Hne]; intros Hget.
  - apply list_elem_of_here.
  - apply list_elem_of_further, IH, Hget.
Qed.

Lemma get_None_keys k m : JSMap.get k m = None -> k ∉ JSMap.keys m.
Proof.
  induction m as [|[k0 v0] m IH]; simpl.
  - intros _ Hin. by apply elem_of_nil in Hin.
  - destruct (decide (k0 = k)) as [->|Hne]; [done|].
    intros Hget Hin. apply elem_of_cons in Hin as [->|Hin]; [done|].
    by apply IH.
Qed.

(** Setting a key that is present keeps the iteration order. *)
Lemma keys_set_present k v m :
  k ∈ JSMap.keys m -> JSMap.keys (JSMap.set k v m) = JSMap.keys m.
Proof.
  induction m as [|[k0 v0] m IH]; simpl.
  - intros Hin. by apply elem_of_nil in Hin.
  - intros Hin. destruct (decide (k0 = k)) as [->|Hne]; simpl; [done|].
    apply elem_of_cons in Hin as [->|Hin]; [done|].
    by rewrite IH.
Qed.

(** Setting a new key appends it. *)
Lemma keys_set_absent k v m :
  k ∉ JSMap.keys m -> JSMap.keys (JSMap.set k v m) = JSMap.keys m ++ [k].
Proof.
  induction m as [|[k0 v0] m IH]; simpl; [done|].
  intros Hnin. apply not_elem_of_cons in Hnin as [Hne Hnin].
  rewrite decide_False by done. simpl. by rewrite IH.
Qed.

Lemma keys_set_NoDup k v m :
  NoDup (JSMap.keys m) -> NoDup (JSMap.keys (JSMap.set k v m)).
Proof.
  intros Hnd. destruct (decide (k ∈ JSMap.keys m)) as [Hin|Hnin].
  - by rewrite keys_set_present.
  - rewrite keys_set_absent by done.
    apply NoDup_app. split; [done|]. split.
    + intros x Hx Hx'. apply list_elem_of_singleton in Hx'. by subst.
    + apply NoDup_singleton.
Qed.

End JSMapFacts.

(** ** The session store *)

Section StoreFacts.
Variable clock : nat -> Z.
Implicit Types (st : SS.Store) (s : SS.Session) (sid : jstring).

Lemma associateSessionWithUser_frame sid u st :
  let st' := SS.associateSessionWithUser clock sid u st in
  SS.sessions st' = SS.sessions st
  /\ SS.maxMessages st' = SS.maxMessages st
  /\ (SS.ticks st <= SS.ticks st')%nat.
Proof.
  unfold SS.associateSessionWithUser.
  destruct (SS.userSessions st !! u) as [ud|] eqn:Hu.
  - rewrite Hu. simpl. auto.
  - simpl. rewrite lookup_insert_eq. simpl. repeat split; lia.
Qed.

Lemma saveSession_sessions s st :
  SS.sessions (SS.saveSession clock s st) =
  JSMap.set (SS.id s)
    (SS.set_smeta (SS.set_lastActive (clock (SS.ticks st)) (SS.smeta s)) s)
    (SS.sessions st).
Proof.
  unfold SS.saveSession. simpl.
  destruct (SS.userId (SS.smeta s)) as [u|]; [|done].
  destruct (truthy u); [|done].
  by destruct (associateSessionWithUser_frame (SS.id s) u
    (SS.with_sessions
       (JSMap.set (SS.id s)
          (SS.set_smeta (SS.set_lastActive (clock (SS.ticks st)) (SS.smeta s)) s)
          (SS.sessions st))
       (SS.mkStore (SS.sessions st) (SS.userSessions st)
          (SS.clientConnections st) (SS.maxMessages st) (S (SS.ticks st)))))
    as (-> & _ & _).
Qed.

Lemma saveSession_maxMessages s st :
  SS.maxMessages (SS.saveSession clock s st) = SS.maxMessages st.
Proof.
  unfold SS.saveSession. simpl.
  destruct (SS.userId (SS.smeta s)) as [u|]; [|done].
  destruct (truthy u); [|done].
  by destruct (associateSessionWithUser_frame (SS.id s) u
    (SS.with_sessions
       (JSMap.set (SS.id s)
          (SS.set_smeta (SS.set_lastActive (clock (SS.ticks st)) (SS.smeta s)) s)
          (SS.sessions st))
       (SS.mkStore (SS.sessions st) (SS.userSessions st)
          (SS.clientConnections st) (SS.maxMessages st) (S (SS.ticks st)))))
    as (_ & -> & _).
Qed.

Lemma saveSession_ticks s st :
  (SS.ticks st < SS.ticks (SS.saveSession clock s st))%nat.
Proof.
  unfold SS.saveSession. simpl.
  destruct (SS.userId (SS.smeta s)) as [u|]; [|simpl; lia].
  destruct (truthy u); [|simpl; lia].
  destruct (associateSessionWithUser_frame (SS.id s) u
    (SS.with_sessions
       (JSMap.set (SS.id s)
          (SS.set_smeta (SS.set_lastActive (clock (SS.ticks st)) (SS.smeta s)) s)
          (SS.sessions st))
       (SS.mkStore (SS.sessions st) (SS.userSessions st)
          (SS.clientConnections st) (SS.maxMessages st) (S (SS.ticks st)))))
    as (_ & _ & Hle).
  simpl in Hle. lia.
Qed.

(** Saving a session under its own key keeps the store well formed. *)
Lemma saveSession_wf s st :
  Spec.store_wf st -> Spec.store_wf (SS.saveSession clock s st).
Proof.
  intros [Hnd Hid]. split; rewrite saveSession_sessions.
  - by apply keys_set_NoDup.
  - intros k s' Hget.
    destruct (decide (SS.id s = k)) as [<-|Hne].
    + rewrite get_set_eq in Hget. by inversion Hget.
    + rewrite get_set_ne in Hget by done. by apply Hid.
Qed.

Lemma getSession_saveSession s st sid :
  SS.getSession sid (SS.saveSession clock s st) =
  if decide (SS.id s = sid)
  then Some (SS.set_smeta
               (SS.set_lastActive (clock (SS.ticks st)) (SS.smeta s)) s)
  else SS.getSession sid st.
Proof.
  unfold SS.getSession. rewrite saveSession_sessions.
  destruct (decide (SS.id s = sid)) as [<-|Hne].
  - apply get_set_eq.
  - by apply get_set_ne.
Qed.

Lemma trimHistory_messages s st :
  SS.messages (SS.trimHistory s st) = Spec.window (SS.maxMessages st) (SS.messages s).
Proof.
  unfold SS.trimHistory, Spec.window.
  by destruct (Z.of_nat (length (SS.messages s)) >? SS.maxMessages st).
Qed.

Lemma trimHistory_id s st : SS.id (SS.trimHistory s st) = SS.id s.
Proof.
  unfold SS.trimHistory.
  by destruct (Z.of_nat (length (SS.messages s)) >? SS.maxMessages st).
Qed.

Lemma opened_spec sid st :
  Spec.store_wf st ->
  let '(s, st') := Spec.opened clock sid st in
  SS.id s = sid
  /\ SS.messages s = SS.getMessages sid st
  /\ SS.maxMessages st' = SS.maxMessages st
  /\ Spec.store_wf st'
  /\ forall sid', sid' <> sid -> SS.getSession sid' st' = SS.getSession sid' st.
Proof.
  intros Hwf. unfold Spec.opened, SS.getMessages.
  destruct (SS.getSession sid st) as [s|] eqn:Hget.
  - split_and!; try done. by apply (proj2 Hwf).
  - simpl. split_and!; try done.
    + split; simpl.
      * apply keys_set_NoDup, Hwf.
      * intros k s' Hs'. destruct (decide (sid = k)) as [<-|Hne].
        -- rewrite get_set_eq in Hs'. by inversion Hs'.
        -- rewrite get_set_ne in Hs' by done. by apply (proj2 Hwf).
    + intros sid' Hne. unfold SS.getSession. simpl.
      by rewrite get_set_ne.
Qed.

Lemma addMessage_unfold sid m st :
  SS.addMessage clock sid m st =
  let '(s, st') := Spec.opened clock sid st in
  SS.saveSession clock
    (SS.trimHistory
       (SS.set_messages (SS.messages s ++ [SS.cleanedMessage m]) s) st') st'.
Proof. reflexivity. Qed.

(** One append: the target session gets the cleaned message at its tail
    and is trimmed to the window; every other session is untouched. *)
Lemma addMessage_spec sid m st :
  Spec.store_wf st ->
  let st' := SS.addMessage clock sid m st in
  Spec.store_wf st'
  /\ SS.maxMessages st' = SS.maxMessages st
  /\ SS.getMessages sid st' =
     Spec.window (SS.maxMessages st)
                 (SS.getMessages sid st ++ [SS.cleanedMessage m])
  /\ forall sid', sid' <> sid -> SS.getMessages sid' st' = SS.getMessages sid' st.
Proof.
  intros Hwf. simpl. rewrite addMessage_unfold.
  pose proof (opened_spec sid st Hwf) as Hop.
  destruct (Spec.opened clock sid st) as [s st1].
  destruct Hop as (Hid & Hmsgs & Hmax & Hwf1 & Hother).
  split_and!.
  - by apply saveSession_wf.
  - by rewrite saveSession_maxMessages.
  - unfold SS.getMessages at 1. rewrite getSession_saveSession.
    rewrite trimHistory_id. simpl. rewrite decide_True by done.
    simpl. rewrite trimHistory_messages. simpl. by rewrite Hmax, Hmsgs.
  - intros sid' Hne. unfold SS.getMessages. rewrite getSession_saveSession.
    rewrite trimHistory_id. simpl. rewrite decide_False by congruence.
    by rewrite Hother.
Qed.

End StoreFacts.

(** ** The sliding window *)

Lemma last_n_length {A} (n : nat) (l : list A) :
  length (Spec.last_n n l) = Nat.min n (length l).
Proof. unfold Spec.last_n. rewrite length_drop. lia. Qed.

(** Trimming after one more append keeps exactly the last [W] elements. *)
Lemma window_last_n_snoc {A} (W : Z) (l : list A) (x : A) :
  0 < W ->
  Spec.window W (Spec.last_n (Z.to_nat W) l ++ [x]) =
  Spec.last_n (Z.to_nat W) (l ++ [x]).
Proof.
  intros HW. unfold Spec.window.
  rewrite length_app, last_n_length. simpl.
  destruct (Z.gtb_spec (Z.of_nat (Nat.min (Z.to_nat W) (length l) + 1)) W) as [Hgt|Hle].
  - rewrite slice_from_neg by done.
    rewrite length_app, last_n_length. simpl.
    unfold Spec.last_n. rewrite length_app. simpl.
    assert (Hlen : (Z.to_nat W <= length l)%nat) by lia.
    rewrite drop_app_le by (rewrite length_drop; lia).
    rewrite drop_drop.
    rewrite drop_app_le by lia.
    do 2 f_equal. lia.
  - unfold Spec.last_n. rewrite length_app. simpl.
    assert (Hlen : (length l < Z.to_nat W)%nat) by lia.
    replace (length l - Z.to_nat W)%nat with O by lia.
    replace (length l + 1 - Z.to_nat W)%nat with O by lia.
    done.
Qed.

Lemma run_snoc (clock : nat -> Z) calls call st :
  Spec.run clock (calls ++ [call]) st =
  SS.addMessage clock call.1 call.2 (Spec.run clock calls st).
Proof. unfold Spec.run. by rewrite fold_left_app. Qed.

Lemma appended_snoc sid calls call :
  Spec.appended sid (calls ++ [call]) =
  Spec.appended sid calls
  ++ (if decide (call.1 = sid) then [SS.cleanedMessage call.2] else []).
Proof.
  unfold Spec.appended. rewrite List.filter_app, List.map_app. simpl.
  destruct (decide (call.1 = sid)) as [Heq|Hne].
  - by rewrite bool_decide_eq_true_2.
  - by rewrite bool_decide_eq_false_2.
Qed.

Lemma new_wf (W : Z) : Spec.store_wf (SS.new W).
Proof. split; simpl; [apply NoDup_nil_2|done]. Qed.

(** The invariant of a store that has only seen [addMessage] calls. *)
Lemma run_invariant (clock : nat -> Z) (W : Z) calls :
  0 < W ->
  let st := Spec.run clock calls (SS.new W) in
  Spec.store_wf st
  /\ SS.maxMessages st = W
  /\ forall sid, SS.getMessages sid st =
                 Spec.last_n (Z.to_nat W) (Spec.appended sid calls).
Proof.
  intros HW. induction calls as [|call calls IH] using rev_ind.
  - simpl. split_and!; [apply new_wf|done|done].
  - simpl in *. destruct IH as (Hwf & Hmax & Hmsgs).
    rewrite run_snoc.
    destruct (addMessage_spec clock call.1 call.2 _ Hwf)
      as (Hwf' & Hmax' & Hsame & Hother).
    split_and!; [done|congruence|].
    intros sid. rewrite appended_snoc.
    destruct (decide (call.1 = sid)) as [<-|Hne].
    + rewrite Hsame, Hmax, Hmsgs. by apply window_last_n_snoc.
    + rewrite Hother by done. rewrite app_nil_r. apply Hmsgs.
Qed.

(** C1.  In a store with window size [W >= 1], after any sequence of
    [addMessage] calls every session holds at most [W] messages, and they are
    exactly the last [W] messages appended to it, in append order; the window
    counts single messages. *)
Theorem addMessage_sliding_window
    (clock : nat -> Z) (W : Z)
    (calls : list (jstring * SS.BaseMessage)) (sid : jstring) :
  0 < W ->
  let st := Spec.run clock calls (SS.new W) in
  Z.of_nat (length (SS.getMessages sid st)) <= W
  /\ SS.getMessages sid st =
     Spec.last_n (Z.to_nat W) (Spec.appended sid calls).
Proof.
  intros HW st.
  destruct (run_invariant clock W calls HW) as (_ & _ & Hmsgs).
  fold st in Hmsgs. rewrite Hmsgs, last_n_length. split; [lia|done].
Qed.

Lemma addMessage_sliding_window_witness :
  let st := Spec.run Samples.tick_clock Samples.five_calls SS.sessionStorage in
  Z.of_nat (length (SS.getMessages (js "s1") st)) <= 4
  /\ SS.getMessages (js "s1") st =
     Spec.last_n 4 (Spec.appended (js "s1") Samples.five_calls).
Proof.
  apply (addMessage_sliding_window Samples.tick_clock 4 Samples.five_calls (js "s1")).
  reflexivity.
Defined.

(** The fifth message pushes the first one out. *)
Example five_calls_window :
  SS.getMessages (js "s1")
    (Spec.run Samples.tick_clock Samples.five_calls SS.sessionStorage)
  = [Samples.ai "m2"; Samples.human "m3"; Samples.ai "m4"; Samples.human "m5"].
Proof. vm_compute. reflexivity. Qed.

(** A window size of zero does not bound the history: [slice(-0)] is the
    whole array. *)
Lemma window_zero {A} (l : list A) : Spec.window 0 l = l.
Proof.
  unfold Spec.window. destruct (Z.of_nat (length l) >? 0); [|done].
  apply slice_from_zero.
Qed.

(** ** History redaction *)

Lemma span_body_spec (s : jstring) :
  let '(body, rest) := SS.span_body s in
  s = body ++ rest
  /\ (SS.dollar ∉ body)
  /\ (rest = [] \/ exists r, rest = SS.dollar :: r).
Proof.
  induction s as [|c r IH]; simpl.
  - split_and!; [done|apply not_elem_of_nil|by left].
  - destruct (N.eqb_spec c SS.dollar) as [->|Hne].
    + split_and!; [done|apply not_elem_of_nil|right; by eexists].
    + destruct (SS.span_body r) as [body rest].
      destruct IH as (-> & Hbody & Hrest).
      split_and!; [done| |done].
      apply not_elem_of_cons. split; [congruence|done].
Qed.

Lemma span_body_app (body post : jstring) :
  SS.dollar ∉ body ->
  SS.span_body (body ++ SS.dollar :: post) = (body, SS.dollar :: post).
Proof.
  induction body as [|c r IH]; intros Hbody; simpl.
  - done.
  - apply not_elem_of_cons in Hbody as [Hc Hr].
    destruct (N.eqb_spec c SS.dollar) as [->|_]; [done|].
    by rewrite IH.
Qed.

(** A wrapper that starts at the very first code unit is the one the
    pattern matches. *)
Lemma match_pattern_head (r body post : jstring) :
  Spec.wrapped_at (SS.dollar :: r) [] body post ->
  SS.match_pattern (SS.dollar :: r) = Some body.
Proof.
  intros (Heq & Hne & Hbody). simpl in Heq. inversion Heq as [Hr].
  simpl. rewrite span_body_app by done.
  destruct body; [done|done].
Qed.

Lemma wrapped_at_tail (c : N) (r pre body post : jstring) :
  Spec.wrapped_at (c :: r) (c :: pre) body post <-> Spec.wrapped_at r pre body post.
Proof.
  unfold Spec.wrapped_at. simpl. split.
  - intros (Heq & ? & ?). inversion Heq. done.
  - intros (-> & ? & ?). done.
Qed.

Lemma wrapped_at_pre (c : N) (r pre body post : jstring) :
  Spec.wrapped_at (c :: r) pre body post ->
  (pre = [] /\ c = SS.dollar) \/ exists pre', pre = c :: pre'.
Proof.
  intros (Heq & _ & _). destruct pre as [|c' pre']; simpl in Heq.
  - left. inversion Heq. done.
  - right. inversion Heq. by eexists.
Qed.

(** A match of the pattern is the leftmost wrapped substring. *)
Lemma match_pattern_sound (content body : jstring) :
  SS.match_pattern content = Some body ->
  exists pre post, Spec.first_wrapped content pre body post.
Proof.
  revert body. induction content as [|c r IH]; intros body; simpl; [done|].
  assert (Hrec : SS.match_pattern r = Some body ->
                 (forall b q, ~ Spec.wrapped_at (c :: r) [] b q) ->
                 exists pre post, Spec.first_wrapped (c :: r) pre body post).
  { intros Hm Hhead. destruct (IH _ Hm) as (pre & post & Hw & Hmin).
    exists (c :: pre), post. split; [by apply (proj2 (wrapped_at_tail _ _ _ _ _))|].
    intros pre' body' post' Hw'.
    destruct (wrapped_at_pre _ _ _ _ _ Hw') as [[-> _]|[p ->]].
    - by apply Hhead in Hw'.
    - simpl. apply (proj1 (wrapped_at_tail _ _ _ _ _)) in Hw'.
      apply Hmin in Hw'. lia. }
  destruct (N.eqb_spec c SS.dollar) as [->|Hne].
  - pose proof (span_body_spec r) as Hspan.
    destruct (SS.span_body r) as [b rest] eqn:Hsp.
    destruct Hspan as (Hr & Hb & Hrest).
    assert (Hnohead : (b = [] \/ rest = []) ->
                      forall b' q, ~ Spec.wrapped_at (SS.dollar :: r) [] b' q).
    { intros Hcase b' q Hw. pose proof Hw as (Heq & Hne' & Hb').
      simpl in Heq. inversion Heq as [Hr'].
      rewrite Hr', span_body_app in Hsp by done.
      inversion Hsp; subst. by destruct Hcase. }
    destruct b as [|b0 b]; [intros Hm; apply Hrec; auto|].
    destruct rest as [|r0 rest]; [intros Hm; apply Hrec; auto|].
    intros Hm. inversion Hm; subst body.
    destruct Hrest as [?|[q Hq]]; [done|]. inversion Hq; subst.
    exists [], q. split.
    + split_and!; [done|done|done].
    + intros. simpl. lia.
  - intros Hm. apply Hrec; [done|].
    intros b q Hw. destruct Hw as (Heq & _). simpl in Heq. inversion Heq. done.
Qed.

(** Without a match there is no wrapped substring at all. *)
Lemma match_pattern_none (content : jstring) :
  SS.match_pattern content = None -> Spec.no_wrapper content.
Proof.
  induction content as [|c r IH].
  - intros _ pre body post (Heq & _). by destruct pre.
  - intros Hm pre body post Hw.
    assert (Hr : SS.match_pattern r = None).
    { simpl in Hm. destruct (c =? SS.dollar)%N; [|done].
      destruct (SS.span_body r) as [[|? ?] [|? ?]]; done. }
    destruct (wrapped_at_pre _ _ _ _ _ Hw) as [[-> ->]|[p ->]].
    + apply match_pattern_head in Hw. congruence.
    + apply (proj1 (wrapped_at_tail _ _ _ _ _)) in Hw.
      by apply (IH Hr p body post).
Qed.

Lemma first_wrapped_unique (content pre body post pre' body' post' : jstring) :
  Spec.first_wrapped content pre body post ->
  Spec.first_wrapped content pre' body' post' ->
  body = body'.
Proof.
  intros [Hw Hmin] [Hw' Hmin'].
  assert (Hlen : length pre = length pre').
  { apply Hmin in Hw'. apply Hmin' in Hw. lia. }
  destruct Hw as (Heq & _ & Hb), Hw' as (Heq' & _ & Hb').
  rewrite Heq in Heq'. apply app_inj_1 in Heq' as [_ Heq']; [|done].
  inversion Heq' as [Hrest].
  assert (Hspan : SS.span_body (body ++ SS.dollar :: post) = (body, SS.dollar :: post))
    by by apply span_body_app.
  rewrite Hrest, span_body_app in Hspan by done. by inversion Hspan.
Qed.

Lemma match_pattern_first (content pre body post : jstring) :
  Spec.first_wrapped content pre body post ->
  SS.match_pattern content = Some body.
Proof.
  intros Hfirst. destruct (SS.match_pattern content) as [b|] eqn:Hm.
  - destruct (match_pattern_sound _ _ Hm) as (p & q & Hfirst').
    f_equal. by eapply first_wrapped_unique.
  - apply match_pattern_none in Hm. by destruct (Hm _ _ _ (proj1 Hfirst)).
Qed.

Lemma extractQuery_first (content pre body post : jstring) :
  Spec.first_wrapped content pre body post ->
  SS.extractQueryFromMessage content = trim body.
Proof.
  intros Hfirst. unfold SS.extractQueryFromMessage.
  by rewrite (match_pattern_first _ _ _ _ Hfirst).
Qed.

Lemma extractQuery_verbatim (content : jstring) :
  Spec.no_wrapper content -> SS.extractQueryFromMessage content = content.
Proof.
  intros Hno. unfold SS.extractQueryFromMessage.
  destruct (SS.match_pattern content) as [b|] eqn:Hm; [|done].
  destruct (match_pattern_sound _ _ Hm) as (p & q & Hw & _).
  by destruct (Hno _ _ _ Hw).
Qed.

Lemma contains_trim (s sub : jstring) :
  Spec.contains (trim s) sub -> Spec.contains s sub.
Proof.
  intros (p & q & Heq). destruct (trim_infix s) as (pre & post & Hs).
  exists (pre ++ p), (q ++ post).
  rewrite Hs at 1. rewrite Heq. by rewrite <- !app_assoc.
Qed.

(** What is stored contains only what the wrapped text, or else the whole
    content, contains. *)
Lemma extractQuery_contains (content sub : jstring) :
  Spec.contains (SS.extractQueryFromMessage content) sub ->
  (exists pre body post,
      Spec.first_wrapped content pre body post /\ Spec.contains body sub)
  \/ (Spec.no_wrapper content /\ Spec.contains content sub).
Proof.
  unfold SS.extractQueryFromMessage.
  destruct (SS.match_pattern content) as [b|] eqn:Hm; intros Hsub.
  - left. destruct (match_pattern_sound _ _ Hm) as (p & q & Hfirst).
    exists p, b, q. split; [done|by apply contains_trim].
  - right. split; [by apply match_pattern_none|done].
Qed.

(** A wrapper after a delimiter-free prefix is the first one. *)
Lemma first_wrapped_after (pre body post : jstring) :
  (SS.dollar ∉ pre) -> (SS.dollar ∉ body) -> body <> [] ->
  Spec.first_wrapped (pre ++ SS.dollar :: body ++ SS.dollar :: post) pre body post.
Proof.
  intros Hpre Hbody Hne. split; [done|].
  intros pre' body' post' (Heq & _ & _).
  destruct (Nat.le_gt_cases (length pre) (length pre')) as [|Hlt]; [done|].
  exfalso. apply Hpre.
  apply list_elem_of_lookup. exists (length pre').
  rewrite <- (lookup_app_l pre (SS.dollar :: body ++ SS.dollar :: post)) by done.
  rewrite Heq. rewrite lookup_app_r by lia.
  by rewrite Nat.sub_diag.
Qed.

Lemma context_block_shape (body q : jstring) :
  exists A B : jstring,
    (SS.dollar ∉ A) /\ (SS.dollar ∉ B)
    /\ RAGProcessingService.context_block body q =
       (A ++ body ++ B) ++ SS.dollar :: q ++ [SS.dollar].
Proof.
  exists Spec.block_head, Spec.block_tail.
  split; [by apply (bool_decide_unpack _); vm_compute|].
  split; [by apply (bool_decide_unpack _); vm_compute|].
  unfold RAG.context_block, Spec.block_head, Spec.block_tail.
  rewrite <- !app_assoc. reflexivity.
Qed.

(** The question of a context block whose rendered body is free of the
    delimiter is recovered exactly, up to surrounding white space. *)
Lemma extractQuery_context_block (body q : jstring) :
  (SS.dollar ∉ body) -> (SS.dollar ∉ q) -> q <> [] ->
  SS.extractQueryFromMessage (RAGProcessingService.context_block body q) = trim q.
Proof.
  intros Hbody Hq Hne.
  destruct (context_block_shape body q) as (A & B & HA & HB & ->).
  apply (extractQuery_first _ (A ++ body ++ B) q []).
  apply first_wrapped_after; [|done|done].
  rewrite !not_elem_of_app. auto.
Qed.

Lemma window_last {A} (W : Z) (l : list A) (x : A) :
  0 <= W -> last (Spec.window W (l ++ [x])) = Some x.
Proof.
  intros HW. unfold Spec.window.
  destruct (Z.of_nat (length (l ++ [x])) >? W); [|apply last_snoc].
  destruct (decide (W = 0)) as [->|Hne].
  - rewrite slice_from_zero. apply last_snoc.
  - rewrite slice_from_neg by lia. rewrite length_app. simpl.
    rewrite drop_app_le by lia. apply last_snoc.
Qed.

(** C2 (amended).  A user message is stored as the text between the first
    pair of [$] delimiters that enclose one or more non-[$] characters, with
    leading and trailing white space removed; the example prompt is stored as
    exactly "hello".  Without such a wrapper the content is stored verbatim.
    What is stored contains a context marker only if that first wrapped text
    (or, without a wrapper, the content itself) contains it; for a context
    block whose rendered body and question hold no [$], the stored text is
    the trimmed question. *)
Theorem user_message_redaction :
  (forall (clock : nat -> Z) (st : SS.Store) (sid content : jstring),
      Spec.store_wf st -> 0 <= SS.maxMessages st ->
      last (SS.getMessages sid
              (SS.addMessage clock sid (SS.mkMessage SS.HumanMessage content) st))
      = Some (SS.mkMessage SS.HumanMessage (SS.extractQueryFromMessage content)))
  /\ (forall content pre body post : jstring,
        Spec.first_wrapped content pre body post ->
        SS.extractQueryFromMessage content = trim body)
  /\ (forall content : jstring,
        Spec.no_wrapper content -> SS.extractQueryFromMessage content = content)
  /\ SS.extractQueryFromMessage Samples.example_prompt = js "hello"
  /\ (forall content marker : jstring,
        Spec.contains (SS.extractQueryFromMessage content) marker ->
        (exists pre body post,
            Spec.first_wrapped content pre body post /\ Spec.contains body marker)
        \/ (Spec.no_wrapper content /\ Spec.contains content marker))
  /\ (forall body q : jstring,
        (SS.dollar ∉ body) -> (SS.dollar ∉ q) -> q <> [] ->
        SS.extractQueryFromMessage (RAGProcessingService.context_block body q)
        = trim q).
Proof.
  split_and!.
  - intros clock st sid content Hwf HW.
    destruct (addMessage_spec clock sid (SS.mkMessage SS.HumanMessage content) st Hwf)
      as (_ & _ & -> & _).
    by apply window_last.
  - exact extractQuery_first.
  - exact extractQuery_verbatim.
  - vm_compute. reflexivity.
  - exact extractQuery_contains.
  - exact extractQuery_context_block.
Qed.

Lemma user_message_redaction_witness :
  last (SS.getMessages (js "s1")
          (SS.addMessage Samples.tick_clock (js "s1")
             (SS.mkMessage SS.HumanMessage Samples.example_prompt)
             SS.sessionStorage))
  = Some (SS.mkMessage SS.HumanMessage
            (SS.extractQueryFromMessage Samples.example_prompt))
  /\ SS.extractQueryFromMessage (js "ask $ what now $ please") = trim (js " what now ")
  /\ SS.extractQueryFromMessage (js "price: $5") = js "price: $5"
  /\ SS.extractQueryFromMessage
       (RAGProcessingService.context_block (js "[1] text") (js "apa itu iklim?"))
     = trim (js "apa itu iklim?")
  /\ ((exists pre body post,
         Spec.first_wrapped (js "x $ab$ y") pre body post
         /\ Spec.contains body (js "a"))
      \/ (Spec.no_wrapper (js "x $ab$ y") /\ Spec.contains (js "x $ab$ y") (js "a"))).
Proof.
  destruct user_message_redaction as (Hstore & Hfirst & Hverb & _ & Hmark & Hblock).
  split_and!; [| | | |apply Hmark; exists [], (js "b"); vm_compute; reflexivity].
  - apply Hstore; [apply new_wf|vm_compute; discriminate].
  - apply (Hfirst _ (js "ask ") (js " what now ") (js " please")).
    apply (first_wrapped_after (js "ask ") (js " what now ") (js " please"));
      [by apply (bool_decide_unpack _); vm_compute
      |by apply (bool_decide_unpack _); vm_compute
      |discriminate].
  - apply Hverb. apply match_pattern_none. vm_compute. reflexivity.
  - apply Hblock;
      [by apply (bool_decide_unpack _); vm_compute
      |by apply (bool_decide_unpack _); vm_compute
      |discriminate].
Defined.

Lemma str_includes_contains (s sub : jstring) :
  Spec.str_includes s sub = true <-> Spec.contains s sub.
Proof.
  split.
  - induction s as [|c r IH]; simpl; intros Hinc.
    + rewrite orb_false_r in Hinc. apply bool_decide_eq_true in Hinc as [k Hk].
      exists [], k. done.
    + apply orb_true_iff in Hinc as [Hpre|Hrec].
      * apply bool_decide_eq_true in Hpre as [k Hk]. exists [], k. done.
      * destruct (IH Hrec) as (p & q & ->). by exists (c :: p), q.
  - intros (p & q & ->). induction p as [|c p IH].
    + assert (Hhead : forall t, sub `prefix_of` t -> Spec.str_includes t sub = true).
      { intros t Ht. destruct t; simpl; by rewrite bool_decide_eq_true_2. }
      apply Hhead. by exists q.
    + simpl. rewrite IH. apply orb_true_r.
Qed.

(** C2, as stated, fails: a context block whose rendered fragment holds a
    [$] is stored as the text from that [$] to the next one, which runs
    across the end marker. *)
Lemma redaction_keeps_marker_counterexample :
  let st := SS.addMessage Samples.tick_clock (js "s1")
              (SS.mkMessage SS.HumanMessage Samples.leaky_prompt)
              SS.sessionStorage in
  exists text,
    SS.getMessages (js "s1") st = [SS.mkMessage SS.HumanMessage text]
    /\ Spec.contains text Spec.endMarker
    /\ text <> js "hello".
Proof.
  eexists. split; [vm_compute; reflexivity|].
  split; [apply str_includes_contains; vm_compute; reflexivity|discriminate].
Qed.

(** ** The maintenance sweeps *)

Section Sweeps.
Variable clock : nat -> Z.

(** The session test of a sweep. *)
Variable P : jstring -> SS.Session -> bool.

Local Abbreviation sweep_step := (Spec.sweep_step clock P).
Local Abbreviation swept := (Spec.swept P).
Local Abbreviation cleared := (Spec.cleared clock).

Lemma sweep_step_spec (st : SS.Store) (count : Z) (k : jstring) :
  Spec.store_wf st ->
  let '(st', count') := sweep_step (st, count) k in
  Spec.store_wf st'
  /\ JSMap.keys (SS.sessions st') = JSMap.keys (SS.sessions st)
  /\ SS.maxMessages st' = SS.maxMessages st
  /\ (SS.ticks st <= SS.ticks st')%nat
  /\ (forall k', k' <> k ->
        JSMap.get k' (SS.sessions st') = JSMap.get k' (SS.sessions st))
  /\ (forall s, JSMap.get k (SS.sessions st) = Some s ->
        if P k s
        then (SS.ticks st < SS.ticks st')%nat
             /\ JSMap.get k (SS.sessions st') = Some (cleared (SS.ticks st) s)
        else JSMap.get k (SS.sessions st') = Some s)
  /\ count' = count + (if swept st k then 1 else 0).
Proof.
  intros Hwf. unfold Spec.sweep_step, Spec.swept, SS.getSession. simpl.
  destruct (JSMap.get k (SS.sessions st)) as [s|] eqn:Hget; simpl.
  2:{ split_and!; try done. lia. }
  unfold Spec.sweep_body. simpl.
  destruct (P k s) eqn:HP; simpl.
  2:{ split_and!; try done; [|lia].
      intros s' Hs'. inversion Hs'; subst. by rewrite HP. }
  assert (Hid : SS.id s = k) by by apply (proj2 Hwf).
  split_and!.
  - by apply saveSession_wf.
  - rewrite saveSession_sessions. simpl.
    apply keys_set_present. rewrite Hid. by eapply get_Some_keys.
  - by rewrite saveSession_maxMessages.
  - pose proof (saveSession_ticks clock (SS.set_messages [] s) st). lia.
  - intros k' Hne. rewrite saveSession_sessions. simpl.
    apply get_set_ne. congruence.
  - intros s' Hs'. inversion Hs'; subst s'. rewrite HP. split.
    + apply saveSession_ticks.
    + rewrite saveSession_sessions. simpl. rewrite Hid. apply get_set_eq.
  - done.
Qed.

Lemma swept_ext (st st' : SS.Store) (ks : list jstring) :
  (forall k, k ∈ ks ->
     JSMap.get k (SS.sessions st') = JSMap.get k (SS.sessions st)) ->
  List.filter (swept st') ks = List.filter (swept st) ks.
Proof.
  induction ks as [|k ks IH]; intros Hext; simpl; [done|].
  rewrite IH by (intros; apply Hext; by apply list_elem_of_further).
  unfold Spec.swept at 1 3. rewrite Hext by apply list_elem_of_here. done.
Qed.

(** The loop over any duplicate-free list of keys. *)
Lemma sweep_fold_spec (ks : list jstring) :
  forall (st : SS.Store) (count : Z),
    Spec.store_wf st -> NoDup ks ->
    let '(st', count') := fold_left sweep_step ks (st, count) in
    Spec.store_wf st'
    /\ JSMap.keys (SS.sessions st') = JSMap.keys (SS.sessions st)
    /\ SS.maxMessages st' = SS.maxMessages st
    /\ (SS.ticks st <= SS.ticks st')%nat
    /\ (forall k, k ∉ ks ->
          JSMap.get k (SS.sessions st') = JSMap.get k (SS.sessions st))
    /\ (forall k s, k ∈ ks -> JSMap.get k (SS.sessions st) = Some s ->
          if P k s
          then exists t, (SS.ticks st <= t < SS.ticks st')%nat
                         /\ JSMap.get k (SS.sessions st') = Some (cleared t s)
          else JSMap.get k (SS.sessions st') = Some s)
    /\ count' = count + Z.of_nat (length (List.filter (swept st) ks)).
Proof.
  induction ks as [|k ks IH]; intros st count Hwf Hnd; simpl.
  - split_and!; try done; [|lia].
    intros k s Hin. by apply elem_of_nil in Hin.
  - apply NoDup_cons in Hnd as [Hk Hnd].
    pose proof (sweep_step_spec st count k Hwf) as Hstep.
    destruct (sweep_step (st, count) k) as [st1 count1].
    destruct Hstep as (Hwf1 & Hkeys1 & Hmax1 & Hticks1 & Hother1 & Hk1 & Hcount1).
    specialize (IH st1 count1 Hwf1 Hnd).
    destruct (fold_left sweep_step ks (st1, count1)) as [st' count'].
    destruct IH as (Hwf' & Hkeys' & Hmax' & Hticks' & Hother' & Hin' & Hcount').
    split_and!; [done|congruence|congruence|lia| | |].
    + intros k' Hk'. apply not_elem_of_cons in Hk' as [Hne Hk'].
      rewrite Hother' by done. by apply Hother1.
    + intros k' s Hk' Hget. apply elem_of_cons in Hk' as [->|Hk'].
      * specialize (Hk1 s Hget). rewrite Hother' by done.
        destruct (P k s); [|done].
        destruct Hk1 as [Hlt Hk1]. exists (SS.ticks st). split; [lia|done].
      * assert (Hne : k' <> k) by (intros ->; done).
        rewrite <- Hother1 in Hget by done.
        specialize (Hin' k' s Hk' Hget).
        destruct (P k' s); [|done].
        destruct Hin' as (t & Ht & Hget'). exists t. split; [lia|done].
    + rewrite Hcount', Hcount1.
      rewrite (swept_ext st st1 ks).
      2:{ intros k' Hk'. apply Hother1. intros ->. done. }
      destruct (swept st k); simpl; lia.
Qed.

(** Over a duplicate-free table, counting by key is counting entries. *)
Lemma swept_count (st : SS.Store) :
  NoDup (JSMap.keys (SS.sessions st)) ->
  length (List.filter (swept st) (JSMap.keys (SS.sessions st))) =
  length (List.filter (fun e => P e.1 e.2) (SS.sessions st)).
Proof.
  unfold Spec.swept. generalize (SS.sessions st). clear st.
  intros m. induction m as [|[k s] m IH]; intros Hnd; simpl; [done|].
  apply NoDup_cons in Hnd as [Hk Hnd].
  rewrite decide_True by done.
  assert (Hrest :
    List.filter (fun k0 => match (if decide (k = k0) then Some s else JSMap.get k0 m) with
                           | Some s0 => P k0 s0 | None => false end) (JSMap.keys m)
    = List.filter (fun k0 => match JSMap.get k0 m with
                             | Some s0 => P k0 s0 | None => false end) (JSMap.keys m)).
  { apply List.filter_ext_in. intros k0 Hk0.
    rewrite decide_False; [done|].
    intros ->. apply Hk. by apply list_elem_of_In. }
  rewrite Hrest. destruct (P k s); simpl; by rewrite IH.
Qed.

End Sweeps.

Lemma clearInactiveSessions_unfold (clock : nat -> Z) (T : Z) (st : SS.Store) :
  SS.clearInactiveSessions clock T st =
  let st0 := (SS.new_Date clock st).2 in
  let r := fold_left
             (Spec.sweep_step clock (fun _ s => Spec.inactive (clock (SS.ticks st)) T s))
             (JSMap.keys (SS.sessions st)) (st0, 0) in
  (r.2, r.1).
Proof.
  unfold SS.clearInactiveSessions, SS.for_entries. simpl.
  change (fold_left _ (JSMap.keys (SS.sessions st)) ?a)
    with (fold_left
            (Spec.sweep_step clock (fun _ s => Spec.inactive (clock (SS.ticks st)) T s))
            (JSMap.keys (SS.sessions st)) a).
  by destruct (fold_left _ _ _).
Qed.

(** C9 (amended).  [clearInactiveSessions(thresholdMs)] empties the message
    list of exactly the sessions with [now - lastActive > thresholdMs] and
    returns their number; it keeps every session filed, in the same order.
    A cleared session keeps its identifier and all its metadata (creation
    time, user id, user agent, address, type, custom data) except
    [lastActive], which is set to a clock reading taken during the sweep.
    Sessions that are not inactive are unchanged. *)
Theorem clearInactiveSessions_spec
    (clock : nat -> Z) (T : Z) (st : SS.Store) :
  Spec.store_wf st ->
  let now := clock (SS.ticks st) in
  let count := (SS.clearInactiveSessions clock T st).1 in
  let st' := (SS.clearInactiveSessions clock T st).2 in
  JSMap.keys (SS.sessions st') = JSMap.keys (SS.sessions st)
  /\ (forall k s, JSMap.get k (SS.sessions st) = Some s ->
        exists s',
          JSMap.get k (SS.sessions st') = Some s'
          /\ SS.id s' = SS.id s
          /\ if Spec.inactive now T s
             then SS.messages s' = []
                  /\ Spec.same_but_lastActive (SS.smeta s) (SS.smeta s')
                  /\ exists t, (SS.ticks st < t)%nat
                               /\ SS.lastActive (SS.smeta s') = clock t
             else s' = s)
  /\ count = Z.of_nat (length (List.filter (Spec.inactive now T ∘ snd)
                                           (SS.sessions st))).
Proof.
  intros Hwf now count st'. subst count st'.
  rewrite clearInactiveSessions_unfold. simpl.
  set (P := fun (_ : jstring) s => Spec.inactive now T s).
  set (st0 := SS.mkStore _ _ _ _ _).
  assert (Hwf0 : Spec.store_wf st0) by exact Hwf.
  pose proof (sweep_fold_spec clock P (JSMap.keys (SS.sessions st)) st0 0
                Hwf0 (proj1 Hwf)) as Hloop.
  destruct (fold_left _ _ _) as [st' count']. simpl.
  destruct Hloop as (_ & Hkeys & _ & _ & _ & Hin & Hcount).
  split_and!.
  - exact Hkeys.
  - intros k s Hget.
    specialize (Hin k s (get_Some_keys _ _ _ Hget) Hget).
    unfold P in Hin. destruct (Spec.inactive now T s).
    + destruct Hin as (t & Ht & Hget'). eexists. split; [exact Hget'|].
      simpl. split_and!; try done.
      exists t. simpl in Ht. split; [lia|done].
    + exists s. done.
  - rewrite Hcount, Z.add_0_l. f_equal.
    exact (swept_count P st0 (proj1 Hwf)).
Qed.

Lemma clearInactiveSessions_spec_witness :
  let st := Samples.idle_store in
  let st' := (SS.clearInactiveSessions Samples.late_clock 20000 st).2 in
  JSMap.keys (SS.sessions st') = JSMap.keys (SS.sessions st)
  /\ (SS.clearInactiveSessions Samples.late_clock 20000 st).1 = 1
  /\ exists s',
       JSMap.get (js "s1") (SS.sessions st') = Some s'
       /\ SS.id s' = js "s1"
       /\ SS.messages s' = []
       /\ SS.createdAt (SS.smeta s') = 0
       /\ SS.userId (SS.smeta s') = None.
Proof.
  assert (Hwf : Spec.store_wf Samples.idle_store).
  { apply addMessage_spec, new_wf. }
  destruct (clearInactiveSessions_spec Samples.late_clock 20000
              Samples.idle_store Hwf) as (Hkeys & Hall & Hcount).
  split; [exact Hkeys|]. split; [rewrite Hcount; vm_compute; reflexivity|].
  destruct (Hall (js "s1")
              (SS.mkSession (js "s1") [Samples.human "halo"]
                 (SS.mkMetadata None 0 2 None None SS.general [])))
    as (s' & Hget & Hid & Hcleared); [vm_compute; reflexivity|].
  change (Spec.inactive _ _ _) with true in Hcleared.
  destruct Hcleared as (Hmsgs & (Huser & Hcreated & _) & _).
  exists s'. split_and!; [exact Hget|exact Hid|exact Hmsgs|exact Hcreated|exact Huser].
Defined.

(** C9, as stated, fails: the sweep does change the metadata of a session it
    clears, because saving the session refreshes [lastActive]. *)
Lemma clearInactiveSessions_metadata_counterexample :
  let st := Samples.idle_store in
  let st' := (SS.clearInactiveSessions Samples.late_clock 20000 st).2 in
  SS.getMessages (js "s1") st = [Samples.human "halo"]
  /\ SS.getMessages (js "s1") st' = []
  /\ SS.lastActive <$> SS.getMetadata (js "s1") st = Some 2
  /\ SS.lastActive <$> SS.getMetadata (js "s1") st' = Some 60004
  /\ SS.getMetadata (js "s1") st' <> SS.getMetadata (js "s1") st.
Proof.
  vm_compute. split_and!; try reflexivity. discriminate.
Qed.

(** ** Every reachable store is well formed *)

Section DeleteFacts.
Context {V : Type}.
Implicit Types (m : JSMap.t V) (k : jstring) (v : V).

Lemma keys_delete_subset k k' m :
  k' ∈ JSMap.keys (JSMap.delete k m) -> k' ∈ JSMap.keys m.
Proof.
  induction m as [|[k0 v0] m IH]; simpl; [done|].
  destruct (decide (k0 = k)) as [->|Hne]; simpl.
  - apply list_elem_of_further.
  - intros Hin. apply elem_of_cons in Hin as [->|Hin].
    + apply list_elem_of_here.
    + apply list_elem_of_further, IH, Hin.
Qed.

Lemma keys_delete_NoDup k m :
  NoDup (JSMap.keys m) -> NoDup (JSMap.keys (JSMap.delete k m)).
Proof.
  induction m as [|[k0 v0] m IH]; simpl; [done|].
  intros Hnd. apply NoDup_cons in Hnd as [Hk0 Hnd].
  destruct (decide (k0 = k)) as [->|Hne]; simpl; [done|].
  apply NoDup_cons. split; [|by apply IH].
  intros Hin. by apply Hk0, (keys_delete_subset k).
Qed.

Lemma get_delete_Some k k' v m :
  NoDup (JSMap.keys m) ->
  JSMap.get k' (JSMap.delete k m) = Some v -> JSMap.get k' m = Some v.
Proof.
  induction m as [|[k0 v0] m IH]; simpl; [done|].
  intros Hnd. apply NoDup_cons in Hnd as [Hk0 Hnd].
  destruct (decide (k0 = k)) as [->|Hne]; simpl.
  - intros Hget. destruct (decide (k = k')) as [->|_]; [|done].
    exfalso. by apply Hk0, (get_Some_keys _ v).
  - destruct (decide (k0 = k')); [done|by apply IH].
Qed.

End DeleteFacts.

Section ReachableFacts.
Variable clock : nat -> Z.
Implicit Types (st : SS.Store) (sid : jstring).

Lemma getOrCreateClientConnection_sessions ip ua st :
  SS.sessions (SS.getOrCreateClientConnection clock ip ua st).2 = SS.sessions st.
Proof.
  unfold SS.getOrCreateClientConnection.
  fold (Spec.connection_key ip ua).
  generalize (Spec.connection_key ip ua)
    (SS.createSimpleHash (or_default (Some ip) (js "unknown")))
    (SS.createSimpleHash (or_default ua (js "unknown"))).
  intros fp h1 h2.
  destruct (SS.clientConnections st !! fp) as [conn|] eqn:Hfp.
  - by rewrite Hfp.
  - cbn. by rewrite lookup_insert_eq.
Qed.

Lemma associateSessionWithClientConnection_sessions sid ip ua st :
  SS.sessions (SS.associateSessionWithClientConnection clock sid ip ua st)
  = SS.sessions st.
Proof.
  unfold SS.associateSessionWithClientConnection.
  pose proof (getOrCreateClientConnection_sessions ip ua st) as Hframe.
  destruct (SS.getOrCreateClientConnection clock ip ua st) as [conn st1].
  simpl in Hframe. by destruct (SS.includes sid (SS.conn_sessionIds conn)).
Qed.

Lemma wf_sessions st st' :
  SS.sessions st' = SS.sessions st -> Spec.store_wf st -> Spec.store_wf st'.
Proof. unfold Spec.store_wf. by intros ->. Qed.

Lemma set_own_key_wf st (s : SS.Session) :
  Spec.store_wf st ->
  Spec.store_wf (SS.with_sessions (JSMap.set (SS.id s) s (SS.sessions st)) st).
Proof.
  intros [Hnd Hid]. split; simpl.
  - by apply keys_set_NoDup.
  - intros k s' Hget. destruct (decide (SS.id s = k)) as [<-|Hne].
    + rewrite get_set_eq in Hget. by inversion Hget.
    + rewrite get_set_ne in Hget by done. by apply Hid.
Qed.

Lemma createSession_wf sid u extra st :
  Spec.store_wf st -> Spec.store_wf (SS.createSession clock sid u extra st).2.
Proof.
  intros Hwf. unfold SS.createSession. simpl.
  set (s := SS.mkSession sid [] _).
  assert (Hset : Spec.store_wf
            (SS.with_sessions (JSMap.set sid s (SS.sessions st))
               (SS.mkStore (SS.sessions st) (SS.userSessions st)
                  (SS.clientConnections st) (SS.maxMessages st)
                  (S (S (SS.ticks st)))))).
  { exact (set_own_key_wf
             (SS.mkStore (SS.sessions st) (SS.userSessions st)
                (SS.clientConnections st) (SS.maxMessages st)
                (S (S (SS.ticks st)))) s Hwf). }
  destruct u as [u|]; [|exact Hset].
  destruct (truthy u); [|exact Hset].
  eapply wf_sessions; [|exact Hset].
  apply associateSessionWithUser_frame.
Qed.

Lemma updateMetadata_wf sid partial st :
  Spec.store_wf st -> Spec.store_wf (SS.updateMetadata clock sid partial st).
Proof.
  intros Hwf. unfold SS.updateMetadata.
  destruct (SS.getSession sid st) as [s|]; [|done]. simpl.
  match goal with
  | |- Spec.store_wf (if _ then SS.associateSessionWithClientConnection _ _ _ _ ?st1
                      else _) =>
      assert (Hsaved : Spec.store_wf st1) by (apply saveSession_wf; exact Hwf)
  end.
  destruct (_ || _); [|exact Hsaved].
  eapply wf_sessions; [|exact Hsaved].
  apply associateSessionWithClientConnection_sessions.
Qed.

Lemma clearSessionMessages_wf sid st :
  Spec.store_wf st -> Spec.store_wf (SS.clearSessionMessages clock sid st).
Proof.
  intros Hwf. unfold SS.clearSessionMessages.
  destruct (SS.getSession sid st); [by apply saveSession_wf|done].
Qed.

Lemma clearSessionMessagesByPattern_unfold (pattern : jstring) st :
  SS.clearSessionMessagesByPattern clock pattern st =
  let r := fold_left
             (Spec.sweep_step clock (fun k _ => SS.startsWith k pattern))
             (JSMap.keys (SS.sessions st)) (st, 0) in
  (r.2, r.1).
Proof.
  unfold SS.clearSessionMessagesByPattern, SS.for_entries. simpl.
  change (fold_left _ (JSMap.keys (SS.sessions st)) ?a)
    with (fold_left
            (Spec.sweep_step clock (fun k _ => SS.startsWith k pattern))
            (JSMap.keys (SS.sessions st)) a).
  by destruct (fold_left _ _ _).
Qed.

(** The prefix sweep clears the sessions whose identifier starts with the
    pattern and leaves every other session as it is. *)
Lemma clearSessionMessagesByPattern_spec (pattern : jstring) st :
  Spec.store_wf st ->
  let st' := (SS.clearSessionMessagesByPattern clock pattern st).2 in
  JSMap.keys (SS.sessions st') = JSMap.keys (SS.sessions st)
  /\ forall k s, JSMap.get k (SS.sessions st) = Some s ->
       if SS.startsWith k pattern
       then exists t, (SS.ticks st <= t)%nat
                      /\ JSMap.get k (SS.sessions st') = Some (Spec.cleared clock t s)
       else JSMap.get k (SS.sessions st') = Some s.
Proof.
  intros Hwf. rewrite clearSessionMessagesByPattern_unfold. simpl.
  pose proof (sweep_fold_spec clock (fun k _ => SS.startsWith k pattern)
                (JSMap.keys (SS.sessions st)) st 0 Hwf (proj1 Hwf)) as Hloop.
  destruct (fold_left _ _ _) as [st' count']. simpl.
  destruct Hloop as (_ & Hkeys & _ & _ & _ & Hin & _).
  split; [done|]. intros k s Hget.
  specialize (Hin k s (get_Some_keys _ _ _ Hget) Hget). simpl in Hin.
  destruct (SS.startsWith k pattern); [|done].
  destruct Hin as (t & Ht & Hget'). exists t. split; [lia|done].
Qed.

Lemma clearSessionMessagesByPattern_wf (pattern : jstring) st :
  Spec.store_wf st ->
  Spec.store_wf (SS.clearSessionMessagesByPattern clock pattern st).2.
Proof.
  intros Hwf. rewrite clearSessionMessagesByPattern_unfold. simpl.
  pose proof (sweep_fold_spec clock (fun k _ => SS.startsWith k pattern)
                (JSMap.keys (SS.sessions st)) st 0 Hwf (proj1 Hwf)) as Hloop.
  destruct (fold_left _ _ _) as [st' count']. simpl. apply Hloop.
Qed.

Lemma clearInactiveSessions_wf (T : Z) st :
  Spec.store_wf st -> Spec.store_wf (SS.clearInactiveSessions clock T st).2.
Proof.
  intros Hwf. rewrite clearInactiveSessions_unfold. simpl.
  set (P := fun (_ : jstring) s => Spec.inactive (clock (SS.ticks st)) T s).
  set (st0 := SS.mkStore _ _ _ _ _).
  pose proof (sweep_fold_spec clock P (JSMap.keys (SS.sessions st)) st0 0
                Hwf (proj1 Hwf)) as Hloop.
  destruct (fold_left _ _ _) as [st' count']. simpl. apply Hloop.
Qed.

Lemma clearSession_wf sid st :
  Spec.store_wf st -> Spec.store_wf (SS.clearSession sid st).
Proof.
  intros [Hnd Hid]. unfold SS.clearSession.
  set (st1 := match SS.getSession sid st with Some _ => _ | None => _ end).
  assert (Hsame : SS.sessions st1 = SS.sessions st).
  { unfold st1. destruct (SS.getSession sid st) as [s|]; [|done].
    destruct (SS.userId (SS.smeta s)) as [u|]; [|done].
    destruct (truthy u); [|done].
    destruct (SS.userSessions st !! u) as [ud|]; [|done].
    by destruct (length _ =? 0)%nat. }
  split; simpl; rewrite Hsame.
  - by apply keys_delete_NoDup.
  - intros k s Hget. apply Hid. by eapply get_delete_Some.
Qed.

Lemma perform_wf st (op : Spec.operation) :
  Spec.store_wf st -> Spec.store_wf (Spec.perform clock st op).
Proof.
  intros Hwf. destruct op; simpl.
  - by apply createSession_wf.
  - by apply saveSession_wf.
  - by apply addMessage_spec.
  - by apply updateMetadata_wf.
  - by apply clearSessionMessages_wf.
  - by apply clearSessionMessagesByPattern_wf.
  - by apply clearInactiveSessions_wf.
  - by apply clearSession_wf.
  - split; simpl; [apply NoDup_nil_2|done].
  - eapply wf_sessions; [apply getOrCreateClientConnection_sessions|done].
  - eapply wf_sessions; [apply associateSessionWithClientConnection_sessions|done].
Qed.

(** The hypothesis of the store lemmas holds of every store a program can
    hold. *)
Lemma reachable_wf (W : Z) st : Spec.reachable clock W st -> Spec.store_wf st.
Proof.
  intros [ops ->]. induction ops as [|op ops IH] using rev_ind.
  - apply new_wf.
  - rewrite fold_left_app. simpl. by apply perform_wf.
Qed.

End ReachableFacts.

(** ** Overlap detection and merging *)

Section MergeFacts.
Variable toLowerCase : jstring -> jstring.

Lemma overlap_loop_spec (t1 t2 : jstring) (n : nat) :
  exists L : nat,
    RAG.overlap_loop toLowerCase t1 t2 n = Z.of_nat L
    /\ (L <= n)%nat
    /\ ((0 < L)%nat -> Spec.overlaps toLowerCase t1 t2 L)
    /\ forall l, (L < l <= n)%nat -> ~ Spec.overlaps toLowerCase t1 t2 l.
Proof.
  induction n as [|n IH].
  - exists O. simpl. split_and!; [done|done|lia|lia].
  - cbn [RAG.overlap_loop].
    rewrite slice_from_neg by lia. rewrite slice_0_nonneg by lia.
    rewrite Nat2Z.id.
    destruct (decide (toLowerCase (drop (length t1 - S n) t1)
                      = toLowerCase (take (S n) t2))) as [Heq|Hne].
    + rewrite bool_decide_eq_true_2 by done.
      exists (S n). split_and!; [done|done|done|lia].
    + rewrite bool_decide_eq_false_2 by done.
      destruct IH as (L & HL & Hle & Hmatch & Hmax).
      exists L. split_and!; [done|lia|done|].
      intros l Hl. destruct (decide (l = S n)) as [->|Hln]; [done|].
      apply Hmax. lia.
Qed.

(** [findOverlap] returns the greatest overlap length of the trimmed
    texts, or [0] when no length from 1 up overlaps. *)
Lemma findOverlap_spec (text1 text2 : jstring) :
  let t1 := trim text1 in
  let t2 := trim text2 in
  exists L : nat,
    RAG.findOverlap toLowerCase text1 text2 = Z.of_nat L
    /\ (L <= Nat.min (length t1) (length t2))%nat
    /\ ((0 < L)%nat -> Spec.overlaps toLowerCase t1 t2 L)
    /\ forall l, (L < l <= Nat.min (length t1) (length t2))%nat ->
                 ~ Spec.overlaps toLowerCase t1 t2 l.
Proof. apply overlap_loop_spec. Qed.

Lemma mergeChunks_spec (chunk1 chunk2 : jstring) :
  let t1 := trim chunk1 in
  let t2 := trim chunk2 in
  exists L : nat,
    RAG.findOverlap toLowerCase chunk1 chunk2 = Z.of_nat L
    /\ (L <= Nat.min (length t1) (length t2))%nat
    /\ ((0 < L)%nat -> Spec.overlaps toLowerCase t1 t2 L)
    /\ (forall l, (L < l <= Nat.min (length t1) (length t2))%nat ->
                  ~ Spec.overlaps toLowerCase t1 t2 l)
    /\ RAG.mergeChunks toLowerCase chunk1 chunk2 =
       if (0 <? L)%nat then take (length t1 - L) t1 ++ chunk2
       else t1 ++ js " " ++ chunk2.
Proof.
  intros t1 t2.
  destruct (findOverlap_spec chunk1 chunk2) as (L & HL & Hle & Hmatch & Hmax).
  exists L. split_and!; try done.
  unfold RAG.mergeChunks. rewrite HL.
  destruct L as [|L].
  - done.
  - replace (Z.of_nat (S L) >? 0) with true by (symmetry; apply Z.gtb_lt; lia).
    rewrite slice_0_neg by lia. by rewrite Nat2Z.id.
Qed.

Lemma mergeChunks_length (chunk1 chunk2 : jstring) :
  (Nat.max (length (trim chunk1)) (length chunk2)
   <= length (RAG.mergeChunks toLowerCase chunk1 chunk2))%nat.
Proof.
  destruct (mergeChunks_spec chunk1 chunk2) as (L & _ & Hle & _ & _ & ->).
  pose proof (trim_length chunk2).
  destruct (0 <? L)%nat.
  - rewrite length_app, length_take. lia.
  - rewrite !length_app. lia.
Qed.

End MergeFacts.

(** C3 (amended).  The merge works on the trimmed texts: with [A'] and [B']
    the two texts with surrounding white space removed, it finds the greatest
    length [L], between 1 and [min(len A', len B')], at which the last [L]
    characters of [A'] equal the first [L] characters of [B'] up to case
    ([L = 0] if there is none).  If [L > 0] the result is [A'] without its
    last [L] characters followed by [B] as given, otherwise [A'], one space
    and [B].  Merging "the quick brown" with "brown fox jumps" gives
    "the quick brown fox jumps"; merging "abc" with "xyz" gives "abc xyz". *)
Theorem mergeChunks_longest_overlap :
  (forall (toLowerCase : jstring -> jstring) (A B : jstring),
      let A' := trim A in
      let B' := trim B in
      exists L : nat,
        RAG.findOverlap toLowerCase A B = Z.of_nat L
        /\ (L <= Nat.min (length A') (length B'))%nat
        /\ ((0 < L)%nat -> Spec.overlaps toLowerCase A' B' L)
        /\ (forall l, (L < l <= Nat.min (length A') (length B'))%nat ->
                      ~ Spec.overlaps toLowerCase A' B' l)
        /\ RAG.mergeChunks toLowerCase A B =
           if (0 <? L)%nat then take (length A' - L) A' ++ B
           else A' ++ js " " ++ B)
  /\ RAG.mergeChunks Samples.toLowerCase (js "the quick brown") (js "brown fox jumps")
     = js "the quick brown fox jumps"
  /\ RAG.findOverlap Samples.toLowerCase (js "the quick brown") (js "brown fox jumps")
     = 5
  /\ RAG.mergeChunks Samples.toLowerCase (js "abc") (js "xyz") = js "abc xyz".
Proof.
  split_and!.
  - intros toLowerCase A B. apply mergeChunks_spec.
  - vm_compute. reflexivity.
  - vm_compute. reflexivity.
  - vm_compute. reflexivity.
Qed.

Lemma mergeChunks_longest_overlap_witness :
  RAG.findOverlap Samples.toLowerCase (js "Pasal 1 AYAT ") (js " ayat (2)") = 4
  /\ Spec.overlaps Samples.toLowerCase (js "Pasal 1 AYAT") (js "ayat (2)") 4
  /\ ~ Spec.overlaps Samples.toLowerCase (js "Pasal 1 AYAT") (js "ayat (2)") 5
  /\ RAG.mergeChunks Samples.toLowerCase (js "Pasal 1 AYAT ") (js " ayat (2)")
     = js "Pasal 1  ayat (2)".
Proof.
  destruct (proj1 mergeChunks_longest_overlap Samples.toLowerCase
              (js "Pasal 1 AYAT ") (js " ayat (2)"))
    as (L & HL & Hle & Hmatch & Hmax & Hmerge).
  assert (HL4 : L = 4%nat).
  { apply Nat2Z.inj. rewrite <- HL. vm_compute. reflexivity. }
  subst L. split; [exact HL|]. split; [|split].
  - apply Hmatch. apply Nat.ltb_lt. reflexivity.
  - apply (Hmax 5%nat). split; apply Nat.leb_le; vm_compute; reflexivity.
  - rewrite Hmerge. vm_compute. reflexivity.
Defined.

(** C3, as stated, fails: the overlap is sought after trimming, so white
    space at the end of the first text does not prevent a match. *)
Lemma mergeChunks_as_stated_counterexample :
  RAG.mergeChunks Samples.toLowerCase (js "ab ") (js "b") = js "ab"
  /\ Spec.mergeChunks_as_stated Samples.toLowerCase (js "ab ") (js "b") = js "ab b"
  /\ RAG.mergeChunks Samples.toLowerCase (js "ab ") (js "b")
     <> Spec.mergeChunks_as_stated Samples.toLowerCase (js "ab ") (js "b").
Proof. vm_compute. split_and!; [reflexivity|reflexivity|discriminate]. Qed.

(** C8 (amended).  The result of a merge is the trimmed first text, less the
    detected overlap at its end, followed by the whole second text (with one
    space in between when there is no overlap): nothing of the trimmed first
    text outside the overlap and nothing of the second text is dropped, and
    the result is never shorter than the longer of the trimmed first text
    and the second text. *)
Theorem mergeChunks_keeps_text
    (toLowerCase : jstring -> jstring) (A B : jstring) :
  let A' := trim A in
  let L := Z.to_nat (RAG.findOverlap toLowerCase A B) in
  (L <= length A')%nat
  /\ (L <= length (trim B))%nat
  /\ RAG.mergeChunks toLowerCase A B =
     (if (0 <? L)%nat then take (length A' - L) A' else A' ++ js " ") ++ B
  /\ (Nat.max (length A') (length B)
      <= length (RAG.mergeChunks toLowerCase A B))%nat.
Proof.
  intros A' L.
  destruct (mergeChunks_spec toLowerCase A B) as (L' & HL & Hle & _ & _ & Hmerge).
  assert (L = L') as -> by (unfold L; rewrite HL; apply Nat2Z.id).
  split_and!; [fold A' in Hle; lia|lia| |apply mergeChunks_length].
  rewrite Hmerge. fold A'. destruct (0 <? L')%nat; [done|].
  by rewrite <- app_assoc.
Qed.

(** C8, as stated, fails: white space around the first text is dropped, and
    the result can be shorter than the first text. *)
Lemma mergeChunks_shorter_counterexample :
  RAG.mergeChunks Samples.toLowerCase (js "a  ") (js "a") = js "a"
  /\ (length (RAG.mergeChunks Samples.toLowerCase (js "a  ") (js "a"))
      < Nat.max (length (js "a  ")) (length (js "a")))%nat.
Proof. vm_compute. split; [reflexivity|lia]. Qed.

(** ** The routing agent *)

Section RouterFacts.
Context `{Numbers}.
Variable JSON_parse : jstring -> option json.
Variable createLLM : ChatService.ChatConfig -> outcome ChatService.LLM.
Variable routingSystemPrompt : jstring.

(** The client was built: [createLLM(routingConfig)] returned [invoke]. *)
Variable invoke : ChatService.LLM.
Hypothesis created : createLLM ChatService.routingConfig = Return invoke.

Local Abbreviation route_messages := (Spec.route_messages routingSystemPrompt).

Lemma try_catch_returns {A} (body : outcome A) (a : A) :
  exists r, try_catch body (fun _ => Return a) = Return r.
Proof. destruct body; simpl; by eexists. Qed.

Lemma routeQuery_returns message history :
  exists r,
    ChatService.routeQuery JSON_parse createLLM routingSystemPrompt message history
    = Return r.
Proof.
  unfold ChatService.routeQuery. rewrite created. apply try_catch_returns.
Qed.

Lemma routeQuery_invalid_json message history response :
  invoke (route_messages message history) = Return response ->
  JSON_parse (ChatService.jsonString (trim response)) = None ->
  ChatService.routeQuery JSON_parse createLLM routingSystemPrompt message history
  = Return ChatService.no_rag.
Proof.
  intros Hinvoke Hparse. unfold ChatService.routeQuery. rewrite created.
  cbn [mbind outcome_bind bind].
  fold (route_messages message history). rewrite Hinvoke. cbn.
  unfold ChatService.parse. by rewrite Hparse.
Qed.

Lemma routeQuery_model_error message history e :
  invoke (route_messages message history) = Throw e ->
  ChatService.routeQuery JSON_parse createLLM routingSystemPrompt message history
  = Return ChatService.no_rag.
Proof.
  intros Hinvoke. unfold ChatService.routeQuery. rewrite created.
  cbn [mbind outcome_bind bind].
  fold (route_messages message history). by rewrite Hinvoke.
Qed.

End RouterFacts.

(** C7.  Once its model client is built, [routeQuery] never throws: whatever
    the model answers or throws, it returns a result.  When the model's
    answer, with code fences removed, is not valid JSON, the result is
    [{action: "no_rag"}]; the same holds when the model call itself fails. *)
Theorem routeQuery_fail_safe :
  forall `{Numbers} (JSON_parse : jstring -> option json)
         (createLLM : ChatService.ChatConfig -> outcome ChatService.LLM)
         (invoke : ChatService.LLM)
         (routingSystemPrompt message : jstring)
         (history : option (list SS.BaseMessage)),
    createLLM ChatService.routingConfig = Return invoke ->
    (exists r,
        ChatService.routeQuery JSON_parse createLLM routingSystemPrompt message history
        = Return r)
    /\ (forall response,
          invoke (Spec.route_messages routingSystemPrompt message history)
          = Return response ->
          JSON_parse (ChatService.jsonString (trim response)) = None ->
          ChatService.routeQuery JSON_parse createLLM routingSystemPrompt message history
          = Return ChatService.no_rag)
    /\ (forall e,
          invoke (Spec.route_messages routingSystemPrompt message history) = Throw e ->
          ChatService.routeQuery JSON_parse createLLM routingSystemPrompt message history
          = Return ChatService.no_rag).
Proof.
  intros Hnum JSON_parse createLLM invoke prompt message history Hcreated.
  split_and!.
  - by eapply routeQuery_returns.
  - by eapply routeQuery_invalid_json.
  - by eapply routeQuery_model_error.
Qed.

Lemma routeQuery_fail_safe_witness :
  Samples.JSON_parse
    (ChatService.jsonString
       (trim (js "This question needs the regulation database."))) = None
  /\ ChatService.routeQuery Samples.JSON_parse
       (fun _ => Return Samples.invoke_prose)
       (js "Tugas: Klasifikasikan") (js "apa itu perubahan iklim?") None
     = Return ChatService.no_rag
  /\ ChatService.routeQuery Samples.JSON_parse
       (fun _ => Return Samples.invoke_down)
       (js "Tugas: Klasifikasikan") (js "apa itu perubahan iklim?") None
     = Return ChatService.no_rag.
Proof.
  split; [vm_compute; reflexivity|]. split.
  - apply (proj1 (proj2 (routeQuery_fail_safe Samples.JSON_parse
                           (fun _ => Return Samples.invoke_prose)
                           Samples.invoke_prose
                           (js "Tugas: Klasifikasikan")
                           (js "apa itu perubahan iklim?") None eq_refl))
             (js "This question needs the regulation database.")).
    + reflexivity.
    + vm_compute. reflexivity.
  - apply (proj2 (proj2 (routeQuery_fail_safe Samples.JSON_parse
                           (fun _ => Return Samples.invoke_down)
                           Samples.invoke_down
                           (js "Tugas: Klasifikasikan")
                           (js "apa itu perubahan iklim?") None eq_refl))
             (OtherError (js "503 Service Unavailable"))).
    reflexivity.
Defined.

(** A fenced JSON answer is unwrapped and read; a valid answer that is the
    value [null] makes the property access fail, which is caught as well. *)
Example routeQuery_fenced :
  ChatService.routeQuery Samples.JSON_parse (fun _ => Return Samples.invoke_fenced)
    (js "Tugas: Klasifikasikan") (js "apa itu perubahan iklim?") None
  = Return (ChatService.mkRoute (Some (JString (js "rag"))) None None None).
Proof. vm_compute. reflexivity. Qed.

(** The client is built outside the [try] block: a failure there is not
    caught. *)
Example routeQuery_no_client :
  ChatService.routeQuery Samples.JSON_parse
    (fun _ => Throw (OtherError (js "API key not found")))
    (js "Tugas: Klasifikasikan") (js "halo") None
  = Throw (OtherError (js "API key not found")).
Proof. reflexivity. Qed.

Example routeQuery_null :
  ChatService.routeQuery Samples.JSON_parse (fun _ => Return Samples.invoke_null)
    (js "Tugas: Klasifikasikan") (js "halo") None
  = Return ChatService.no_rag.
Proof. vm_compute. reflexivity. Qed.

(** ** Context assembly *)

Lemma contains_refl (s : jstring) : Spec.contains s s.
Proof. exists [], []. by rewrite app_nil_r. Qed.

Lemma contains_trans (s t u : jstring) :
  Spec.contains s t -> Spec.contains t u -> Spec.contains s u.
Proof.
  intros (p & q & ->) (p' & q' & ->).
  exists (p ++ p'), (q' ++ q). by rewrite <- !app_assoc.
Qed.

Lemma contains_app_l (s t u : jstring) :
  Spec.contains s u -> Spec.contains (s ++ t) u.
Proof. intros (p & q & ->). exists p, (q ++ t). by rewrite <- !app_assoc. Qed.

Lemma contains_app_r (s t u : jstring) :
  Spec.contains t u -> Spec.contains (s ++ t) u.
Proof. intros (p & q & ->). exists (s ++ p), q. by rewrite <- !app_assoc. Qed.

(** A joined text contains each of its parts. *)
Lemma join_contains (sep : jstring) (parts : list jstring) (part : jstring) :
  part ∈ parts -> Spec.contains (RAG.join sep parts) part.
Proof.
  induction parts as [|p rest IH]; intros Hin.
  - by apply elem_of_nil in Hin.
  - apply elem_of_cons in Hin as [->|Hin].
    + destruct rest; simpl; [apply contains_refl|].
      apply contains_app_l, contains_refl.
    + destruct rest as [|p' rest]; [by apply elem_of_nil in Hin|].
      change (RAG.join sep (p :: p' :: rest))
        with (p ++ sep ++ RAG.join sep (p' :: rest)).
      by apply contains_app_r, contains_app_r, IH.
Qed.

Section AssemblyFacts.
Context `{Numbers}.
Implicit Types (chunk : RAG.MergedChunk) (evaluation : RAG.AgentEvaluation).

Lemma formatDocument_contains_content chunk (n : Z) :
  Spec.contains (RAG.formatDocument chunk n) (RAG.content chunk).
Proof.
  unfold RAG.formatDocument.
  do 17 apply contains_app_r. apply contains_app_l, contains_refl.
Qed.

Lemma context_block_contains_body (body q : jstring) :
  Spec.contains (RAG.context_block body q) body.
Proof.
  unfold RAG.context_block.
  do 2 apply contains_app_r. apply contains_app_l, contains_refl.
Qed.

Lemma indexOf_int_absent (ids : list (option Z)) (n : Z) :
  includes_int ids n = false -> indexOf_int ids n = -1.
Proof.
  induction ids as [|v r IH]; simpl; [done|].
  destruct (bool_decide (v = Some n)); simpl; [done|].
  intros Hr. by rewrite IH.
Qed.

Lemma indexOf_int_bound (ids : list (option Z)) (n : Z) :
  -1 <= indexOf_int ids n < Z.of_nat (length ids).
Proof.
  induction ids as [|v r IH]; simpl; [lia|].
  destruct (bool_decide (v = Some n)); [lia|].
  destruct (Z.ltb_spec (indexOf_int r n) 0); lia.
Qed.

(** When no chunk is selected, every chunk is used. *)
Lemma selectedChunks_fallback (mergedChunks : list RAG.MergedChunk) evaluation :
  List.filter (fun chunk => includes_int (RAG.ids evaluation) (RAG.docNum chunk))
              mergedChunks = [] ->
  RAG.selectedChunks mergedChunks evaluation = mergedChunks.
Proof. intros Hnone. unfold RAG.selectedChunks. by rewrite Hnone. Qed.

Lemma selectedChunks_nonempty (mergedChunks : list RAG.MergedChunk) evaluation :
  mergedChunks <> [] -> RAG.selectedChunks mergedChunks evaluation <> [].
Proof.
  intros Hne. unfold RAG.selectedChunks.
  destruct (List.filter _ mergedChunks) as [|c l] eqn:Hsel; simpl; [done|done].
Qed.

Lemma empty_ids_select_nothing (mergedChunks : list RAG.MergedChunk) evaluation :
  RAG.ids evaluation = [] ->
  List.filter (fun chunk => includes_int (RAG.ids evaluation) (RAG.docNum chunk))
              mergedChunks = [].
Proof.
  intros ->. induction mergedChunks as [|c l IH]; simpl; [done|exact IH].
Qed.

Lemma filter_nil_all_false {A} (f : A -> bool) (l : list A) (x : A) :
  List.filter f l = [] -> x ∈ l -> f x = false.
Proof.
  induction l as [|y l IH]; simpl; intros Hnil Hin.
  - by apply elem_of_nil in Hin.
  - destruct (f y) eqn:Hy; [done|].
    apply elem_of_cons in Hin as [->|Hin]; [done|by apply IH].
Qed.

(** In the fallback every block is rendered with the number 0. *)
Lemma finalDocNum_fallback (mergedChunks : list RAG.MergedChunk) evaluation chunk :
  List.filter (fun chunk => includes_int (RAG.ids evaluation) (RAG.docNum chunk))
              mergedChunks = [] ->
  chunk ∈ mergedChunks ->
  RAG.finalDocNum evaluation chunk = 0.
Proof.
  intros Hnone Hin. unfold RAG.finalDocNum.
  rewrite indexOf_int_absent; [done|].
  exact (filter_nil_all_false _ _ _ Hnone Hin).
Qed.

Lemma finalContext_contains (selected : list RAG.MergedChunk) evaluation chunk :
  chunk ∈ selected ->
  Spec.contains (RAG.finalContext selected evaluation)
                (RAG.formatDocument chunk (RAG.finalDocNum evaluation chunk)).
Proof.
  intros Hin. unfold RAG.finalContext. apply join_contains.
  apply list_elem_of_In, in_map_iff. exists chunk.
  split; [done|by apply list_elem_of_In].
Qed.

End AssemblyFacts.

Section PipelineFacts.
Context `{Numbers}.
Variable toLowerCase : jstring -> jstring.
Variable JSON_parse : jstring -> option json.
Variable query : jstring -> Z -> outcome RAG.QueryResults.
Variable getById : jstring -> option (jstring * RAG.ChromaMetadata).
Variable agentChat : jstring -> outcome jstring.
Variable defaultTopK : Z.

Local Abbreviation documents_of := Spec.documents_of.
Local Abbreviation merged_of := (Spec.merged_of toLowerCase getById).

(** The evaluator step always yields an evaluation. *)
Lemma evaluateChunks_returns (formattedChunks expandedQuery : jstring) :
  exists evaluation,
    RAG.evaluateChunks JSON_parse agentChat formattedChunks expandedQuery
    = Return evaluation.
Proof. unfold RAG.evaluateChunks. destruct (_ ≫= _); simpl; by eexists. Qed.

(** The pipeline after a search that found documents. *)
Lemma processRAGQuery_found
    (ragOptimizedQuery expandedQuery fixedGrammar : jstring) (k : option Z)
    (results : RAG.QueryResults) (evaluation : RAG.AgentEvaluation) :
  query ragOptimizedQuery (default defaultTopK k) = Return results ->
  documents_of results <> [] ->
  RAG.evaluateChunks JSON_parse agentChat
    (RAG.allFormattedDocs (merged_of results)) expandedQuery = Return evaluation ->
  RAG.processRAGQuery toLowerCase JSON_parse query getById agentChat defaultTopK
    ragOptimizedQuery expandedQuery fixedGrammar k
  = Return
      (RAG.mkRAGResult
         (RAG.context_block
            (RAG.finalContext (RAG.selectedChunks (merged_of results) evaluation)
                              evaluation)
            fixedGrammar)
         (RAG.rationale evaluation)
         (List.map RAG.source_of
                   (RAG.selectedChunks (merged_of results) evaluation))).
Proof.
  intros Hquery Hdocs Heval. unfold RAG.processRAGQuery.
  rewrite Hquery. cbn [mbind outcome_bind bind].
  fold (documents_of results).
  destruct (documents_of results) as [|d ds] eqn:Hd; [done|].
  cbn [length Nat.eqb]. rewrite <- Hd. fold (merged_of results).
  rewrite Heval. reflexivity.
Qed.

(** A search without usable documents yields the fixed notice and no
    sources. *)
Lemma processRAGQuery_no_documents
    (ragOptimizedQuery expandedQuery fixedGrammar : jstring) (k : option Z)
    (results : RAG.QueryResults) :
  query ragOptimizedQuery (default defaultTopK k) = Return results ->
  documents_of results = [] ->
  RAG.processRAGQuery toLowerCase JSON_parse query getById agentChat defaultTopK
    ragOptimizedQuery expandedQuery fixedGrammar k
  = Return
      (RAG.mkRAGResult
         (RAG.context_block
            (if RAG.isEnglish fixedGrammar then js "No documents found."
             else js "Tidak ada dokumen yang ditemukan.")
            fixedGrammar)
         (JString (js "No documents found")) []).
Proof.
  intros Hquery Hdocs. unfold RAG.processRAGQuery.
  rewrite Hquery. cbn [mbind outcome_bind bind].
  fold (documents_of results). by rewrite Hdocs.
Qed.

End PipelineFacts.

(** C4.  When the evaluator selects none of the merged fragments (in
    particular when it returns [ids: []]), the pipeline falls back to all
    of them: the context block contains the rendered block and the text of
    every merged fragment, and the source list covers every merged fragment.
    Whatever the evaluator returns, the context is built from at least one
    fragment when merged fragments exist. *)
Theorem empty_selection_uses_every_fragment :
  forall `{Numbers} (toLowerCase : jstring -> jstring)
         (JSON_parse : jstring -> option json)
         (query : jstring -> Z -> outcome RAG.QueryResults)
         (getById : jstring -> option (jstring * RAG.ChromaMetadata))
         (agentChat : jstring -> outcome jstring) (defaultTopK : Z)
         (ragOptimizedQuery expandedQuery fixedGrammar : jstring) (k : option Z)
         (results : RAG.QueryResults) (evaluation : RAG.AgentEvaluation),
    let mergedChunks := Spec.merged_of toLowerCase getById results in
    query ragOptimizedQuery (default defaultTopK k) = Return results ->
    Spec.documents_of results <> [] ->
    RAG.evaluateChunks JSON_parse agentChat
      (RAG.allFormattedDocs mergedChunks) expandedQuery = Return evaluation ->
    List.filter (fun chunk => includes_int (RAG.ids evaluation) (RAG.docNum chunk))
                mergedChunks = [] ->
    exists r,
      RAG.processRAGQuery toLowerCase JSON_parse query getById agentChat
        defaultTopK ragOptimizedQuery expandedQuery fixedGrammar k = Return r
      /\ RAG.selectedChunks mergedChunks evaluation = mergedChunks
      /\ (forall chunk, chunk ∈ mergedChunks ->
            Spec.contains (RAG.contextPrompt r)
              (RAG.formatDocument chunk (RAG.finalDocNum evaluation chunk))
            /\ Spec.contains (RAG.contextPrompt r) (RAG.content chunk))
      /\ RAG.sources r = List.map RAG.source_of mergedChunks
      /\ (forall evaluation',
            mergedChunks <> [] ->
            RAG.selectedChunks mergedChunks evaluation' <> []).
Proof.
  intros Hnum toLowerCase JSON_parse query getById agentChat defaultTopK
    rq eq fg k results evaluation mergedChunks Hquery Hdocs Heval Hnone.
  eexists. split.
  { eapply processRAGQuery_found; eassumption. }
  fold mergedChunks. cbn [RAG.contextPrompt RAG.sources].
  rewrite (selectedChunks_fallback mergedChunks evaluation Hnone).
  split_and!; [done| |done|].
  - intros chunk Hin.
    assert (Hblock : Spec.contains
              (RAG.context_block (RAG.finalContext mergedChunks evaluation) fg)
              (RAG.formatDocument chunk (RAG.finalDocNum evaluation chunk))).
    { eapply contains_trans; [apply context_block_contains_body|].
      by apply finalContext_contains. }
    split; [exact Hblock|].
    eapply contains_trans; [exact Hblock|apply formatDocument_contains_content].
  - intros evaluation'. apply selectedChunks_nonempty.
Qed.

Lemma empty_selection_uses_every_fragment_witness :
  exists r,
    RAG.processRAGQuery Samples.toLowerCase Samples.JSON_parse Samples.query
      Samples.getById Samples.agentChat_none 5
      (js "denda sampah") (js "Berapa denda membuang sampah?")
      (js "Berapa denda buang sampah?") None = Return r
    /\ RAG.sources r = List.map RAG.source_of Samples.mergedChunks
    /\ Spec.contains (RAG.contextPrompt r) (js "Denda paling banyak lima juta.")
    /\ Spec.contains (RAG.contextPrompt r)
         (js "Setiap orang dilarang membuang sampah ke sungai.").
Proof.
  destruct (empty_selection_uses_every_fragment
              Samples.toLowerCase Samples.JSON_parse Samples.query
              Samples.getById Samples.agentChat_none 5
              (js "denda sampah") (js "Berapa denda membuang sampah?")
              (js "Berapa denda buang sampah?") None Samples.results
              (RAG.mkEvaluation (JString (js "tidak ada yang relevan")) []))
    as (r & Hr & _ & Hall & Hsources & _).
  - reflexivity.
  - vm_compute. discriminate.
  - vm_compute. reflexivity.
  - reflexivity.
  - exists r. split; [exact Hr|]. split; [exact Hsources|]. split.
    + refine (proj2 (Hall Samples.chunk_denda _)).
      vm_compute. apply list_elem_of_here.
    + refine (proj2 (Hall Samples.chunk_sampah _)).
      vm_compute. apply list_elem_of_further, list_elem_of_here.
Defined.

(** C5 (the code departs from it).  With the sample search and an evaluator
    that returns [ids: []], both fragments of the fallback are rendered under
    the number 0, not 1 and 2; the whole pipeline hands that block on.  And
    when the evaluator lists the identifiers in another order than the
    ranking, the rendered numbers follow the evaluator's list, not the
    position in the block: they read 2, 1. *)
Theorem finalContext_fallback_numbers_zero :
  let none := Samples.select [] in
  let selected := RAG.selectedChunks Samples.mergedChunks none in
  selected = Samples.mergedChunks
  /\ length selected = 2%nat
  /\ List.map (RAG.finalDocNum none) selected = [0; 0]
  /\ RAG.finalContext selected none =
     RAG.join RAG.nl (List.map (fun chunk => RAG.formatDocument chunk 0) selected)
  /\ (exists r,
        RAG.processRAGQuery Samples.toLowerCase Samples.JSON_parse Samples.query
          Samples.getById Samples.agentChat_none 5
          (js "denda sampah") (js "Berapa denda membuang sampah?")
          (js "Berapa denda buang sampah?") None = Return r
        /\ RAG.contextPrompt r =
           RAG.context_block
             (RAG.join RAG.nl
                (List.map (fun chunk => RAG.formatDocument chunk 0)
                          Samples.mergedChunks))
             (js "Berapa denda buang sampah?"))
  /\ List.map (RAG.finalDocNum (Samples.select [1; 2]))
              (RAG.selectedChunks Samples.mergedChunks (Samples.select [1; 2]))
     = [2; 1].
Proof.
  split_and!; try (vm_compute; reflexivity).
  eexists. split; vm_compute; reflexivity.
Qed.

Lemma similarity_of_spec `{Numbers} (d : number) :
  RAG.similarity_of (Some d) = if num_truthy d then num_sub num_one d else num_zero.
Proof. reflexivity. Qed.

(** C6 (the code departs from it).  A hit whose distance is present and
    equal to 0 gets similarity 0, where [1 - 0] is 1: in the sample search
    the exact match ends up ranked below the hit at distance 1/4. *)
Theorem zero_distance_gives_zero_similarity :
  @RAG.similarity_of Samples.rational_numbers (Some 0%Q) = 0%Q
  /\ @num_sub Samples.rational_numbers 1%Q 0%Q = 1%Q
  /\ @RAG.similarity_of Samples.rational_numbers (Some (1 # 4)%Q) = (3 # 4)%Q
  /\ @RAG.similarity_of Samples.rational_numbers None = 0%Q
  /\ List.map (fun chunk => (RAG.docNum chunk, RAG.similarity chunk))
              Samples.mergedChunks
     = [(2, (3 # 4)%Q); (1, 0%Q)].
Proof. vm_compute. split_and!; reflexivity. Qed.

(** * Further properties *)

(** ** The string hash as a polynomial *)

Lemma toInt32_mul_add (a k c : Z) :
  toInt32 (toInt32 a * k + c) = toInt32 (a * k + c).
Proof.
  unfold toInt32. f_equal.
  rewrite (Z.mod_eq (a + 2147483648) 4294967296) by lia.
  set (q := (a + 2147483648) / 4294967296).
  replace ((a + 2147483648 - 4294967296 * q - 2147483648) * k + c + 2147483648)
    with (a * k + c + 2147483648 + (- (q * k)) * 4294967296) by ring.
  apply Z_mod_plus_full.
Qed.

Lemma hash_fold_range (str : jstring) (h : Z) :
  -2147483648 <= h < 2147483648 ->
  -2147483648 <= fold_left RequestUtils.hash_step str h < 2147483648.
Proof.
  revert h. induction str as [|c r IH]; intros h Hh; simpl; [done|].
  apply IH. rewrite hash_step_spec by done. apply toInt32_range.
Qed.

Lemma hash_fold_poly (str : jstring) :
  fold_left RequestUtils.hash_step str 0 = toInt32 (Laws.poly31 str).
Proof.
  unfold Laws.poly31.
  induction str as [|c str IH] using rev_ind; [done|].
  rewrite !fold_left_app. simpl.
  rewrite hash_step_spec by (apply hash_fold_range; lia).
  rewrite IH. apply toInt32_mul_add.
Qed.

Lemma createSimpleHash_value (str : jstring) :
  RequestUtils.createSimpleHash str = toString36 (Z.abs (toInt32 (Laws.poly31 str)))
  /\ 0 <= Z.abs (toInt32 (Laws.poly31 str)) <= 2147483648.
Proof.
  split.
  - unfold RequestUtils.createSimpleHash. by rewrite hash_fold_poly.
  - pose proof (toInt32_range (Laws.poly31 str)). lia.
Qed.

(** X1.  The hash of a string is the base-36 text of the absolute value of
    the polynomial [c0 * 31^(n-1) + ... + c(n-1)] of its code units, reduced
    to a signed 32-bit integer: the shift, the subtraction and the mask of
    the loop amount to multiplying by 31 modulo 2^32.  Reading the text back
    in base 36 gives that value, which is at most 2^31; the private copy in
    the session store computes the same text. *)
Theorem createSimpleHash_polynomial (str : jstring) :
  let value := Z.abs (toInt32 (Laws.poly31 str)) in
  RequestUtils.createSimpleHash str = toString36 value
  /\ SessionStorage.createSimpleHash str = toString36 value
  /\ Spec.decode 36 (RequestUtils.createSimpleHash str) = value
  /\ 0 <= value <= 2147483648.
Proof.
  intros value. destruct (createSimpleHash_value str) as [Hhash Hrange].
  fold value in Hhash, Hrange.
  split; [done|]. split; [by rewrite <- createSimpleHash_same|].
  split; [|done]. rewrite Hhash. apply toString36_decode. lia.
Qed.

(** ** The alphabet of the hash and the shape of the fingerprint *)

Lemma digit36_isBase36 (d : Z) : 0 <= d < 36 -> Laws.isBase36 (digit36 d) = true.
Proof.
  intros Hd. unfold Laws.isBase36, digit36.
  destruct (Z.ltb_spec d 10).
  - apply orb_true_iff. left. apply andb_true_iff. split; apply N.leb_le; lia.
  - apply orb_true_iff. right. apply andb_true_iff. split; apply N.leb_le; lia.
Qed.

Lemma digits36_alphabet (fuel : nat) (n : Z) (acc : jstring) :
  0 <= n -> Forall (fun c => Laws.isBase36 c = true) acc ->
  Forall (fun c => Laws.isBase36 c = true) (digits36 fuel n acc).
Proof.
  revert n acc. induction fuel as [|fuel IH]; intros n acc Hn Hacc; simpl; [done|].
  assert (Hd : Forall (fun c => Laws.isBase36 c = true) (digit36 (n mod 36) :: acc)).
  { constructor; [|done]. apply digit36_isBase36. apply Z.mod_pos_bound. lia. }
  destruct (n <? 36); [done|].
  apply IH; [|done]. apply Z.div_pos; lia.
Qed.

Lemma digits36_length (fuel : nat) (n : Z) (acc : jstring) (k : nat) :
  0 <= n < 36 ^ Z.of_nat (S k) ->
  (length (digits36 (S fuel) n acc) <= S k + length acc)%nat.
Proof.
  revert n acc k. induction fuel as [|fuel IH]; intros n acc k Hn.
  - simpl. destruct (n <? 36); simpl; lia.
  - change (digits36 (S (S fuel)) n acc)
      with (if n <? 36 then digit36 (n mod 36) :: acc
            else digits36 (S fuel) (n / 36) (digit36 (n mod 36) :: acc)).
    destruct (Z.ltb_spec n 36) as [Hlt|Hge]; [simpl; lia|].
    destruct k as [|k].
    { change (36 ^ Z.of_nat 1) with 36 in Hn. lia. }
    etransitivity; [apply (IH _ _ k)|simpl; lia].
    split; [apply Z.div_pos; lia|].
    apply Z.div_lt_upper_bound; [lia|].
    rewrite (Nat2Z.inj_succ (S k)), Z.pow_succ_r in Hn by lia. lia.
Qed.

Lemma digits36_nonempty (fuel : nat) (n : Z) (acc : jstring) :
  (length acc < length (digits36 (S fuel) n acc))%nat.
Proof.
  revert n acc. induction fuel as [|fuel IH]; intros n acc.
  - simpl. destruct (n <? 36); simpl; lia.
  - change (digits36 (S (S fuel)) n acc)
      with (if n <? 36 then digit36 (n mod 36) :: acc
            else digits36 (S fuel) (n / 36) (digit36 (n mod 36) :: acc)).
    destruct (n <? 36); [simpl; lia|].
    etransitivity; [|apply IH]. simpl. lia.
Qed.

(** X2.  A hash is between one and six characters long and consists of
    digits and lower-case letters only. *)
Theorem createSimpleHash_shape (str : jstring) :
  Forall (fun c => Laws.isBase36 c = true) (RequestUtils.createSimpleHash str)
  /\ (1 <= length (RequestUtils.createSimpleHash str) <= 6)%nat.
Proof.
  destruct (createSimpleHash_value str) as (-> & Hrange). split.
  - apply digits36_alphabet; [lia|constructor].
  - unfold toString36. split.
    + pose proof (digits36_nonempty (Z.to_nat (Z.log2 (Z.abs (toInt32 (Laws.poly31 str)))))
                    (Z.abs (toInt32 (Laws.poly31 str))) []). simpl in *. lia.
    + etransitivity; [apply (digits36_length _ _ _ 5)|simpl; lia].
      change (36 ^ Z.of_nat 6) with 2176782336. lia.
Qed.

Lemma createSimpleHash_no_underscore (str : jstring) :
  Laws.underscore ∉ RequestUtils.createSimpleHash str.
Proof.
  destruct (createSimpleHash_value str) as (-> & Hrange).
  intros Hin.
  pose proof (digits36_alphabet
                (S (Z.to_nat (Z.log2 (Z.abs (toInt32 (Laws.poly31 str))))))
                (Z.abs (toInt32 (Laws.poly31 str))) [] (proj1 Hrange)
                (Forall_nil_2 _)) as Hall.
  rewrite Forall_forall in Hall. by specialize (Hall _ Hin).
Qed.

Lemma app_separator_inj {A} (u : A) (a b a' b' : list A) :
  u ∉ a -> u ∉ a' -> a ++ u :: b = a' ++ u :: b' -> a = a' /\ b = b'.
Proof.
  revert a'. induction a as [|x a IH]; intros [|x' a'] Ha Ha' Heq; simpl in Heq.
  - by inversion Heq.
  - inversion Heq; subst. exfalso. apply Ha'. apply list_elem_of_here.
  - inversion Heq; subst. exfalso. apply Ha. apply list_elem_of_here.
  - inversion Heq; subst.
    apply not_elem_of_cons in Ha as [_ Ha].
    apply not_elem_of_cons in Ha' as [_ Ha'].
    destruct (IH a' Ha Ha' H1) as [-> ->]. done.
Qed.

(** X3.  A connection fingerprint determines the two hashes it is made of:
    no hash contains the underscore that joins them, so two connections
    have the same fingerprint exactly when the hashes of their addresses
    agree and the hashes of their user agents agree (an empty or missing
    value counting as the text unknown). *)
Theorem fingerprint_determines_hashes
    (ip ip' : jstring) (ua ua' : option jstring) :
  RequestUtils.getClientConnectionFingerprint ip ua
  = RequestUtils.getClientConnectionFingerprint ip' ua'
  <-> RequestUtils.createSimpleHash (or_default (Some ip) (js "unknown"))
      = RequestUtils.createSimpleHash (or_default (Some ip') (js "unknown"))
      /\ RequestUtils.createSimpleHash (or_default ua (js "unknown"))
         = RequestUtils.createSimpleHash (or_default ua' (js "unknown")).
Proof.
  unfold RequestUtils.getClientConnectionFingerprint.
  generalize (or_default (Some ip) (js "unknown")) (or_default ua (js "unknown"))
             (or_default (Some ip') (js "unknown")) (or_default ua' (js "unknown")).
  intros a b a' b'. split.
  - intros Heq. apply (app_separator_inj Laws.underscore);
      [apply createSimpleHash_no_underscore..|exact Heq].
  - by intros [-> ->].
Qed.

(** ** The client address *)

Lemma split_first (sep : char) (s : jstring) :
  exists first rest,
    Request.split sep s = first :: rest
    /\ (sep ∉ first)
    /\ (s = first \/ exists tail, s = first ++ sep :: tail).
Proof.
  induction s as [|c r IH]; simpl.
  - exists [], []. split_and!; [done|apply not_elem_of_nil|by left].
  - destruct (N.eqb_spec c sep) as [->|Hne].
    + exists [], (Request.split sep r).
      split_and!; [done|apply not_elem_of_nil|right; by exists r].
    + destruct IH as (first & rest & -> & Hnin & Hshape).
      exists (c :: first), rest. split_and!; [done| |].
      * apply not_elem_of_cons. split; [congruence|done].
      * destruct Hshape as [->|(tail & ->)]; [by left|right; by exists tail].
Qed.

Lemma trimStart_head (s : jstring) (c : char) (r : jstring) :
  trimStart s = c :: r -> isWhiteSpace c = false.
Proof.
  induction s as [|a s IH]; simpl; [done|].
  destruct (isWhiteSpace a) eqn:Ha; [exact IH|].
  intros Heq. inversion Heq; by subst.
Qed.

Lemma trimStart_snoc (l : jstring) (c : char) :
  isWhiteSpace c = false -> exists l', trimStart (l ++ [c]) = l' ++ [c].
Proof.
  intros Hc. induction l as [|a l IH]; simpl.
  - rewrite Hc. by exists [].
  - destruct (isWhiteSpace a); [exact IH|]. by exists (a :: l).
Qed.

Lemma trim_trimmed (s : jstring) : Laws.trimmed (trim s).
Proof.
  unfold trim, trimEnd. split.
  - intros c r Heq.
    destruct (trimStart s) as [|a t] eqn:Hstart.
    { simpl in Heq. discriminate. }
    pose proof (trimStart_head _ _ _ Hstart) as Ha.
    simpl in Heq.
    destruct (trimStart_snoc (rev t) a Ha) as (l' & Hl').
    rewrite Hl', rev_app_distr in Heq. simpl in Heq.
    inversion Heq; by subst.
  - intros c r Heq.
    apply (f_equal (@rev N)) in Heq.
    rewrite rev_involutive, rev_app_distr in Heq. simpl in Heq.
    by apply trimStart_head in Heq.
Qed.

Lemma trim_not_elem_of (s : jstring) (c : char) : c ∉ s -> c ∉ trim s.
Proof.
  intros Hnin Hin. apply Hnin.
  destruct (trim_infix s) as (pre & post & Hs). rewrite Hs.
  apply elem_of_app. right. apply elem_of_app. by left.
Qed.

(** X4.  When the request carries a non-empty [x-forwarded-for] header,
    [getClientIP] returns (it never throws) the first item of the
    comma-separated list with the white space around it removed: the result
    holds no comma and neither starts nor ends with white space, whatever
    the other headers are. *)
Theorem getClientIP_forwarded (headers : Request.Headers) (forwarded : jstring) :
  headers (js "x-forwarded-for") = Some forwarded ->
  forwarded <> [] ->
  exists first,
    Request.getClientIP headers = Return (trim first)
    /\ (Request.comma ∉ first)
    /\ (forwarded = first
        \/ exists rest, forwarded = first ++ Request.comma :: rest)
    /\ (Request.comma ∉ trim first)
    /\ Laws.trimmed (trim first).
Proof.
  intros Hget Hne. unfold Request.getClientIP. rewrite Hget. simpl.
  destruct forwarded as [|c f]; [done|].
  change (truthy (c :: f)) with true. cbv iota.
  destruct (split_first Request.comma (c :: f)) as (first & rest & -> & Hnin & Hshape).
  exists first. split_and!; [done|done|done| |apply trim_trimmed].
  by apply trim_not_elem_of.
Qed.

Lemma getClientIP_forwarded_witness :
  exists first,
    Request.getClientIP Examples.proxied = Return (trim first)
    /\ (Request.comma ∉ first)
    /\ (js " 203.0.113.7 , 10.0.0.1" = first
        \/ exists rest, js " 203.0.113.7 , 10.0.0.1" = first ++ Request.comma :: rest)
    /\ (Request.comma ∉ trim first)
    /\ Laws.trimmed (trim first).
Proof.
  apply (getClientIP_forwarded Examples.proxied (js " 203.0.113.7 , 10.0.0.1")).
  - reflexivity.
  - discriminate.
Defined.

Example getClientIP_proxied :
  Request.getClientIP Examples.proxied = Return (js "203.0.113.7").
Proof. vm_compute. reflexivity. Qed.

(** ** The prefix sweep *)

Lemma get_not_in_keys {V} (k : jstring) (m : JSMap.t V) :
  k ∉ JSMap.keys m -> JSMap.get k m = None.
Proof.
  intros Hnin. destruct (JSMap.get k m) as [v|] eqn:Hget; [|done].
  exfalso. apply Hnin. by eapply get_Some_keys.
Qed.

(** X5.  [clearSessionMessagesByPattern(pattern)] empties the message list
    of exactly the sessions whose identifier starts with the pattern and
    returns their number.  Every session stays filed, in the same order; a
    cleared session keeps its identifier and its metadata except
    [lastActive], which becomes a clock reading taken during the sweep; the
    other sessions are unchanged. *)
Theorem clearSessionMessagesByPattern_clears_prefix
    (clock : nat -> Z) (pattern : jstring) (st : SS.Store) :
  Spec.store_wf st ->
  let count := (SS.clearSessionMessagesByPattern clock pattern st).1 in
  let st' := (SS.clearSessionMessagesByPattern clock pattern st).2 in
  JSMap.keys (SS.sessions st') = JSMap.keys (SS.sessions st)
  /\ (forall k s, JSMap.get k (SS.sessions st) = Some s ->
        exists s',
          JSMap.get k (SS.sessions st') = Some s'
          /\ SS.id s' = SS.id s
          /\ if SS.startsWith k pattern
             then SS.messages s' = []
                  /\ Spec.same_but_lastActive (SS.smeta s) (SS.smeta s')
                  /\ exists t, (SS.ticks st <= t)%nat
                               /\ SS.lastActive (SS.smeta s') = clock t
             else s' = s)
  /\ count = Z.of_nat (length (List.filter
                                 (fun e => SS.startsWith e.1 pattern)
                                 (SS.sessions st))).
Proof.
  intros Hwf count st'. subst count st'.
  rewrite clearSessionMessagesByPattern_unfold. simpl.
  set (P := fun (k : jstring) (_ : SS.Session) => SS.startsWith k pattern).
  pose proof (sweep_fold_spec clock P (JSMap.keys (SS.sessions st)) st 0
                Hwf (proj1 Hwf)) as Hloop.
  destruct (fold_left _ _ _) as [st' count']. simpl.
  destruct Hloop as (_ & Hkeys & _ & _ & _ & Hin & Hcount).
  split_and!.
  - exact Hkeys.
  - intros k s Hget.
    specialize (Hin k s (get_Some_keys _ _ _ Hget) Hget).
    unfold P in Hin. destruct (SS.startsWith k pattern).
    + destruct Hin as (t & Ht & Hget'). eexists. split; [exact Hget'|].
      simpl. split_and!; try done.
      exists t. split; [lia|done].
    + exists s. done.
  - rewrite Hcount, Z.add_0_l. f_equal.
    exact (swept_count P st (proj1 Hwf)).
Qed.

Lemma clearSessionMessagesByPattern_clears_prefix_witness :
  let st := Examples.mixed_store in
  let count := (SS.clearSessionMessagesByPattern Samples.tick_clock (js "wablass_") st).1 in
  let st' := (SS.clearSessionMessagesByPattern Samples.tick_clock (js "wablass_") st).2 in
  JSMap.keys (SS.sessions st') = JSMap.keys (SS.sessions st)
  /\ (forall k s, JSMap.get k (SS.sessions st) = Some s ->
        exists s',
          JSMap.get k (SS.sessions st') = Some s'
          /\ SS.id s' = SS.id s
          /\ if SS.startsWith k (js "wablass_")
             then SS.messages s' = []
                  /\ Spec.same_but_lastActive (SS.smeta s) (SS.smeta s')
                  /\ exists t, (SS.ticks st <= t)%nat
                               /\ SS.lastActive (SS.smeta s') = Samples.tick_clock t
             else s' = s)
  /\ count = Z.of_nat (length (List.filter
                                 (fun e => SS.startsWith e.1 (js "wablass_"))
                                 (SS.sessions st))).
Proof.
  apply (clearSessionMessagesByPattern_clears_prefix Samples.tick_clock
           (js "wablass_") Examples.mixed_store).
  apply addMessage_spec, addMessage_spec, new_wf.
Defined.

Example prefix_sweep_sample :
  let r := SS.clearSessionMessagesByPattern Samples.tick_clock (js "wablass_")
             Examples.mixed_store in
  r.1 = 1
  /\ SS.getMessages (js "wablass_628123456789") Examples.mixed_store
     = [Samples.human "halo"]
  /\ SS.getMessages (js "wablass_628123456789") r.2 = []
  /\ SS.getMessages (js "session_abc_def_1700000000000") r.2
     = [Samples.human "apa itu perda?"].
Proof. vm_compute. split_and!; reflexivity. Qed.

(** ** Which sessions the Wablas cleanup reaches *)

Lemma split_nonempty (sep : char) (s : jstring) : Request.split sep s <> [].
Proof. destruct (split_first sep s) as (first & rest & -> & _). done. Qed.

Lemma getClientIP_returns (headers : Request.Headers) :
  exists ip, Request.getClientIP headers = Return ip.
Proof.
  unfold Request.getClientIP.
  destruct (truthy (default [] (headers (js "x-forwarded-for")))).
  - destruct (split_first Request.comma (default [] (headers (js "x-forwarded-for"))))
      as (first & rest & -> & _). by eexists.
  - destruct (truthy (default [] (headers (js "x-real-ip")))); by eexists.
Qed.

Lemma startsWith_first_differs (c d : char) (s pattern : jstring) :
  c <> d -> SS.startsWith (c :: s) (d :: pattern) = false.
Proof.
  intros Hne. unfold SS.startsWith. apply bool_decide_eq_false_2.
  intros Hpre. apply prefix_cons_inv_1 in Hpre. congruence.
Qed.

Lemma generateSessionId_not_wablas
    (headers : Request.Headers) (userId : option jstring) (now : Z) :
  exists sid,
    Routes.generateSessionId headers userId now = Return sid
    /\ SS.startsWith sid Routes.wablasPattern = false.
Proof.
  unfold Routes.generateSessionId.
  destruct (truthy (default [] userId)).
  - eexists. split; [reflexivity|]. by apply startsWith_first_differs.
  - destruct (getClientIP_returns headers) as (ip & ->).
    eexists. split; [reflexivity|]. by apply startsWith_first_differs.
Qed.

(** X6.  The Wablas cleanup timer, [clearSessionMessagesByPattern("wablass_")],
    empties the history of every Wablas sender, whose session is filed as
    [wablass_<phone>], and changes no session filed under an identifier
    made by [generateSessionId]: such an identifier always exists (the
    function never throws) and starts with [user_] or [session_]. *)
Theorem wablas_cleanup_scope (clock : nat -> Z) (st : SS.Store) :
  Spec.store_wf st ->
  let st' := (SS.clearSessionMessagesByPattern clock Routes.wablasPattern st).2 in
  (forall phone, SS.getMessages (Routes.webhookSessionId phone) st' = [])
  /\ (forall headers userId now,
        exists sid,
          Routes.generateSessionId headers userId now = Return sid
          /\ SS.getSession sid st' = SS.getSession sid st).
Proof.
  intros Hwf st'.
  destruct (clearSessionMessagesByPattern_spec clock Routes.wablasPattern st Hwf)
    as [Hkeys Hin].
  fold st' in Hkeys, Hin. split.
  - intros phone. unfold SS.getMessages, SS.getSession.
    destruct (JSMap.get (Routes.webhookSessionId phone) (SS.sessions st))
      as [s|] eqn:Hget.
    + specialize (Hin _ _ Hget).
      assert (Hstarts : SS.startsWith (Routes.webhookSessionId phone)
                          Routes.wablasPattern = true).
      { apply bool_decide_eq_true_2. by exists phone. }
      rewrite Hstarts in Hin. destruct Hin as (t & _ & ->). done.
    + rewrite get_not_in_keys; [done|].
      rewrite Hkeys. by apply get_None_keys.
  - intros headers userId now.
    destruct (generateSessionId_not_wablas headers userId now) as (sid & Hsid & Hstarts).
    exists sid. split; [done|]. unfold SS.getSession.
    destruct (JSMap.get sid (SS.sessions st)) as [s|] eqn:Hget.
    + specialize (Hin _ _ Hget). by rewrite Hstarts in Hin.
    + rewrite get_not_in_keys; [done|].
      rewrite Hkeys. by apply get_None_keys.
Qed.

Lemma wablas_cleanup_scope_witness :
  let st' := (SS.clearSessionMessagesByPattern Samples.tick_clock
                Routes.wablasPattern Examples.mixed_store).2 in
  (forall phone, SS.getMessages (Routes.webhookSessionId phone) st' = [])
  /\ (forall headers userId now,
        exists sid,
          Routes.generateSessionId headers userId now = Return sid
          /\ SS.getSession sid st' = SS.getSession sid Examples.mixed_store).
Proof.
  apply (wablas_cleanup_scope Samples.tick_clock Examples.mixed_store).
  apply addMessage_spec, addMessage_spec, new_wf.
Defined.

(** ** The indexes of the session store *)

Section IndexFacts.
Variable clock : nat -> Z.
Implicit Types (st : SS.Store) (s : SS.Session) (sid u : jstring).

Lemma invariant_ext st st' :
  SS.sessions st' = SS.sessions st ->
  SS.userSessions st' = SS.userSessions st ->
  SS.clientConnections st' = SS.clientConnections st ->
  Laws.invariant st -> Laws.invariant st'.
Proof.
  unfold Laws.invariant, Spec.store_wf, Laws.user_index_wf, Laws.users_indexed,
    Laws.connection_index_wf.
  by intros -> -> ->.
Qed.

(** What [associateSessionWithUser] does to the user index. *)
Lemma associateSessionWithUser_index sid u st :
  let st' := SS.associateSessionWithUser clock sid u st in
  let old := default [] (SS.ud_sessionIds <$> SS.userSessions st !! u) in
  SS.sessions st' = SS.sessions st
  /\ SS.clientConnections st' = SS.clientConnections st
  /\ exists d,
       SS.userSessions st' = <[u := d]> (SS.userSessions st)
       /\ SS.ud_userId d = default u (SS.ud_userId <$> SS.userSessions st !! u)
       /\ SS.ud_sessionIds d =
          if SS.includes sid old then old else old ++ [sid].
Proof.
  unfold SS.associateSessionWithUser.
  destruct (SS.userSessions st !! u) as [ud|] eqn:Hu.
  - rewrite Hu. simpl. split_and!; [done|done|].
    eexists. split_and!; [reflexivity|done|done].
  - simpl. rewrite lookup_insert_eq. simpl.
    split_and!; [done|done|]. rewrite insert_insert_eq.
    eexists. split_and!; [reflexivity|done|done].
Qed.

Lemma includes_spec (x : jstring) (l : list jstring) :
  SS.includes x l = true <-> x ∈ l.
Proof. unfold SS.includes. apply bool_decide_eq_true. Qed.

Lemma push_unless_included_NoDup (x : jstring) (l : list jstring) :
  NoDup l -> NoDup (if SS.includes x l then l else l ++ [x]).
Proof.
  intros Hnd. destruct (SS.includes x l) eqn:Hin; [done|].
  apply NoDup_app. split_and!; [done| |apply NoDup_singleton].
  intros y Hy Hy'. apply list_elem_of_singleton in Hy'. subst.
  apply includes_spec in Hy. congruence.
Qed.

Lemma push_unless_included_elem (x : jstring) (l : list jstring) :
  x ∈ (if SS.includes x l then l else l ++ [x]).
Proof.
  destruct (SS.includes x l) eqn:Hin.
  - by apply includes_spec.
  - apply elem_of_app. right. apply list_elem_of_here.
Qed.

Lemma push_unless_included_subset (x y : jstring) (l : list jstring) :
  y ∈ l -> y ∈ (if SS.includes x l then l else l ++ [x]).
Proof.
  intros Hy. destruct (SS.includes x l); [done|].
  apply elem_of_app. by left.
Qed.

(** Filing a session under its own identifier, with the user index grown
    accordingly, keeps the invariant. *)
Lemma file_session_invariant st st' s :
  Laws.invariant st ->
  SS.sessions st' = JSMap.set (SS.id s) s (SS.sessions st) ->
  SS.clientConnections st' = SS.clientConnections st ->
  match SS.userId (SS.smeta s) with
  | Some u =>
      if truthy u then
        exists d,
          SS.userSessions st' = <[u := d]> (SS.userSessions st)
          /\ SS.ud_userId d = default u (SS.ud_userId <$> SS.userSessions st !! u)
          /\ SS.ud_sessionIds d =
             let old := default [] (SS.ud_sessionIds <$> SS.userSessions st !! u) in
             if SS.includes (SS.id s) old then old else old ++ [SS.id s]
      else SS.userSessions st' = SS.userSessions st
  | None => SS.userSessions st' = SS.userSessions st
  end ->
  Laws.invariant st'.
Proof.
  intros (Hwf & Hui & Hidx & Hci) Hsess Hconn Husers.
  assert (Hwf' : Spec.store_wf st').
  { destruct Hwf as [Hnd Hid]. split; rewrite Hsess.
    - by apply keys_set_NoDup.
    - intros k s' Hget. destruct (decide (SS.id s = k)) as [<-|Hne].
      + rewrite get_set_eq in Hget. by inversion Hget.
      + rewrite get_set_ne in Hget by done. by apply Hid. }
  assert (Hci' : Laws.connection_index_wf st').
  { unfold Laws.connection_index_wf. by rewrite Hconn. }
  assert (Hplain : SS.userSessions st' = SS.userSessions st ->
                   (forall u, SS.userId (SS.smeta s) = Some u -> truthy u = false) ->
                   Laws.invariant st').
  { intros Hsame Hnouser. split_and!; [done| | |done].
    - unfold Laws.user_index_wf. by rewrite Hsame.
    - intros k s' u Hget Hu Htruthy. rewrite Hsame. rewrite Hsess in Hget.
      destruct (decide (SS.id s = k)) as [<-|Hne].
      + rewrite get_set_eq in Hget. inversion Hget; subst s'.
        rewrite (Hnouser u Hu) in Htruthy. done.
      + rewrite get_set_ne in Hget by done. by eapply Hidx. }
  destruct (SS.userId (SS.smeta s)) as [u|] eqn:Huser.
  2:{ apply Hplain; [done|]. intros u Hu. done. }
  destruct (truthy u) eqn:Htruthy.
  2:{ apply Hplain; [done|]. intros u' Hu'. by inversion Hu'; subst. }
  destruct Husers as (d & Hmap & Hduid & Hdids). simpl in Hdids.
  split_and!; [done| | |done].
  - intros u' d' Hlook. rewrite Hmap in Hlook.
    destruct (decide (u = u')) as [<-|Hne].
    + rewrite lookup_insert_eq in Hlook. inversion Hlook; subst d'.
      destruct (SS.userSessions st !! u) as [ud|] eqn:Hold; simpl in *.
      * destruct (Hui u ud Hold) as (Hid & _ & Hnd & Hnil).
        split_and!; [congruence|done| |].
        -- rewrite Hdids. by apply push_unless_included_NoDup.
        -- rewrite Hdids. destruct (SS.includes _ _); [done|].
           by destruct (SS.ud_sessionIds ud).
      * split_and!; [done|done| |]; rewrite Hdids; simpl.
        -- apply NoDup_singleton.
        -- done.
    + rewrite lookup_insert_ne in Hlook by done. by apply Hui.
  - intros k s' u' Hget Hu' Htruthy'. rewrite Hsess in Hget. rewrite Hmap.
    destruct (decide (SS.id s = k)) as [<-|Hne].
    + rewrite get_set_eq in Hget. inversion Hget; subst s'.
      assert (u' = u) as -> by congruence.
      exists d. rewrite lookup_insert_eq. split; [done|].
      rewrite Hdids. apply push_unless_included_elem.
    + rewrite get_set_ne in Hget by done.
      destruct (Hidx k s' u' Hget Hu' Htruthy') as (d' & Hd' & Hk).
      destruct (decide (u = u')) as [<-|Hneu].
      * exists d. rewrite lookup_insert_eq. split; [done|].
        rewrite Hdids, Hd'. simpl. by apply push_unless_included_subset.
      * exists d'. by rewrite lookup_insert_ne.
Qed.

Lemma saveSession_invariant s st :
  Laws.invariant st -> Laws.invariant (SS.saveSession clock s st).
Proof.
  intros Hinv.
  set (s' := SS.set_smeta (SS.set_lastActive (clock (SS.ticks st)) (SS.smeta s)) s).
  assert (Htables :
    SS.clientConnections (SS.saveSession clock s st) = SS.clientConnections st
    /\ match SS.userId (SS.smeta s') with
       | Some u =>
           if truthy u then
             exists d,
               SS.userSessions (SS.saveSession clock s st)
               = <[u := d]> (SS.userSessions st)
               /\ SS.ud_userId d = default u (SS.ud_userId <$> SS.userSessions st !! u)
               /\ SS.ud_sessionIds d =
                  let old := default [] (SS.ud_sessionIds <$> SS.userSessions st !! u) in
                  if SS.includes (SS.id s') old then old else old ++ [SS.id s']
           else SS.userSessions (SS.saveSession clock s st) = SS.userSessions st
       | None => SS.userSessions (SS.saveSession clock s st) = SS.userSessions st
       end).
  { unfold SS.saveSession. simpl.
    destruct (SS.userId (SS.smeta s)) as [u|]; [|done].
    destruct (truthy u); [|done].
    match goal with
    | |- context [SS.associateSessionWithUser clock ?sid ?u ?st1] =>
        destruct (associateSessionWithUser_index sid u st1) as (_ & Hc & Hd)
    end.
    split; [exact Hc|exact Hd]. }
  destruct Htables as [Hconn Husers].
  exact (file_session_invariant st _ s' Hinv (saveSession_sessions clock s st)
           Hconn Husers).
Qed.

Lemma createSession_invariant sid (userId : option jstring) extra st :
  Laws.invariant st -> Laws.invariant (SS.createSession clock sid userId extra st).2.
Proof.
  intros Hinv.
  set (s' := SS.mkSession sid []
               (SS.mkMetadata userId (clock (SS.ticks st)) (clock (S (SS.ticks st)))
                  None None SS.general (default [] extra))).
  assert (Htables :
    let st' := (SS.createSession clock sid userId extra st).2 in
    SS.sessions st' = JSMap.set (SS.id s') s' (SS.sessions st)
    /\ SS.clientConnections st' = SS.clientConnections st
    /\ match SS.userId (SS.smeta s') with
       | Some u =>
           if truthy u then
             exists d,
               SS.userSessions st' = <[u := d]> (SS.userSessions st)
               /\ SS.ud_userId d = default u (SS.ud_userId <$> SS.userSessions st !! u)
               /\ SS.ud_sessionIds d =
                  let old := default [] (SS.ud_sessionIds <$> SS.userSessions st !! u) in
                  if SS.includes (SS.id s') old then old else old ++ [SS.id s']
           else SS.userSessions st' = SS.userSessions st
       | None => SS.userSessions st' = SS.userSessions st
       end).
  { unfold SS.createSession. simpl.
    destruct userId as [u|]; [|done].
    destruct (truthy u); [|done].
    match goal with
    | |- context [SS.associateSessionWithUser clock ?sid ?u ?st1] =>
        destruct (associateSessionWithUser_index sid u st1) as (Hs & Hc & Hd)
    end.
    split_and!; [exact Hs|exact Hc|exact Hd]. }
  destruct Htables as (Hsess & Hconn & Husers).
  exact (file_session_invariant st _ s' Hinv Hsess Hconn Husers).
Qed.

Lemma get_delete_eq {V} (k : jstring) (m : JSMap.t V) :
  NoDup (JSMap.keys m) -> JSMap.get k (JSMap.delete k m) = None.
Proof.
  induction m as [|[k0 v0] m IH]; simpl; [done|].
  intros Hnd. apply NoDup_cons in Hnd as [Hk0 Hnd].
  destruct (decide (k0 = k)) as [->|Hne]; simpl.
  - by apply get_not_in_keys.
  - rewrite decide_False by done. by apply IH.
Qed.

Lemma get_delete_ne {V} (k k' : jstring) (m : JSMap.t V) :
  k <> k' -> JSMap.get k' (JSMap.delete k m) = JSMap.get k' m.
Proof.
  intros Hne. induction m as [|[k0 v0] m IH]; simpl; [done|].
  destruct (decide (k0 = k)) as [->|Hne0]; simpl.
  - by rewrite decide_False.
  - by rewrite IH.
Qed.

(** What [clearSession] does to the three tables. *)
Lemma clearSession_tables sid st :
  let st' := SS.clearSession sid st in
  SS.sessions st' = JSMap.delete sid (SS.sessions st)
  /\ SS.clientConnections st' = SS.clientConnections st
  /\ SS.maxMessages st' = SS.maxMessages st
  /\ match SS.getSession sid st with
     | Some s =>
         match SS.userId (SS.smeta s) with
         | Some u =>
             if truthy u then
               match SS.userSessions st !! u with
               | Some d =>
                   let ids := filter (fun i => i <> sid) (SS.ud_sessionIds d) in
                   if (length ids =? 0)%nat
                   then SS.userSessions st' = delete u (SS.userSessions st)
                   else SS.userSessions st'
                        = <[u := SS.mkUserData (SS.ud_userId d) ids
                                   (SS.ud_createdAt d) (SS.ud_lastActive d)]>
                            (SS.userSessions st)
               | None => SS.userSessions st' = SS.userSessions st
               end
             else SS.userSessions st' = SS.userSessions st
         | None => SS.userSessions st' = SS.userSessions st
         end
     | None => SS.userSessions st' = SS.userSessions st
     end.
Proof.
  unfold SS.clearSession.
  destruct (SS.getSession sid st) as [s|]; [|done].
  destruct (SS.userId (SS.smeta s)) as [u|]; [|done].
  destruct (truthy u); [|done].
  destruct (SS.userSessions st !! u) as [d|]; [|done].
  by destruct (length _ =? 0)%nat.
Qed.

Lemma clearSession_invariant sid st :
  Laws.invariant st -> Laws.invariant (SS.clearSession sid st).
Proof.
  intros (Hwf & Hui & Hidx & Hci).
  destruct (clearSession_tables sid st) as (Hsess & Hconn & _ & Husers).
  set (st' := SS.clearSession sid st) in *.
  assert (Hwf' : Spec.store_wf st') by by apply clearSession_wf.
  assert (Hci' : Laws.connection_index_wf st').
  { unfold Laws.connection_index_wf. by rewrite Hconn. }
  assert (Hkept : forall k s, JSMap.get k (SS.sessions st') = Some s ->
                    k <> sid /\ JSMap.get k (SS.sessions st) = Some s).
  { intros k s Hget. rewrite Hsess in Hget. split.
    - intros ->. rewrite get_delete_eq in Hget by apply Hwf. done.
    - by eapply get_delete_Some; [apply Hwf|]. }
  assert (Hplain : SS.userSessions st' = SS.userSessions st -> Laws.invariant st').
  { intros Hsame. split_and!; [done| | |done].
    - unfold Laws.user_index_wf. by rewrite Hsame.
    - intros k s u Hget Hu Htruthy. rewrite Hsame.
      destruct (Hkept k s Hget) as [_ Hget0]. by eapply Hidx. }
  unfold SS.getSession in Husers.
  destruct (JSMap.get sid (SS.sessions st)) as [s0|] eqn:Hs0; [|by apply Hplain].
  destruct (SS.userId (SS.smeta s0)) as [u|] eqn:Hu0; [|by apply Hplain].
  destruct (truthy u) eqn:Htruthy; [|by apply Hplain].
  destruct (SS.userSessions st !! u) as [d|] eqn:Hd; [|by apply Hplain].
  cbv zeta in Husers.
  destruct (Hui u d Hd) as (Hduid & _ & Hdnd & _).
  set (ids := filter (fun i => i <> sid) (SS.ud_sessionIds d)) in *.
  assert (Hids : forall k, k ∈ SS.ud_sessionIds d -> k <> sid -> k ∈ ids).
  { intros k Hk Hne. apply list_elem_of_filter. done. }
  destruct (Nat.eqb_spec (length ids) 0) as [Hlen|Hlen].
  - split_and!; [done| | |done].
    + intros u' d' Hlook. rewrite Husers in Hlook.
      apply lookup_delete_Some in Hlook as [Hne Hlook]. by apply Hui.
    + intros k s u' Hget Hu' Htruthy'.
      destruct (Hkept k s Hget) as [Hne Hget0].
      destruct (Hidx k s u' Hget0 Hu' Htruthy') as (d' & Hd' & Hk).
      rewrite Husers. exists d'. split; [|done].
      apply lookup_delete_Some. split; [|done].
      intros <-. assert (d' = d) as -> by congruence.
      specialize (Hids k Hk Hne). apply nil_length_inv in Hlen.
      rewrite Hlen in Hids. by apply elem_of_nil in Hids.
  - split_and!; [done| | |done].
    + intros u' d' Hlook. rewrite Husers in Hlook.
      destruct (decide (u = u')) as [<-|Hne].
      * rewrite lookup_insert_eq in Hlook. inversion Hlook; subst d'. simpl.
        split_and!; [done|done|by apply NoDup_filter|].
        intros Hnil. apply Hlen. by rewrite Hnil.
      * rewrite lookup_insert_ne in Hlook by done. by apply Hui.
    + intros k s u' Hget Hu' Htruthy'.
      destruct (Hkept k s Hget) as [Hne Hget0].
      destruct (Hidx k s u' Hget0 Hu' Htruthy') as (d' & Hd' & Hk).
      rewrite Husers.
      destruct (decide (u = u')) as [<-|Hneu].
      * rewrite lookup_insert_eq. eexists. split; [done|]. simpl.
        assert (d' = d) as -> by congruence. by apply Hids.
      * exists d'. by rewrite lookup_insert_ne.
Qed.

(** What [getOrCreateClientConnection] does to the connection index. *)
Lemma getOrCreateClientConnection_index ip ua st :
  let r := SS.getOrCreateClientConnection clock ip ua st in
  let fp := Spec.connection_key ip ua in
  SS.sessions r.2 = SS.sessions st
  /\ SS.userSessions r.2 = SS.userSessions st
  /\ SS.maxMessages r.2 = SS.maxMessages st
  /\ SS.clientConnections r.2 = <[fp := r.1]> (SS.clientConnections st)
  /\ SS.fingerprint r.1
     = default fp (SS.fingerprint <$> SS.clientConnections st !! fp)
  /\ SS.ipHash r.1
     = default (SS.createSimpleHash (or_default (Some ip) (js "unknown")))
               (SS.ipHash <$> SS.clientConnections st !! fp)
  /\ SS.userAgentHash r.1
     = default (SS.createSimpleHash (or_default ua (js "unknown")))
               (SS.userAgentHash <$> SS.clientConnections st !! fp)
  /\ SS.conn_sessionIds r.1
     = default [] (SS.conn_sessionIds <$> SS.clientConnections st !! fp)
  /\ SS.firstSeen r.1
     = default (clock (SS.ticks st))
               (SS.firstSeen <$> SS.clientConnections st !! fp)
  /\ exists t, (SS.ticks st <= t)%nat /\ SS.lastSeen r.1 = clock t.
Proof.
  unfold SS.getOrCreateClientConnection.
  fold (Spec.connection_key ip ua).
  generalize (Spec.connection_key ip ua)
    (SS.createSimpleHash (or_default (Some ip) (js "unknown")))
    (SS.createSimpleHash (or_default ua (js "unknown"))).
  intros fp h1 h2.
  destruct (SS.clientConnections st !! fp) as [conn|] eqn:Hfp.
  - rewrite Hfp. cbn. split_and!; try done. by exists (SS.ticks st).
  - cbn. rewrite lookup_insert_eq. cbn. rewrite insert_insert_eq.
    split_and!; try done. exists (S (S (SS.ticks st))). split; [lia|done].
Qed.

Lemma connection_record_invariant st st' fp (c : SS.ClientConnectionFingerprint) :
  Laws.invariant st ->
  SS.sessions st' = SS.sessions st ->
  SS.userSessions st' = SS.userSessions st ->
  SS.clientConnections st' = <[fp := c]> (SS.clientConnections st) ->
  SS.fingerprint c = fp ->
  fp = SS.ipHash c ++ js "_" ++ SS.userAgentHash c ->
  Laws.underscore ∉ SS.ipHash c ->
  NoDup (SS.conn_sessionIds c) ->
  Laws.invariant st'.
Proof.
  intros (Hwf & Hui & Hidx & Hci) Hsess Husers Hconn Hfp Hjoin Hunder Hnd.
  split_and!.
  - by eapply wf_sessions.
  - unfold Laws.user_index_wf. by rewrite Husers.
  - unfold Laws.users_indexed. by rewrite Hsess, Husers.
  - intros fp' c' Hlook. rewrite Hconn in Hlook.
    destruct (decide (fp = fp')) as [<-|Hne].
    + rewrite lookup_insert_eq in Hlook. by inversion Hlook; subst.
    + rewrite lookup_insert_ne in Hlook by done. by apply Hci.
Qed.

Lemma connection_fields st ip ua :
  Laws.connection_index_wf st ->
  let fp := Spec.connection_key ip ua in
  default fp (SS.fingerprint <$> SS.clientConnections st !! fp) = fp
  /\ fp = default (SS.createSimpleHash (or_default (Some ip) (js "unknown")))
                  (SS.ipHash <$> SS.clientConnections st !! fp)
          ++ js "_"
          ++ default (SS.createSimpleHash (or_default ua (js "unknown")))
                     (SS.userAgentHash <$> SS.clientConnections st !! fp)
  /\ (Laws.underscore
      ∉ default (SS.createSimpleHash (or_default (Some ip) (js "unknown")))
                (SS.ipHash <$> SS.clientConnections st !! fp))
  /\ NoDup (default [] (SS.conn_sessionIds <$> SS.clientConnections st !! fp)).
Proof.
  intros Hci fp.
  destruct (SS.clientConnections st !! fp) as [c|] eqn:Hc; simpl.
  - destruct (Hci fp c Hc) as (H1 & H2 & H3 & H4). done.
  - split_and!; [done|done| |apply NoDup_nil_2].
    rewrite <- createSimpleHash_same. apply createSimpleHash_no_underscore.
Qed.

Lemma getOrCreateClientConnection_invariant ip ua st :
  Laws.invariant st ->
  Laws.invariant (SS.getOrCreateClientConnection clock ip ua st).2.
Proof.
  intros Hinv.
  destruct (getOrCreateClientConnection_index ip ua st)
    as (Hsess & Husers & _ & Hconn & Hfp & Hip & Hua & Hids & _).
  destruct (connection_fields st ip ua (proj2 (proj2 (proj2 Hinv))))
    as (Hfp' & Hjoin & Hunder & Hnd).
  eapply connection_record_invariant; [exact Hinv|exact Hsess|exact Husers|exact Hconn|..].
  - by rewrite Hfp.
  - by rewrite Hip, Hua.
  - by rewrite Hip.
  - by rewrite Hids.
Qed.

(** What [associateSessionWithClientConnection] does to the index. *)
Lemma associateSessionWithClientConnection_index sid ip ua st :
  let st' := SS.associateSessionWithClientConnection clock sid ip ua st in
  let fp := Spec.connection_key ip ua in
  let old := default [] (SS.conn_sessionIds <$> SS.clientConnections st !! fp) in
  SS.sessions st' = SS.sessions st
  /\ SS.userSessions st' = SS.userSessions st
  /\ SS.maxMessages st' = SS.maxMessages st
  /\ exists c,
       SS.clientConnections st' = <[fp := c]> (SS.clientConnections st)
       /\ SS.fingerprint c
          = default fp (SS.fingerprint <$> SS.clientConnections st !! fp)
       /\ SS.ipHash c
          = default (SS.createSimpleHash (or_default (Some ip) (js "unknown")))
                    (SS.ipHash <$> SS.clientConnections st !! fp)
       /\ SS.userAgentHash c
          = default (SS.createSimpleHash (or_default ua (js "unknown")))
                    (SS.userAgentHash <$> SS.clientConnections st !! fp)
       /\ SS.conn_sessionIds c
          = (if SS.includes sid old then old else old ++ [sid])
       /\ SS.firstSeen c
          = default (clock (SS.ticks st))
                    (SS.firstSeen <$> SS.clientConnections st !! fp).
Proof.
  intros st' fp old. subst st'.
  unfold SS.associateSessionWithClientConnection.
  pose proof (getOrCreateClientConnection_index ip ua st) as Hget.
  fold (Spec.connection_key ip ua). fold fp.
  destruct (SS.getOrCreateClientConnection clock ip ua st) as [conn st1].
  simpl in Hget. fold fp in Hget.
  destruct Hget as (Hsess & Husers & Hmax & Hconn & Hfp & Hip & Hua & Hids & Hfirst & _).
  fold old in Hids. rewrite Hids.
  destruct (SS.includes sid old) eqn:Hinc.
  - split_and!; [done|done|done|]. exists conn.
    split_and!; done.
  - simpl. split_and!; [done|done|done|]. eexists.
    split_and!; [by rewrite Hconn, insert_insert_eq|done..].
Qed.

Lemma associateSessionWithClientConnection_invariant sid ip ua st :
  Laws.invariant st ->
  Laws.invariant (SS.associateSessionWithClientConnection clock sid ip ua st).
Proof.
  intros Hinv.
  destruct (associateSessionWithClientConnection_index sid ip ua st)
    as (Hsess & Husers & _ & c & Hconn & Hfp & Hip & Hua & Hids & _).
  destruct (connection_fields st ip ua (proj2 (proj2 (proj2 Hinv))))
    as (Hfp' & Hjoin & Hunder & Hnd).
  eapply connection_record_invariant; [exact Hinv|exact Hsess|exact Husers|exact Hconn|..].
  - by rewrite Hfp.
  - by rewrite Hip, Hua.
  - by rewrite Hip.
  - rewrite Hids. by apply push_unless_included_NoDup.
Qed.

Lemma sweep_fold_invariant (P : jstring -> SS.Session -> bool)
    (ks : list jstring) (acc : SS.Store * Z) :
  Laws.invariant acc.1 ->
  Laws.invariant (fold_left (Spec.sweep_step clock P) ks acc).1.
Proof.
  revert acc. induction ks as [|k ks IH]; intros acc Hinv; simpl; [done|].
  apply IH. unfold Spec.sweep_step.
  destruct (SS.getSession k acc.1) as [s|]; [|done].
  unfold Spec.sweep_body. destruct (P k s); [|done].
  simpl. by apply saveSession_invariant.
Qed.

Lemma addMessage_invariant sid m st :
  Laws.invariant st -> Laws.invariant (SS.addMessage clock sid m st).
Proof.
  intros Hinv. rewrite addMessage_unfold. unfold Spec.opened.
  destruct (SS.getSession sid st) as [s|].
  - by apply saveSession_invariant.
  - pose proof (createSession_invariant sid None None st Hinv) as Hcreated.
    destruct (SS.createSession clock sid None None st) as [s st1].
    by apply saveSession_invariant.
Qed.

Lemma updateMetadata_invariant sid partial st :
  Laws.invariant st -> Laws.invariant (SS.updateMetadata clock sid partial st).
Proof.
  intros Hinv. unfold SS.updateMetadata.
  destruct (SS.getSession sid st) as [s|]; [|done]. simpl.
  match goal with
  | |- Laws.invariant (if _ then SS.associateSessionWithClientConnection _ _ _ _ ?st1
                       else _) =>
      assert (Hsaved : Laws.invariant st1)
        by (apply saveSession_invariant; exact Hinv)
  end.
  destruct (_ || _); [|exact Hsaved].
  by apply associateSessionWithClientConnection_invariant.
Qed.

Lemma perform_invariant st (op : Spec.operation) :
  Laws.invariant st -> Laws.invariant (Spec.perform clock st op).
Proof.
  intros Hinv. destruct op; simpl.
  - by apply createSession_invariant.
  - by apply saveSession_invariant.
  - by apply addMessage_invariant.
  - by apply updateMetadata_invariant.
  - unfold SS.clearSessionMessages.
    destruct (SS.getSession sessionId st); [by apply saveSession_invariant|done].
  - rewrite clearSessionMessagesByPattern_unfold. simpl.
    by apply (sweep_fold_invariant _ _ (st, 0)).
  - rewrite clearInactiveSessions_unfold. simpl.
    apply (sweep_fold_invariant _ _ (_, 0)). exact Hinv.
  - by apply clearSession_invariant.
  - destruct Hinv as (_ & _ & _ & Hci). split_and!.
    + split; simpl; [apply NoDup_nil_2|done].
    + intros u d Hlook. simpl in Hlook. by rewrite lookup_empty in Hlook.
    + intros k s u Hget. simpl in Hget. done.
    + exact Hci.
  - by apply getOrCreateClientConnection_invariant.
  - by apply associateSessionWithClientConnection_invariant.
Qed.

Lemma new_invariant (W : Z) : Laws.invariant (SS.new W).
Proof.
  split_and!.
  - apply new_wf.
  - intros u d Hlook. simpl in Hlook. by rewrite lookup_empty in Hlook.
  - intros k s u Hget. simpl in Hget. done.
  - intros fp c Hlook. simpl in Hlook. by rewrite lookup_empty in Hlook.
Qed.

Lemma reachable_invariant (W : Z) st :
  Spec.reachable clock W st -> Laws.invariant st.
Proof.
  intros [ops ->]. induction ops as [|op ops IH] using rev_ind.
  - apply new_invariant.
  - rewrite fold_left_app. simpl. by apply perform_invariant.
Qed.

End IndexFacts.

(** ** What the invariant gives the callers of the store *)

Lemma busy_store_reachable :
  Spec.reachable Samples.tick_clock 4 Examples.busy_store.
Proof. by exists Examples.busy_ops. Qed.

Lemma hasSession_keys (k : jstring) (st : SS.Store) :
  SS.hasSession k st = true <-> k ∈ SS.getAllSessionIds st.
Proof.
  unfold SS.hasSession, JSMap.has, SS.getAllSessionIds.
  destruct (JSMap.get k (SS.sessions st)) as [s|] eqn:Hget.
  - split; [intros _; by eapply get_Some_keys|done].
  - split; [done|]. intros Hin. by apply get_None_keys in Hget.
Qed.

(** X7.  In every store a program can reach through the operations of the
    class, the session table holds each identifier once and every session
    is filed under its own identifier: [getAllSessionIds] has no
    duplicates, [getSessionCount] is its length, [getSession(k)] returns a
    session whose [id] is [k], and [hasSession(k)] holds exactly for the
    listed identifiers; for any other identifier [getMessages] is empty and
    [getMetadata] is [null]. *)
Theorem session_table_consistent (clock : nat -> Z) (W : Z) (st : SS.Store) :
  Spec.reachable clock W st ->
  NoDup (SS.getAllSessionIds st)
  /\ SS.getSessionCount st = Z.of_nat (length (SS.getAllSessionIds st))
  /\ (forall k s, SS.getSession k st = Some s -> SS.id s = k)
  /\ (forall k, SS.hasSession k st = true <-> k ∈ SS.getAllSessionIds st)
  /\ (forall k, SS.hasSession k st = false ->
        SS.getMessages k st = [] /\ SS.getMetadata k st = None).
Proof.
  intros Hreach. destruct (reachable_wf clock W st Hreach) as [Hnd Hid].
  split_and!.
  - exact Hnd.
  - unfold SS.getSessionCount, SS.getAllSessionIds, JSMap.keys.
    by rewrite length_map.
  - exact Hid.
  - intros k. apply hasSession_keys.
  - intros k. unfold SS.hasSession, JSMap.has, SS.getMessages, SS.getMetadata,
      SS.getSession.
    by destruct (JSMap.get k (SS.sessions st)).
Qed.

Lemma session_table_consistent_witness :
  NoDup (SS.getAllSessionIds Examples.busy_store)
  /\ SS.getSessionCount Examples.busy_store
     = Z.of_nat (length (SS.getAllSessionIds Examples.busy_store))
  /\ (forall k s, SS.getSession k Examples.busy_store = Some s -> SS.id s = k)
  /\ (forall k, SS.hasSession k Examples.busy_store = true
                <-> k ∈ SS.getAllSessionIds Examples.busy_store)
  /\ (forall k, SS.hasSession k Examples.busy_store = false ->
        SS.getMessages k Examples.busy_store = []
        /\ SS.getMetadata k Examples.busy_store = None).
Proof.
  apply (session_table_consistent Samples.tick_clock 4 Examples.busy_store).
  exists Examples.busy_ops. reflexivity.
Defined.

Lemma omap_getSession_NoDup (st : SS.Store) (ids : list jstring) :
  Spec.store_wf st -> NoDup ids ->
  NoDup (omap (fun sessionId => SS.getSession sessionId st) ids).
Proof.
  intros [_ Hid] Hnd. induction Hnd as [|k ids Hk Hnd IH]; simpl.
  - apply NoDup_nil_2.
  - destruct (SS.getSession k st) as [s|] eqn:Hget; [|exact IH].
    apply NoDup_cons. split; [|exact IH].
    intros Hin. apply list_elem_of_omap in Hin as (k' & Hk' & Hget').
    assert (k' = k) as -> by (rewrite <- (Hid _ _ Hget), <- (Hid _ _ Hget'); done).
    done.
Qed.

(** X8.  In every reachable store, [getUserSessions(u)] returns only
    sessions that are stored (each under its own identifier), returns none
    twice, and misses none: every stored session whose [userId] is the
    non-empty [u] is in the list. *)
Theorem getUserSessions_complete (clock : nat -> Z) (W : Z) (st : SS.Store) :
  Spec.reachable clock W st ->
  forall u : jstring,
    NoDup (SS.getUserSessions u st)
    /\ (forall s, s ∈ SS.getUserSessions u st -> SS.getSession (SS.id s) st = Some s)
    /\ (forall k s, SS.getSession k st = Some s ->
          SS.userId (SS.smeta s) = Some u -> u <> [] ->
          s ∈ SS.getUserSessions u st).
Proof.
  intros Hreach u.
  destruct (reachable_invariant clock W st Hreach) as (Hwf & Hui & Hidx & _).
  unfold SS.getUserSessions. split_and!.
  - destruct (SS.userSessions st !! u) as [d|] eqn:Hd; [|apply NoDup_nil_2].
    apply omap_getSession_NoDup; [done|]. by apply (Hui u d Hd).
  - intros s Hin.
    destruct (SS.userSessions st !! u) as [d|]; [|by apply elem_of_nil in Hin].
    apply list_elem_of_omap in Hin as (k & _ & Hget).
    by rewrite (proj2 Hwf _ _ Hget).
  - intros k s Hget Hu Hne.
    assert (Htruthy : truthy u = true) by by destruct u.
    destruct (Hidx k s u Hget Hu Htruthy) as (d & -> & Hk).
    apply list_elem_of_omap. by exists k.
Qed.

Lemma getUserSessions_complete_witness :
  NoDup (SS.getUserSessions (js "u1") Examples.busy_store)
  /\ (forall s, s ∈ SS.getUserSessions (js "u1") Examples.busy_store ->
        SS.getSession (SS.id s) Examples.busy_store = Some s)
  /\ (forall k s, SS.getSession k Examples.busy_store = Some s ->
        SS.userId (SS.smeta s) = Some (js "u1") -> js "u1" <> [] ->
        s ∈ SS.getUserSessions (js "u1") Examples.busy_store).
Proof.
  refine (getUserSessions_complete Samples.tick_clock 4 Examples.busy_store _
            (js "u1")).
  exists Examples.busy_ops. reflexivity.
Defined.

(** X9.  In every reachable store the connection record returned for an
    address and a user agent carries their two hashes and, as fingerprint,
    the text [getClientConnectionFingerprint] computes for them, also when
    the record was created by an earlier call; it lists no session twice,
    an existing record keeps its [firstSeen] and its sessions, and the
    record is the one then filed under the fingerprint. *)
Theorem getOrCreateClientConnection_record
    (clock : nat -> Z) (W : Z) (st : SS.Store)
    (ip : jstring) (ua : option jstring) :
  Spec.reachable clock W st ->
  let r := SS.getOrCreateClientConnection clock ip ua st in
  let fp := RequestUtils.getClientConnectionFingerprint ip ua in
  SS.fingerprint r.1 = fp
  /\ SS.ipHash r.1 = RequestUtils.createSimpleHash (or_default (Some ip) (js "unknown"))
  /\ SS.userAgentHash r.1 = RequestUtils.createSimpleHash (or_default ua (js "unknown"))
  /\ NoDup (SS.conn_sessionIds r.1)
  /\ SS.clientConnections r.2 !! fp = Some r.1
  /\ (forall c, SS.clientConnections st !! fp = Some c ->
        SS.firstSeen r.1 = SS.firstSeen c
        /\ SS.conn_sessionIds r.1 = SS.conn_sessionIds c).
Proof.
  intros Hreach r fp.
  destruct (reachable_invariant clock W st Hreach) as (_ & _ & _ & Hci).
  assert (Hkey : Spec.connection_key ip ua = fp).
  { reflexivity. }
  destruct (getOrCreateClientConnection_index clock ip ua st)
    as (_ & _ & _ & Hconn & Hfp & Hip & Hua & Hids & Hfirst & _).
  fold r in Hconn, Hfp, Hip, Hua, Hids, Hfirst.
  rewrite Hkey in Hconn, Hfp, Hip, Hua, Hids, Hfirst.
  assert (Hhashes :
    SS.ipHash r.1 = RequestUtils.createSimpleHash (or_default (Some ip) (js "unknown"))
    /\ SS.userAgentHash r.1 = RequestUtils.createSimpleHash (or_default ua (js "unknown"))).
  { rewrite Hip, Hua.
    destruct (SS.clientConnections st !! fp) as [c|] eqn:Hc; simpl.
    - destruct (Hci fp c Hc) as (_ & Hjoin & Hunder & _).
      symmetry in Hjoin.
      exact (app_separator_inj Laws.underscore _ _ _ _ Hunder
               (createSimpleHash_no_underscore _) Hjoin).
    - done. }
  split_and!.
  - rewrite Hfp. destruct (SS.clientConnections st !! fp) as [c|] eqn:Hc; simpl; [|done].
    by apply (Hci fp c Hc).
  - apply Hhashes.
  - apply Hhashes.
  - rewrite Hids. destruct (SS.clientConnections st !! fp) as [c|] eqn:Hc; simpl.
    + by apply (Hci fp c Hc).
    + apply NoDup_nil_2.
  - rewrite Hconn. apply lookup_insert_eq.
  - intros c Hc. rewrite Hfirst, Hids, Hc. done.
Qed.

Lemma getOrCreateClientConnection_record_witness :
  let r := SS.getOrCreateClientConnection Samples.tick_clock (js "203.0.113.7")
             (Some (js "Mozilla/5.0")) Examples.busy_store in
  let fp := RequestUtils.getClientConnectionFingerprint (js "203.0.113.7")
              (Some (js "Mozilla/5.0")) in
  SS.fingerprint r.1 = fp
  /\ SS.ipHash r.1
     = RequestUtils.createSimpleHash (or_default (Some (js "203.0.113.7")) (js "unknown"))
  /\ SS.userAgentHash r.1
     = RequestUtils.createSimpleHash (or_default (Some (js "Mozilla/5.0")) (js "unknown"))
  /\ NoDup (SS.conn_sessionIds r.1)
  /\ SS.clientConnections r.2 !! fp = Some r.1
  /\ (forall c, SS.clientConnections Examples.busy_store !! fp = Some c ->
        SS.firstSeen r.1 = SS.firstSeen c
        /\ SS.conn_sessionIds r.1 = SS.conn_sessionIds c).
Proof.
  apply (getOrCreateClientConnection_record Samples.tick_clock 4 Examples.busy_store
           (js "203.0.113.7") (Some (js "Mozilla/5.0"))).
  exists Examples.busy_ops. reflexivity.
Defined.

(** X10.  In every reachable store, [getClientConnectionSessions] returns
    only sessions that are stored, each under its own identifier, and
    none twice; identifiers the connection lists that are no longer filed
    are left out. *)
Theorem getClientConnectionSessions_sound (clock : nat -> Z) (W : Z) (st : SS.Store)
    (ip : jstring) (ua : option jstring) :
  Spec.reachable clock W st ->
  NoDup (SS.getClientConnectionSessions ip ua st)
  /\ (forall s, s ∈ SS.getClientConnectionSessions ip ua st ->
        SS.getSession (SS.id s) st = Some s)
  /\ (forall c,
        SS.clientConnections st
          !! RequestUtils.getClientConnectionFingerprint ip ua = Some c ->
        SS.id <$> SS.getClientConnectionSessions ip ua st
        = List.filter (fun k => SS.hasSession k st) (SS.conn_sessionIds c)).
Proof.
  intros Hreach.
  destruct (reachable_invariant clock W st Hreach) as (Hwf & _ & _ & Hci).
  unfold SS.getClientConnectionSessions.
  change (SS.createSimpleHash (or_default (Some ip) (js "unknown")) ++ js "_"
          ++ SS.createSimpleHash (or_default ua (js "unknown")))
    with (RequestUtils.getClientConnectionFingerprint ip ua).
  destruct (SS.clientConnections st !! _) as [c|] eqn:Hc.
  - split_and!.
    + apply omap_getSession_NoDup; [done|]. by apply (Hci _ c Hc).
    + intros s Hin. apply list_elem_of_omap in Hin as (k & _ & Hget).
      by rewrite (proj2 Hwf _ _ Hget).
    + intros c' Hc'. inversion Hc'; subst c'.
      induction (SS.conn_sessionIds c) as [|k ids IH]; [done|].
      simpl. unfold SS.hasSession, JSMap.has. unfold SS.getSession at 1.
      destruct (JSMap.get k (SS.sessions st)) as [s|] eqn:Hget; [|exact IH].
      rewrite fmap_cons. f_equal; [by apply (proj2 Hwf)|exact IH].
  - split_and!; [apply NoDup_nil_2| |done].
    intros s Hin. by apply elem_of_nil in Hin.
Qed.

Lemma getClientConnectionSessions_sound_witness :
  let sessions := SS.getClientConnectionSessions (js "203.0.113.7")
                    (Some (js "Mozilla/5.0")) Examples.busy_store in
  NoDup sessions
  /\ (forall s, s ∈ sessions -> SS.getSession (SS.id s) Examples.busy_store = Some s)
  /\ (forall c,
        SS.clientConnections Examples.busy_store
          !! RequestUtils.getClientConnectionFingerprint (js "203.0.113.7")
               (Some (js "Mozilla/5.0")) = Some c ->
        SS.id <$> sessions
        = List.filter (fun k => SS.hasSession k Examples.busy_store)
                      (SS.conn_sessionIds c)).
Proof.
  apply (getClientConnectionSessions_sound Samples.tick_clock 4 Examples.busy_store
           (js "203.0.113.7") (Some (js "Mozilla/5.0"))).
  exists Examples.busy_ops. reflexivity.
Defined.

(** The session of the sample connection is the one the update filed. *)
Example busy_store_connection :
  SS.id <$> SS.getClientConnectionSessions (js "203.0.113.7")
              (Some (js "Mozilla/5.0")) Examples.busy_store
  = [js "a"]
  /\ SS.id <$> SS.getUserSessions (js "u1") Examples.busy_store = [js "a"]
  /\ SS.getAllSessionIds Examples.busy_store = [js "a"].
Proof. vm_compute. split_and!; reflexivity. Qed.

(** ** Single operations of the store *)

Section OperationFacts.
Variable clock : nat -> Z.
Implicit Types (st : SS.Store) (s : SS.Session) (sid u : jstring).

Lemma createSession_tables sid (userId : option jstring) extra st :
  let r := SS.createSession clock sid userId extra st in
  r.1 = Laws.fresh clock (SS.ticks st) sid userId extra
  /\ SS.sessions r.2 = JSMap.set sid r.1 (SS.sessions st)
  /\ SS.clientConnections r.2 = SS.clientConnections st
  /\ SS.maxMessages r.2 = SS.maxMessages st
  /\ match userId with
     | Some u =>
         if truthy u then
           exists d, SS.userSessions r.2 !! u = Some d /\ sid ∈ SS.ud_sessionIds d
         else SS.userSessions r.2 = SS.userSessions st
     | None => SS.userSessions r.2 = SS.userSessions st
     end.
Proof.
  unfold SS.createSession. simpl.
  destruct userId as [u|]; [|done].
  destruct (truthy u); [|done].
  match goal with
  | |- context [SS.associateSessionWithUser clock ?sid ?u ?st1] =>
      destruct (associateSessionWithUser_index clock sid u st1)
        as (Hs & Hc & d & Hm & _ & Hids);
      destruct (associateSessionWithUser_frame clock sid u st1) as (_ & Hmax & _)
  end.
  split_and!; [done|exact Hs|exact Hc|exact Hmax|].
  exists d. rewrite Hm, lookup_insert_eq. split; [done|].
  rewrite Hids. apply push_unless_included_elem.
Qed.

(** X11.  [createSession(sessionId, userId, extra)] files a new, empty
    session of type general under [sessionId], also when one is filed
    there already: the earlier history and metadata are discarded, the
    identifier keeps its place in the table (a new one goes to the end),
    and no other session changes.  With a non-empty [userId] the new
    session is then among [getUserSessions(userId)]. *)
Theorem createSession_replaces sid (userId : option jstring)
    (extra : option (list (jstring * jstring))) st :
  let r := SS.createSession clock sid userId extra st in
  r.1 = Laws.fresh clock (SS.ticks st) sid userId extra
  /\ SS.getSession sid r.2 = Some r.1
  /\ SS.getMessages sid r.2 = []
  /\ (forall k, k <> sid -> SS.getSession k r.2 = SS.getSession k st)
  /\ SS.getAllSessionIds r.2
     = (if SS.hasSession sid st then SS.getAllSessionIds st
        else SS.getAllSessionIds st ++ [sid])
  /\ (forall u, userId = Some u -> u <> [] -> r.1 ∈ SS.getUserSessions u r.2)
  /\ SS.clientConnections r.2 = SS.clientConnections st.
Proof.
  intros r. destruct (createSession_tables sid userId extra st)
    as (Hfresh & Hsess & Hconn & _ & Husers).
  fold r in Hfresh, Hsess, Hconn, Husers. clearbody r.
  assert (Hget : SS.getSession sid r.2 = Some r.1).
  { unfold SS.getSession. rewrite Hsess. apply get_set_eq. }
  split_and!.
  - exact Hfresh.
  - exact Hget.
  - unfold SS.getMessages. rewrite Hget, Hfresh. done.
  - intros k Hne. unfold SS.getSession. rewrite Hsess. by apply get_set_ne.
  - unfold SS.getAllSessionIds. rewrite Hsess.
    destruct (SS.hasSession sid st) eqn:Hhas.
    + apply keys_set_present. by apply hasSession_keys.
    + apply keys_set_absent. intros Hin. apply hasSession_keys in Hin. congruence.
  - intros u -> Hne. destruct u as [|c u]; [done|]. simpl in Husers.
    destruct Husers as (d & Hd & Hin).
    unfold SS.getUserSessions. rewrite Hd.
    apply list_elem_of_omap. by exists sid.
  - exact Hconn.
Qed.

(** X12.  [saveSession(session)] files the session under its own
    identifier with [lastActive] set to the clock reading of the call,
    replacing what was filed there; no other session, no connection record
    and not the window size change.  When the session has a non-empty
    [userId], it is afterwards among [getUserSessions(userId)]. *)
Theorem saveSession_files s st :
  let st' := SS.saveSession clock s st in
  let saved := SS.mkSession (SS.id s) (SS.messages s)
                 (SS.set_lastActive (clock (SS.ticks st)) (SS.smeta s)) in
  SS.getSession (SS.id s) st' = Some saved
  /\ (forall k, k <> SS.id s -> SS.getSession k st' = SS.getSession k st)
  /\ (forall u, SS.userId (SS.smeta s) = Some u -> u <> [] ->
        saved ∈ SS.getUserSessions u st')
  /\ SS.clientConnections st' = SS.clientConnections st
  /\ SS.maxMessages st' = SS.maxMessages st.
Proof.
  intros st' saved.
  assert (Hget : SS.getSession (SS.id s) st' = Some saved).
  { unfold st'. rewrite getSession_saveSession. by rewrite decide_True. }
  split_and!.
  - exact Hget.
  - intros k Hne. unfold st'. rewrite getSession_saveSession.
    by rewrite decide_False.
  - intros u Hu Hne. unfold SS.getUserSessions.
    assert (Hidx : exists d, SS.userSessions st' !! u = Some d
                             /\ SS.id s ∈ SS.ud_sessionIds d).
    { unfold st', SS.saveSession. simpl. rewrite Hu.
      destruct u as [|c u]; [done|]. simpl.
      match goal with
      | |- context [SS.associateSessionWithUser clock ?sid ?u ?st1] =>
          destruct (associateSessionWithUser_index clock sid u st1)
            as (_ & _ & d & Hm & _ & Hids)
      end.
      exists d. rewrite Hm, lookup_insert_eq. split; [done|].
      rewrite Hids. apply push_unless_included_elem. }
    destruct Hidx as (d & -> & Hin).
    apply list_elem_of_omap. by exists (SS.id s).
  - unfold st', SS.saveSession. simpl.
    destruct (SS.userId (SS.smeta s)) as [u|]; [|done].
    destruct (truthy u); [|done].
    match goal with
    | |- context [SS.associateSessionWithUser clock ?sid ?u ?st1] =>
        by destruct (associateSessionWithUser_index clock sid u st1) as (_ & -> & _)
    end.
  - apply saveSession_maxMessages.
Qed.

Lemma filter_ne_absent (k : jstring) (l : list jstring) :
  k ∉ l -> filter (fun k' => k' <> k) l = l.
Proof.
  induction l as [|x l IH]; [done|].
  intros Hnin. apply not_elem_of_cons in Hnin as [Hne Hnin].
  rewrite filter_cons_True by congruence. by rewrite IH.
Qed.

Lemma keys_delete_filter {V} (k : jstring) (m : JSMap.t V) :
  NoDup (JSMap.keys m) ->
  JSMap.keys (JSMap.delete k m) = filter (fun k' => k' <> k) (JSMap.keys m).
Proof.
  induction m as [|[k0 v0] m IH]; simpl; [done|].
  intros Hnd. apply NoDup_cons in Hnd as [Hk0 Hnd].
  destruct (decide (k0 = k)) as [->|Hne]; simpl.
  - rewrite filter_cons_False by (intros Hne; by apply Hne).
    symmetry. by apply filter_ne_absent.
  - rewrite filter_cons_True by done. by rewrite IH.
Qed.

(** X13.  [clearSession(sessionId)], which is also what the [clear] method
    of a chat history and the clear route call, removes the whole session
    and not only its messages: afterwards the identifier is unknown
    ([hasSession] is false, [getSession] and [getMetadata] are [null],
    [getMessages] is empty), it is gone from [getAllSessionIds] while the
    other identifiers keep their order, no other session changes, and no
    user's session list returns a session with that identifier. *)
Theorem clearSession_forgets sid st :
  Spec.store_wf st ->
  let st' := ChatHistoryService.clear (ChatHistoryService.getHistory sid None) st in
  st' = SS.clearSession sid st
  /\ SS.hasSession sid st' = false
  /\ SS.getSession sid st' = None
  /\ SS.getMetadata sid st' = None
  /\ SS.getMessages sid st' = []
  /\ SS.getAllSessionIds st'
     = filter (fun k => k <> sid) (SS.getAllSessionIds st)
  /\ (forall k, k <> sid -> SS.getSession k st' = SS.getSession k st)
  /\ (forall u s, s ∈ SS.getUserSessions u st' -> SS.id s <> sid).
Proof.
  intros Hwf st'. unfold ChatHistoryService.clear in st'. simpl in st'.
  destruct (clearSession_tables sid st) as (Hsess & _ & _ & _).
  fold st' in Hsess.
  assert (Hget : SS.getSession sid st' = None).
  { unfold SS.getSession. rewrite Hsess. apply get_delete_eq, Hwf. }
  split_and!.
  - done.
  - unfold SS.hasSession, JSMap.has. unfold SS.getSession in Hget. by rewrite Hget.
  - exact Hget.
  - unfold SS.getMetadata. by rewrite Hget.
  - unfold SS.getMessages. by rewrite Hget.
  - unfold SS.getAllSessionIds. rewrite Hsess. apply keys_delete_filter, Hwf.
  - intros k Hne. unfold SS.getSession. rewrite Hsess. by apply get_delete_ne.
  - intros u s Hin Hid.
    pose proof (clearSession_wf sid st Hwf) as Hwf'. fold st' in Hwf'.
    unfold SS.getUserSessions in Hin.
    destruct (SS.userSessions st' !! u) as [d|]; [|by apply elem_of_nil in Hin].
    apply list_elem_of_omap in Hin as (k & _ & Hk).
    assert (k = sid) as -> by (rewrite <- Hid; symmetry; by apply (proj2 Hwf')).
    congruence.
Qed.

(** X14.  [clearAll()] empties the session table and the user index and
    nothing else: no session is left, every user's and every connection's
    session list is empty, while the connection records themselves, with
    the identifiers they list, and the window size stay as they were. *)
Theorem clearAll_keeps_connections st :
  let st' := SS.clearAll st in
  SS.getSessionCount st' = 0
  /\ SS.getAllSessionIds st' = []
  /\ (forall k, SS.getSession k st' = None)
  /\ (forall u, SS.getUserSessions u st' = [])
  /\ (forall ip ua, SS.getClientConnectionSessions ip ua st' = [])
  /\ SS.clientConnections st' = SS.clientConnections st
  /\ SS.maxMessages st' = SS.maxMessages st.
Proof.
  simpl. split_and!; try done.
  intros ip ua. unfold SS.getClientConnectionSessions. simpl.
  destruct (SS.clientConnections st !! _) as [c|]; [|done].
  induction (SS.conn_sessionIds c) as [|k ids IH]; [done|exact IH].
Qed.

(** X15.  [clearSessionMessages(sessionId)] empties the history of a filed
    session and keeps it filed in its place, under the same identifier and
    with the same metadata except [lastActive], which becomes the clock
    reading of the call; for an identifier that is not filed it does
    nothing at all (no session is created).  No other session changes. *)
Theorem clearSessionMessages_keeps_metadata sid st :
  Spec.store_wf st ->
  let st' := SS.clearSessionMessages clock sid st in
  (forall s, SS.getSession sid st = Some s ->
     SS.getSession sid st'
     = Some (SS.mkSession sid []
               (SS.set_lastActive (clock (SS.ticks st)) (SS.smeta s))))
  /\ (SS.getSession sid st = None -> st' = st)
  /\ SS.getMessages sid st' = []
  /\ SS.getAllSessionIds st' = SS.getAllSessionIds st
  /\ (forall k, k <> sid -> SS.getSession k st' = SS.getSession k st).
Proof.
  intros Hwf. simpl. unfold SS.clearSessionMessages, SS.getMessages.
  destruct (SS.getSession sid st) as [s|] eqn:Hget.
  2:{ rewrite Hget. done. }
  assert (Hid : SS.id s = sid) by by apply (proj2 Hwf).
  assert (Hnew : SS.getSession sid (SS.saveSession clock (SS.set_messages [] s) st)
                 = Some (SS.mkSession sid []
                           (SS.set_lastActive (clock (SS.ticks st)) (SS.smeta s)))).
  { rewrite getSession_saveSession. simpl. rewrite decide_True by done.
    unfold SS.set_smeta. simpl. by rewrite Hid. }
  split_and!.
  - intros s' Hs'. inversion Hs'; subst s'. exact Hnew.
  - done.
  - by rewrite Hnew.
  - unfold SS.getAllSessionIds. rewrite saveSession_sessions. simpl.
    apply keys_set_present. rewrite Hid. by eapply get_Some_keys.
  - intros k Hne. rewrite getSession_saveSession. simpl.
    rewrite decide_False by congruence. done.
Qed.

(** The address and the user agent under which [updateMetadata] files the
    session are those of the merged metadata. *)
Lemma updateMetadata_connection (base : SS.SessionMetadata)
    (partial : SS.PartialMetadata) :
  let m := SS.spread base partial in
  or_default (SS.or_else (mjoin (SS.p_ipAddress partial)) (SS.ipAddress m))
             (js "unknown")
  = or_default (SS.ipAddress m) (js "unknown")
  /\ SS.or_else (mjoin (SS.p_userAgent partial)) (SS.userAgent m) = SS.userAgent m.
Proof.
  destruct partial as [pu pc pl pua pip pt pm]. simpl. split.
  - destruct pip as [[ip|]|]; simpl; try done.
    unfold SS.or_else, or_default. destruct (truthy ip) eqn:E; by rewrite E.
  - destruct pua as [[ua|]|]; simpl; try done.
    unfold SS.or_else. by destruct (truthy ua).
Qed.

(** The session [updateMetadata] files, and the connection it is listed
    for when the update carries an address or a user agent. *)
Lemma updateMetadata_listed sid (partial : SS.PartialMetadata) st s :
  Spec.store_wf st ->
  SS.getSession sid st = Some s ->
  let st' := SS.updateMetadata clock sid partial st in
  let m := SS.spread (SS.smeta s) partial in
  let s' := SS.mkSession sid (SS.messages s)
              (SS.set_lastActive (clock (S (SS.ticks st))) m) in
  (forall k, SS.getSession k st'
             = if decide (sid = k) then Some s' else SS.getSession k st)
  /\ SS.getAllSessionIds st' = SS.getAllSessionIds st
  /\ (truthy (default [] (mjoin (SS.p_ipAddress partial)))
      || truthy (default [] (mjoin (SS.p_userAgent partial))) = true ->
      s' ∈ SS.getClientConnectionSessions
             (or_default (SS.ipAddress m) (js "unknown"))
             (SS.userAgent m) st').
Proof.
  intros Hwf Hget. simpl. unfold SS.updateMetadata. rewrite Hget.
  assert (Hid : SS.id s = sid) by by apply (proj2 Hwf).
  simpl.
  destruct (updateMetadata_connection (SS.smeta s) partial) as [Hip Hua].
  simpl in Hip, Hua.
  set (m := SS.spread (SS.smeta s) partial) in *.
  set (st0 := SS.mkStore _ _ _ _ (S (SS.ticks st))).
  set (s1 := SS.set_smeta (SS.set_lastActive (clock (SS.ticks st)) m) s).
  set (st1 := SS.saveSession clock s1 st0).
  set (s' := SS.mkSession sid (SS.messages s)
               (SS.set_lastActive (clock (S (SS.ticks st))) m)).
  assert (Hget1 : forall k, SS.getSession k st1
                            = if decide (sid = k) then Some s' else SS.getSession k st).
  { intros k. unfold st1. rewrite getSession_saveSession. simpl. rewrite Hid.
    destruct (decide (sid = k)); [|done].
    unfold s', SS.set_smeta. simpl. by rewrite Hid. }
  assert (Hkeys1 : SS.getAllSessionIds st1 = SS.getAllSessionIds st).
  { unfold SS.getAllSessionIds, st1. rewrite saveSession_sessions. simpl.
    apply keys_set_present. rewrite Hid. by eapply get_Some_keys. }
  set (cond := truthy (default [] (mjoin (SS.p_ipAddress partial)))
               || truthy (default [] (mjoin (SS.p_userAgent partial)))).
  set (st' := if cond then _ else st1).
  assert (Hsess : SS.sessions st' = SS.sessions st1).
  { unfold st'. destruct cond; [|done].
    apply associateSessionWithClientConnection_sessions. }
  split_and!.
  - intros k. rewrite <- Hget1. unfold SS.getSession. by rewrite Hsess.
  - unfold SS.getAllSessionIds. rewrite Hsess. exact Hkeys1.
  - intros Hcond. unfold st'. fold m. fold cond in Hcond. rewrite Hcond.
    rewrite Hip, Hua.
    match goal with
    | |- _ ∈ SS.getClientConnectionSessions ?ip ?ua ?st2 =>
        destruct (associateSessionWithClientConnection_index clock sid ip ua st1)
          as (Hs & _ & _ & c & Hconn & _ & _ & _ & Hids & _)
    end.
    unfold SS.getClientConnectionSessions.
    match goal with
    | |- context [SS.clientConnections ?st2 !! ?fp] =>
        change fp with (Spec.connection_key (or_default (SS.ipAddress m) (js "unknown"))
                          (SS.userAgent m))
    end.
    rewrite Hconn, lookup_insert_eq.
    apply list_elem_of_omap. exists sid. split.
    + rewrite Hids. apply push_unless_included_elem.
    + unfold SS.getSession. rewrite Hs. fold (SS.getSession sid st1).
      rewrite Hget1. by rewrite decide_True.
Qed.

(** X16.  [updateMetadata(sessionId, partial)] on a filed session merges
    the given fields into its metadata, keeps its messages and its place
    in the table, and sets [lastActive] to the clock reading at which the
    session is saved, whatever [lastActive] the caller gave; no other
    session changes.  When the update carries a non-empty address or user
    agent, the session is afterwards among the sessions of the connection
    of its merged address (or the text unknown) and user agent.  For an
    identifier that is not filed nothing happens. *)
Theorem updateMetadata_merges sid (partial : SS.PartialMetadata) st :
  Spec.store_wf st ->
  let st' := SS.updateMetadata clock sid partial st in
  (SS.getSession sid st = None -> st' = st)
  /\ (forall s, SS.getSession sid st = Some s ->
        let m := SS.spread (SS.smeta s) partial in
        let s' := SS.mkSession sid (SS.messages s)
                    (SS.set_lastActive (clock (S (SS.ticks st))) m) in
        SS.getSession sid st' = Some s'
        /\ (truthy (default [] (mjoin (SS.p_ipAddress partial)))
            || truthy (default [] (mjoin (SS.p_userAgent partial))) = true ->
            s' ∈ SS.getClientConnectionSessions
                   (or_default (SS.ipAddress m) (js "unknown"))
                   (SS.userAgent m) st'))
  /\ SS.getAllSessionIds st' = SS.getAllSessionIds st
  /\ (forall k, SS.getMessages k st' = SS.getMessages k st)
  /\ (forall k, k <> sid -> SS.getSession k st' = SS.getSession k st).
Proof.
  intros Hwf st'.
  destruct (SS.getSession sid st) as [s|] eqn:Hget.
  2:{ assert (Hsame : st' = st).
      { unfold st', SS.updateMetadata. by rewrite Hget. }
      rewrite Hsame. split_and!; done. }
  destruct (updateMetadata_listed sid partial st s Hwf Hget)
    as (Hget' & Hkeys & Hlisted).
  fold st' in Hget', Hkeys, Hlisted.
  split_and!.
  - done.
  - intros s2 Hs2. inversion Hs2; subst s2. split.
    + rewrite Hget'. by rewrite decide_True.
    + exact Hlisted.
  - exact Hkeys.
  - intros k. unfold SS.getMessages. rewrite Hget'.
    destruct (decide (sid = k)) as [<-|Hne]; [|done]. by rewrite Hget.
  - intros k Hne. rewrite Hget'. by rewrite decide_False.
Qed.

End OperationFacts.

Lemma clearSession_forgets_witness :
  let st' := ChatHistoryService.clear (ChatHistoryService.getHistory (js "a") None)
               Examples.busy_store in
  st' = SS.clearSession (js "a") Examples.busy_store
  /\ SS.hasSession (js "a") st' = false
  /\ SS.getSession (js "a") st' = None
  /\ SS.getMetadata (js "a") st' = None
  /\ SS.getMessages (js "a") st' = []
  /\ SS.getAllSessionIds st'
     = filter (fun k => k <> js "a") (SS.getAllSessionIds Examples.busy_store)
  /\ (forall k, k <> js "a" ->
        SS.getSession k st' = SS.getSession k Examples.busy_store)
  /\ (forall u s, s ∈ SS.getUserSessions u st' -> SS.id s <> js "a").
Proof.
  apply (clearSession_forgets (js "a") Examples.busy_store).
  apply (reachable_wf Samples.tick_clock 4). exists Examples.busy_ops. reflexivity.
Defined.


Lemma clearSessionMessages_keeps_metadata_witness :
  let st := Examples.busy_store in
  let st' := SS.clearSessionMessages Samples.tick_clock (js "a") st in
  (forall s, SS.getSession (js "a") st = Some s ->
     SS.getSession (js "a") st'
     = Some (SS.mkSession (js "a") []
               (SS.set_lastActive (Samples.tick_clock (SS.ticks st)) (SS.smeta s))))
  /\ (SS.getSession (js "a") st = None -> st' = st)
  /\ SS.getMessages (js "a") st' = []
  /\ SS.getAllSessionIds st' = SS.getAllSessionIds st
  /\ (forall k, k <> js "a" -> SS.getSession k st' = SS.getSession k st).
Proof.
  apply (clearSessionMessages_keeps_metadata Samples.tick_clock (js "a")
           Examples.busy_store).
  apply (reachable_wf Samples.tick_clock 4). exists Examples.busy_ops. reflexivity.
Defined.


Lemma updateMetadata_merges_witness :
  let st := Examples.busy_store in
  let sid := js "a" in
  let partial := Examples.connection_update in
  let st' := SS.updateMetadata Samples.tick_clock sid partial st in
  (SS.getSession sid st = None -> st' = st)
  /\ (forall s, SS.getSession sid st = Some s ->
        let m := SS.spread (SS.smeta s) partial in
        let s' := SS.mkSession sid (SS.messages s)
                    (SS.set_lastActive (Samples.tick_clock (S (SS.ticks st))) m) in
        SS.getSession sid st' = Some s'
        /\ (truthy (default [] (mjoin (SS.p_ipAddress partial)))
            || truthy (default [] (mjoin (SS.p_userAgent partial))) = true ->
            s' ∈ SS.getClientConnectionSessions
                   (or_default (SS.ipAddress m) (js "unknown"))
                   (SS.userAgent m) st'))
  /\ SS.getAllSessionIds st' = SS.getAllSessionIds st
  /\ (forall k, SS.getMessages k st' = SS.getMessages k st)
  /\ (forall k, k <> sid -> SS.getSession k st' = SS.getSession k st).
Proof.
  apply (updateMetadata_merges Samples.tick_clock (js "a")
           Examples.connection_update Examples.busy_store).
  apply (reachable_wf Samples.tick_clock 4). exists Examples.busy_ops. reflexivity.
Defined.

(** ** A chat request and the history route *)

Lemma getClientConnectionSessions_unknown (ip : jstring) (ua : option jstring)
    (st : SS.Store) :
  SS.getClientConnectionSessions (or_default (Some ip) (js "unknown")) ua st
  = SS.getClientConnectionSessions ip ua st.
Proof.
  unfold SS.getClientConnectionSessions.
  by destruct ip.
Qed.

(** X17.  A chat request on a filed session updates its metadata with the
    address [getClientIP] gives and the user agent header.  Unless both are
    empty, the session with its merged metadata is afterwards among the
    sessions the history route lists for a request with the same headers,
    whatever other fields the update carries. *)
Theorem chat_request_listed (clock : nat -> Z) (headers : Request.Headers)
    (ip sid : jstring) (partial : SS.PartialMetadata)
    (s : SS.Session) (st : SS.Store) :
  Spec.store_wf st ->
  SS.getSession sid st = Some s ->
  Request.getClientIP headers = Return ip ->
  Laws.carries_connection headers ip partial ->
  ip <> [] \/ Routes.userAgentOf headers <> None ->
  let st' := SS.updateMetadata clock sid partial st in
  let s' := SS.mkSession sid (SS.messages s)
              (SS.set_lastActive (clock (S (SS.ticks st)))
                 (SS.spread (SS.smeta s) partial)) in
  SS.getSession sid st' = Some s'
  /\ SS.ipAddress (SS.smeta s') = Some ip
  /\ SS.userAgent (SS.smeta s') = Routes.userAgentOf headers
  /\ exists sessions,
       Routes.connectionSessions headers st' = Return sessions
       /\ s' ∈ sessions.
Proof.
  intros Hwf Hget Hip [Hpip Hpua] Hsome st' s'.
  destruct (updateMetadata_listed clock sid partial st s Hwf Hget)
    as (Hget' & _ & Hlisted).
  fold st' s' in Hget', Hlisted.
  assert (Hmip : SS.ipAddress (SS.spread (SS.smeta s) partial) = Some ip).
  { unfold SS.spread. simpl. by rewrite Hpip. }
  assert (Hmua : SS.userAgent (SS.spread (SS.smeta s) partial)
                 = Routes.userAgentOf headers).
  { unfold SS.spread. simpl. by rewrite Hpua. }
  split_and!.
  - rewrite Hget'. by rewrite decide_True.
  - exact Hmip.
  - exact Hmua.
  - unfold Routes.connectionSessions. rewrite Hip.
    cbn [mbind outcome_bind bind]. eexists. split; [reflexivity|].
    rewrite <- getClientConnectionSessions_unknown.
    rewrite Hmip, Hmua in Hlisted. apply Hlisted.
    rewrite Hpip, Hpua. simpl.
    destruct Hsome as [Hne|Hne].
    + destruct ip; [done|]. done.
    + apply orb_true_iff. right.
      unfold Routes.userAgentOf, SS.or_else in *.
      destruct (headers (js "user-agent")) as [ua|]; [|done].
      destruct (truthy ua) eqn:Hua; [|done]. simpl. done.
Qed.

Lemma chat_request_listed_witness :
  let st := Examples.busy_store in
  let s := SS.mkSession (js "a") [Samples.human "halo"]
             (SS.mkMetadata (Some (js "u1")) 0 11 (Some (js "Mozilla/5.0"))
                (Some (js "203.0.113.7")) SS.general []) in
  let st' := SS.updateMetadata Samples.tick_clock (js "a") Examples.proxied_update st in
  let s' := SS.mkSession (js "a") (SS.messages s)
              (SS.set_lastActive (Samples.tick_clock (S (SS.ticks st)))
                 (SS.spread (SS.smeta s) Examples.proxied_update)) in
  SS.getSession (js "a") st' = Some s'
  /\ SS.ipAddress (SS.smeta s') = Some (js "203.0.113.7")
  /\ SS.userAgent (SS.smeta s') = Routes.userAgentOf Examples.proxied
  /\ exists sessions,
       Routes.connectionSessions Examples.proxied st' = Return sessions
       /\ s' ∈ sessions.
Proof.
  apply (chat_request_listed Samples.tick_clock Examples.proxied
           (js "203.0.113.7") (js "a") Examples.proxied_update
           (SS.mkSession (js "a") [Samples.human "halo"]
              (SS.mkMetadata (Some (js "u1")) 0 11 (Some (js "Mozilla/5.0"))
                 (Some (js "203.0.113.7")) SS.general []))
           Examples.busy_store).
  - apply (reachable_wf Samples.tick_clock 4). exists Examples.busy_ops. reflexivity.
  - vm_compute. reflexivity.
  - vm_compute. reflexivity.
  - split; reflexivity.
  - left. discriminate.
Defined.

(** ** The clear route *)

(** X18.  The clear route removes the session (the one named default when
    the body names none) and, when the body carries a non-empty user
    identifier, files a new empty session of that user under the same
    identifier: afterwards the history is empty in both cases, the session
    is filed exactly when a user identifier was given and is then an empty
    session of that user, listed by [getUserSessions], and no other session
    changes. *)
Theorem clearRoute_spec (clock : nat -> Z) (sessionId userId : option jstring)
    (st : SS.Store) :
  Spec.store_wf st ->
  let sid := default (js "default") sessionId in
  let st' := Routes.clearRoute clock sessionId userId st in
  SS.getMessages sid st' = []
  /\ SS.hasSession sid st' = truthy (default [] userId)
  /\ (forall k, k <> sid -> SS.getSession k st' = SS.getSession k st)
  /\ (forall u, userId = Some u -> u <> [] ->
        exists s,
          SS.getSession sid st' = Some s
          /\ SS.messages s = []
          /\ SS.userId (SS.smeta s) = Some u
          /\ s ∈ SS.getUserSessions u st').
Proof.
  intros Hwf sid st'. unfold Routes.clearRoute in st'. fold sid in st'.
  destruct (clearSession_tables sid st) as (Hsess & _ & _ & _).
  set (st1 := SS.clearSession sid st) in *.
  assert (Hgone : SS.getSession sid st1 = None).
  { unfold SS.getSession. rewrite Hsess. apply get_delete_eq, Hwf. }
  assert (Hother1 : forall k, k <> sid -> SS.getSession k st1 = SS.getSession k st).
  { intros k Hne. unfold SS.getSession. rewrite Hsess. by apply get_delete_ne. }
  destruct (truthy (default [] userId)) eqn:Huser.
  - destruct (createSession_tables clock sid userId None st1)
      as (Hfresh & Hsess' & _ & _ & Husers).
    fold st' in Hsess', Husers.
    assert (Hget : SS.getSession sid st'
                   = Some (SS.createSession clock sid userId None st1).1).
    { unfold SS.getSession. rewrite Hsess'. apply get_set_eq. }
    rewrite Hfresh in Hget.
    split_and!.
    + unfold SS.getMessages. by rewrite Hget.
    + unfold SS.hasSession, JSMap.has. unfold SS.getSession in Hget. by rewrite Hget.
    + intros k Hne. rewrite <- (Hother1 k Hne).
      unfold SS.getSession. rewrite Hsess'. by apply get_set_ne.
    + intros u -> Hne. eexists. split; [exact Hget|].
      split; [done|]. split; [done|].
      destruct u as [|c u]; [done|]. simpl in Husers.
      destruct Husers as (d & Hd & Hin).
      unfold SS.getUserSessions. rewrite Hd.
      apply list_elem_of_omap. exists sid. split; [done|exact Hget].
  - subst st'. split_and!.
    + unfold SS.getMessages. by rewrite Hgone.
    + unfold SS.hasSession, JSMap.has. unfold SS.getSession in Hgone.
      by rewrite Hgone.
    + exact Hother1.
    + intros u -> Hne. destruct u; [done|]. simpl in Huser. done.
Qed.

Lemma clearRoute_spec_witness :
  let st := Examples.busy_store in
  let sid := default (js "default") (Some (js "a")) in
  let st' := Routes.clearRoute Samples.tick_clock (Some (js "a")) (Some (js "u2")) st in
  SS.getMessages sid st' = []
  /\ SS.hasSession sid st' = truthy (default [] (Some (js "u2")))
  /\ (forall k, k <> sid -> SS.getSession k st' = SS.getSession k st)
  /\ (forall u, Some (js "u2") = Some u -> u <> [] ->
        exists s,
          SS.getSession sid st' = Some s
          /\ SS.messages s = []
          /\ SS.userId (SS.smeta s) = Some u
          /\ s ∈ SS.getUserSessions u st').
Proof.
  apply (clearRoute_spec Samples.tick_clock (Some (js "a")) (Some (js "u2"))
           Examples.busy_store).
  apply (reachable_wf Samples.tick_clock 4). exists Examples.busy_ops. reflexivity.
Defined.

(** ** The window bounds every history *)

Section BoundFacts.
Variable clock : nat -> Z.
Implicit Types (st : SS.Store) (s : SS.Session) (sid : jstring).

Lemma window_length {A} (W : Z) (l : list A) :
  0 < W -> Z.of_nat (length (Spec.window W l)) <= W.
Proof.
  intros HW. unfold Spec.window.
  destruct (Z.gtb_spec (Z.of_nat (length l)) W) as [Hgt|Hle]; [|done].
  rewrite slice_from_neg by done. rewrite length_drop. lia.
Qed.

Lemma shrinks_bounded st st' :
  0 <= SS.maxMessages st -> Laws.bounded st -> Laws.shrinks st st' ->
  Laws.bounded st'.
Proof.
  intros HW Hb [Hmax Hk] k. rewrite Hmax.
  destruct (Hk k) as [->| ->]; [apply Hb|simpl; lia].
Qed.

Lemma same_sessions_shrinks st st' :
  SS.sessions st' = SS.sessions st -> SS.maxMessages st' = SS.maxMessages st ->
  Laws.shrinks st st'.
Proof.
  intros Hs Hmax. split; [done|]. intros k. left.
  unfold SS.getMessages, SS.getSession. by rewrite Hs.
Qed.

Lemma createSession_shrinks sid (userId : option jstring) extra st :
  Laws.shrinks st (SS.createSession clock sid userId extra st).2.
Proof.
  destruct (createSession_tables clock sid userId extra st)
    as (Hfresh & Hsess & _ & Hmax & _).
  split; [done|]. intros k. unfold SS.getMessages, SS.getSession. rewrite Hsess.
  destruct (decide (sid = k)) as [<-|Hne].
  - right. rewrite get_set_eq, Hfresh. done.
  - left. by rewrite get_set_ne.
Qed.

Lemma clearSessionMessages_shrinks sid st :
  Laws.shrinks st (SS.clearSessionMessages clock sid st).
Proof.
  unfold SS.clearSessionMessages.
  destruct (SS.getSession sid st) as [s|]; [|by split; [|left]].
  split; [apply saveSession_maxMessages|].
  intros k. unfold SS.getMessages. rewrite getSession_saveSession. simpl.
  destruct (decide (SS.id s = k)); [by right|by left].
Qed.

Lemma updateMetadata_frame sid (partial : SS.PartialMetadata) st :
  Spec.store_wf st ->
  let st' := SS.updateMetadata clock sid partial st in
  SS.maxMessages st' = SS.maxMessages st
  /\ forall k, SS.getMessages k st' = SS.getMessages k st.
Proof.
  intros Hwf. simpl. unfold SS.updateMetadata.
  destruct (SS.getSession sid st) as [s|] eqn:Hget; [|done].
  assert (Hid : SS.id s = sid) by by apply (proj2 Hwf).
  simpl.
  match goal with
  | |- context [if ?c then SS.associateSessionWithClientConnection _ ?a ?b ?d ?st1
                else _] =>
      set (st' := if c then SS.associateSessionWithClientConnection clock a b d st1
                  else st1);
      assert (Hsess : SS.sessions st' = SS.sessions st1
                      /\ SS.maxMessages st' = SS.maxMessages st1);
      [unfold st'; destruct c; [|done];
       destruct (associateSessionWithClientConnection_index clock a b d st1)
         as (Hs & _ & Hm & _); by split|]
  end.
  destruct Hsess as [Hsess Hmax]. split.
  - rewrite Hmax. by rewrite saveSession_maxMessages.
  - intros k. unfold SS.getMessages, SS.getSession. rewrite Hsess.
    rewrite saveSession_sessions. simpl. rewrite Hid.
    destruct (decide (sid = k)) as [<-|Hne].
    + rewrite get_set_eq. simpl. unfold SS.getSession in Hget. by rewrite Hget.
    + by rewrite get_set_ne.
Qed.

Lemma sweep_shrinks (P : jstring -> SS.Session -> bool) st st0 :
  Spec.store_wf st ->
  SS.sessions st0 = SS.sessions st -> SS.maxMessages st0 = SS.maxMessages st ->
  Laws.shrinks st
    (fold_left (Spec.sweep_step clock P) (JSMap.keys (SS.sessions st)) (st0, 0)).1.
Proof.
  intros Hwf Hs0 Hm0.
  assert (Hwf0 : Spec.store_wf st0) by by eapply wf_sessions.
  pose proof (sweep_fold_spec clock P (JSMap.keys (SS.sessions st)) st0 0
                Hwf0 (proj1 Hwf)) as Hloop.
  destruct (fold_left _ _ _) as [st' count']. simpl.
  destruct Hloop as (_ & _ & Hmax & _ & Hother & Hin & _).
  split; [congruence|]. intros k. unfold SS.getMessages, SS.getSession.
  destruct (JSMap.get k (SS.sessions st)) as [s|] eqn:Hget.
  - rewrite <- Hs0 in Hget.
    specialize (Hin k s (get_Some_keys _ _ _ (eq_ind _ (fun m => JSMap.get k m = Some s) Hget _ Hs0)) Hget).
    destruct (P k s).
    + destruct Hin as (t & _ & ->). by right.
    + rewrite Hin. by left.
  - rewrite Hother; [|by apply get_None_keys].
    rewrite Hs0, Hget. by left.
Qed.

Lemma clearSession_shrinks sid st :
  Spec.store_wf st -> Laws.shrinks st (SS.clearSession sid st).
Proof.
  intros Hwf. destruct (clearSession_tables sid st) as (Hsess & _ & Hmax & _).
  split; [done|]. intros k. unfold SS.getMessages, SS.getSession. rewrite Hsess.
  destruct (decide (sid = k)) as [<-|Hne].
  - right. by rewrite get_delete_eq by apply Hwf.
  - left. by rewrite get_delete_ne.
Qed.

Lemma perform_bounded st (op : Spec.operation) :
  Spec.store_wf st -> 0 < SS.maxMessages st -> Laws.bounded st ->
  Laws.bounded_op (SS.maxMessages st) op ->
  Laws.bounded (Spec.perform clock st op)
  /\ SS.maxMessages (Spec.perform clock st op) = SS.maxMessages st.
Proof.
  intros Hwf HW Hb Hop.
  assert (Hshrink : Laws.shrinks st (Spec.perform clock st op) ->
                    Laws.bounded (Spec.perform clock st op)
                    /\ SS.maxMessages (Spec.perform clock st op) = SS.maxMessages st).
  { intros Hs. split; [|apply Hs]. apply (shrinks_bounded st); [lia|done|done]. }
  destruct op; simpl in *.
  - apply Hshrink, createSession_shrinks.
  - split; [|apply saveSession_maxMessages].
    intros k. rewrite saveSession_maxMessages. unfold SS.getMessages.
    rewrite getSession_saveSession.
    destruct (decide (SS.id session = k)); [done|apply Hb].
  - destruct (addMessage_spec clock sessionId message st Hwf)
      as (_ & Hmax & Hsame & Hother).
    split; [|done]. intros k. rewrite Hmax.
    destruct (decide (k = sessionId)) as [->|Hne].
    + rewrite Hsame. by apply window_length.
    + rewrite Hother by done. apply Hb.
  - apply Hshrink. destruct (updateMetadata_frame sessionId partial st Hwf) as [Hmax Hk].
    split; [done|]. intros k. left. apply Hk.
  - apply Hshrink, clearSessionMessages_shrinks.
  - apply Hshrink. rewrite clearSessionMessagesByPattern_unfold. simpl.
    by apply sweep_shrinks.
  - apply Hshrink. rewrite clearInactiveSessions_unfold. simpl.
    by apply sweep_shrinks.
  - apply Hshrink. by apply clearSession_shrinks.
  - apply Hshrink. split; [done|]. intros k. by right.
  - apply Hshrink.
    destruct (getOrCreateClientConnection_index clock ipAddress userAgent st)
      as (Hs & _ & Hm & _).
    by apply same_sessions_shrinks.
  - apply Hshrink.
    destruct (associateSessionWithClientConnection_index clock sessionId ipAddress
                userAgent st) as (Hs & _ & Hm & _).
    by apply same_sessions_shrinks.
Qed.

Lemma operations_bounded (W : Z) (ops : list Spec.operation) :
  0 < W -> Forall (Laws.bounded_op W) ops ->
  let st := fold_left (Spec.perform clock) ops (SS.new W) in
  Spec.store_wf st /\ SS.maxMessages st = W /\ Laws.bounded st.
Proof.
  intros HW. induction ops as [|op ops IH] using rev_ind; intros Hops.
  - simpl. split_and!; [apply new_wf|done|]. intros k. simpl. lia.
  - apply Forall_app in Hops as [Hops Hop]. rewrite Forall_singleton in Hop.
    destruct (IH Hops) as (Hwf & Hmax & Hb).
    simpl. rewrite fold_left_app. simpl.
    rewrite <- Hmax in Hop, HW.
    destruct (perform_bounded _ op Hwf HW Hb Hop) as [Hb' Hmax'].
    split_and!; [by apply perform_wf|congruence|done].
Qed.

End BoundFacts.

(** X19.  However the store was driven, as long as no caller saved a
    session holding more than [W] messages at once, every history holds at
    most [W] messages, for a window size [W >= 1].  The bound is the store's
    window size (four in the program) and not the [maxMessages] argument of
    [getHistory], which no method reads: the summary of any chat history
    reports at most [W] messages and at most [W / 2] pairs. *)
Theorem history_bounded (clock : nat -> Z) (W : Z) (ops : list Spec.operation)
    (sid : jstring) (maxMessages : option Z) :
  0 < W -> Forall (Laws.bounded_op W) ops ->
  let st := fold_left (Spec.perform clock) ops (SS.new W) in
  let history := ChatHistoryService.getHistory sid maxMessages in
  Z.of_nat (length (ChatHistoryService.getMessages history st)) <= W
  /\ ChatHistoryService.totalMessages (ChatHistoryService.getSummary history st) <= W
  /\ ChatHistoryService.pairs (ChatHistoryService.getSummary history st) <= W / 2.
Proof.
  intros HW Hops st history.
  destruct (operations_bounded clock W ops HW Hops) as (_ & Hmax & Hb).
  fold st in Hmax, Hb. specialize (Hb sid). rewrite Hmax in Hb.
  unfold ChatHistoryService.getSummary, ChatHistoryService.getMessages. simpl.
  split_and!; [done|done|]. by apply Z.div_le_mono.
Qed.

Lemma history_bounded_witness :
  let st := fold_left (Spec.perform Samples.tick_clock) Examples.busy_ops (SS.new 4) in
  let history := ChatHistoryService.getHistory (js "a") (Some 2) in
  Z.of_nat (length (ChatHistoryService.getMessages history st)) <= 4
  /\ ChatHistoryService.totalMessages (ChatHistoryService.getSummary history st) <= 4
  /\ ChatHistoryService.pairs (ChatHistoryService.getSummary history st) <= 4 / 2.
Proof.
  apply (history_bounded Samples.tick_clock 4 Examples.busy_ops (js "a") (Some 2)).
  - reflexivity.
  - repeat constructor.
Defined.

(** ** Code fences around the model's reply *)

Lemma remove_all_skip (fence : jstring) (k : nat) (s : jstring) :
  remove_all fence k s = remove_all fence 0 (drop k s).
Proof.
  revert k. induction s as [|c r IH]; intros [|k]; try done.
  simpl. apply IH.
Qed.

(** The line feed test of the fence pattern. *)
Lemma after_fence_length (fence rest : jstring) :
  match rest with
  | 10%N :: _ => S (length fence)
  | _ => length fence
  end
  = match rest with
    | c :: _ => if (c =? 10)%N then S (length fence) else length fence
    | [] => length fence
    end.
Proof.
  destruct rest as [|c rest]; [done|].
  destruct (N.eqb_spec c 10) as [->|Hc]; [done|].
  destruct c as [|p]; [done|].
  do 4 (destruct p as [p|p|]; try done).
Qed.

(** A fence at the head is dropped, with one line feed after it. *)
Lemma remove_all_fence (fence rest : jstring) :
  fence <> [] ->
  remove_all fence 0 (fence ++ rest) =
  remove_all fence 0
    (match rest with
     | c :: rest' => if (c =? 10)%N then rest' else rest
     | [] => rest
     end).
Proof.
  intros Hne. destruct fence as [|c f]; [done|].
  change ((c :: f) ++ rest) with (c :: (f ++ rest)).
  cbn [remove_all].
  rewrite bool_decide_eq_true_2 by (by exists rest).
  replace (drop (length (c :: f)) (c :: f ++ rest)) with rest
    by (simpl; by rewrite drop_app_length).
  rewrite (after_fence_length (c :: f) rest).
  destruct rest as [|c' rest'].
  - simpl. rewrite remove_all_skip. by rewrite drop_app_length.
  - destruct (c' =? 10)%N.
    + simpl. rewrite remove_all_skip.
      replace (f ++ c' :: rest') with ((f ++ [c']) ++ rest')
        by (by rewrite <- app_assoc).
      replace (S (length f)) with (length (f ++ [c']))
        by (rewrite length_app; simpl; lia).
      by rewrite drop_app_length.
    + simpl. rewrite remove_all_skip. by rewrite drop_app_length.
Qed.

(** Text without a backtick holds no fence. *)
Lemma remove_all_clean (fence a b : jstring) :
  (Laws.backtick ∉ a) -> head fence = Some Laws.backtick ->
  remove_all fence 0 (a ++ b) = a ++ remove_all fence 0 b.
Proof.
  intros Ha Hfence. destruct fence as [|t f]; [done|].
  simpl in Hfence. inversion Hfence; subst t.
  induction a as [|c a IH]; [done|].
  apply not_elem_of_cons in Ha as [Hc Ha].
  change ((c :: a) ++ b) with (c :: (a ++ b)). cbn [remove_all].
  rewrite bool_decide_eq_false_2.
  - by rewrite IH.
  - intros Hpre. apply prefix_cons_inv_1 in Hpre. congruence.
Qed.

Lemma trimStart_app (s t : jstring) :
  trimStart (s ++ t) =
  match trimStart s with [] => trimStart t | _ => trimStart s ++ t end.
Proof.
  induction s as [|c s IH]; simpl; [done|].
  destruct (isWhiteSpace c); [exact IH|done].
Qed.

(** White space at the end does not change the trimmed text. *)
Lemma trim_snoc_ws (s : jstring) (c : char) :
  isWhiteSpace c = true -> trim (s ++ [c]) = trim s.
Proof.
  intros Hc. unfold trim, trimEnd. rewrite trimStart_app.
  destruct (trimStart s) as [|a t] eqn:Hs.
  - simpl. by rewrite Hc.
  - rewrite rev_app_distr. simpl. by rewrite Hc.
Qed.

Lemma trim_fixed (s : jstring) : Laws.trimmed s -> trim s = s.
Proof.
  intros [Hhead Hlast]. unfold trim, trimEnd.
  assert (Hstart : trimStart s = s).
  { destruct s as [|c r]; [done|]. simpl. by rewrite (Hhead c r). }
  rewrite Hstart.
  destruct (rev s) as [|c r] eqn:Hrev.
  - apply (f_equal (@rev N)) in Hrev. rewrite rev_involutive in Hrev. by subst.
  - simpl. rewrite (Hlast c (rev r)).
    + rewrite <- Hrev. apply rev_involutive.
    + apply (f_equal (@rev N)) in Hrev. rewrite rev_involutive in Hrev. done.
Qed.

Lemma trim_idempotent (s : jstring) : trim (trim s) = trim s.
Proof. apply trim_fixed, trim_trimmed. Qed.

Lemma jsonString_clean (body : jstring) :
  (Laws.backtick ∉ body) -> ChatService.jsonString body = trim body.
Proof.
  intros Hbody. unfold ChatService.jsonString.
  rewrite <- (app_nil_r body).
  rewrite !(remove_all_clean _ body []) by done.
  done.
Qed.

Lemma jsonString_fenced (body : jstring) :
  (Laws.backtick ∉ body) ->
  ChatService.jsonString (js "```json" ++ RAG.nl ++ body ++ RAG.nl ++ js "```")
  = trim body
  /\ ChatService.jsonString (js "```" ++ RAG.nl ++ body ++ RAG.nl ++ js "```")
     = trim body.
Proof.
  intros Hbody.
  assert (Htail : remove_all (js "```") 0 (body ++ RAG.nl ++ js "```") = body ++ RAG.nl).
  { rewrite (remove_all_clean (js "```") body) by done. reflexivity. }
  unfold ChatService.jsonString. split.
  - rewrite (remove_all_fence (js "```json")) by done.
    cbn [RAG.nl app N.eqb Pos.eqb].
    rewrite (remove_all_clean (js "```json") body) by done.
    change (remove_all (js "```json") 0 (10%N :: js "```")) with (RAG.nl ++ js "```").
    rewrite Htail. by apply trim_snoc_ws.
  - change (js "```" ++ RAG.nl ++ body ++ RAG.nl ++ js "```")
      with (js "```" ++ 10%N :: (body ++ RAG.nl ++ js "```")).
    replace (remove_all (js "```json") 0
               (js "```" ++ 10%N :: (body ++ RAG.nl ++ js "```")))
      with (js "```" ++ 10%N :: remove_all (js "```json") 0 (body ++ RAG.nl ++ js "```"))
      by reflexivity.
    rewrite (remove_all_clean (js "```json") body) by done.
    change (remove_all (js "```json") 0 (RAG.nl ++ js "```")) with (RAG.nl ++ js "```").
    rewrite (remove_all_fence (js "```")) by done.
    cbn [N.eqb Pos.eqb].
    rewrite Htail. by apply trim_snoc_ws.
Qed.

(** X20.  Before the reply of the routing model is parsed, a pair of code
    fences around it is removed: for a body without backticks, the text
    handed to [JSON.parse] is the trimmed body, whether the reply is the
    body alone, the body in a [```json] fence or the body in a plain
    [```] fence. *)
Theorem jsonString_unwraps_fence (body : jstring) :
  (Laws.backtick ∉ body) ->
  ChatService.jsonString body = trim body
  /\ ChatService.jsonString (js "```json" ++ RAG.nl ++ body ++ RAG.nl ++ js "```")
     = trim body
  /\ ChatService.jsonString (js "```" ++ RAG.nl ++ body ++ RAG.nl ++ js "```")
     = trim body.
Proof.
  intros Hbody. split; [by apply jsonString_clean|by apply jsonString_fenced].
Qed.

Lemma jsonString_unwraps_fence_witness :
  let body := js "{" ++ Samples.quote ++ js "action" ++ Samples.quote ++ js ":"
              ++ Samples.quote ++ js "rag" ++ Samples.quote ++ js "}" in
  ChatService.jsonString body = trim body
  /\ ChatService.jsonString (js "```json" ++ RAG.nl ++ body ++ RAG.nl ++ js "```")
     = trim body
  /\ ChatService.jsonString (js "```" ++ RAG.nl ++ body ++ RAG.nl ++ js "```")
     = trim body.
Proof.
  apply (jsonString_unwraps_fence
           (js "{" ++ Samples.quote ++ js "action" ++ Samples.quote ++ js ":"
            ++ Samples.quote ++ js "rag" ++ Samples.quote ++ js "}")).
  apply (bool_decide_unpack _). vm_compute. exact I.
Defined.

(** ** What the router makes of a reply *)

Lemma fenced_trimmed (body : jstring) :
  Laws.trimmed (js "```json" ++ RAG.nl ++ body ++ RAG.nl ++ js "```").
Proof.
  split.
  - intros c r Heq. inversion Heq. done.
  - intros c r Heq.
    change (js "```json" ++ RAG.nl ++ body ++ RAG.nl ++ js "```")
      with (js "```json" ++ RAG.nl ++ body ++ RAG.nl ++ [96%N; 96%N] ++ [96%N]) in Heq.
    rewrite !app_assoc in Heq. apply app_inj_tail in Heq as [_ <-]. done.
Qed.

(** X21.  Once the client is built and the model has replied, [routeQuery]
    returns what the reply, trimmed and without code fences, parses to:
    the fail-safe [{action: "no_rag"}] for text that is not JSON and for
    [null]; for an object its four properties as they are, without any
    check of their values; and for any other JSON value (a number, a
    string, a boolean, an array) a result all of whose fields, [action]
    included, are undefined.  A reply whose JSON body is wrapped in a
    [```json] fence gives the same result as the body alone. *)
Theorem routeQuery_reads_reply :
  forall `{Numbers} (JSON_parse : jstring -> option json)
         (createLLM : ChatService.ChatConfig -> outcome ChatService.LLM)
         (invoke : ChatService.LLM)
         (routingSystemPrompt message : jstring)
         (history : option (list SS.BaseMessage)) (response : jstring),
    createLLM ChatService.routingConfig = Return invoke ->
    invoke (Spec.route_messages routingSystemPrompt message history)
    = Return response ->
    ChatService.routeQuery JSON_parse createLLM routingSystemPrompt message history
    = Return (Laws.route_of (JSON_parse (ChatService.jsonString (trim response))))
    /\ (forall body,
          (Laws.backtick ∉ body) ->
          response = body
          \/ response = js "```json" ++ RAG.nl ++ body ++ RAG.nl ++ js "```" ->
          ChatService.routeQuery JSON_parse createLLM routingSystemPrompt message
            history
          = Return (Laws.route_of (JSON_parse (trim body)))).
Proof.
  intros Hnum JSON_parse createLLM invoke prompt message history response
    Hcreated Hinvoke.
  assert (Hroute :
    ChatService.routeQuery JSON_parse createLLM prompt message history
    = Return (Laws.route_of (JSON_parse (ChatService.jsonString (trim response))))).
  { unfold ChatService.routeQuery. rewrite Hcreated.
    cbn [mbind outcome_bind bind].
    fold (Spec.route_messages prompt message history). rewrite Hinvoke.
    cbn [mbind outcome_bind bind]. unfold ChatService.parse.
    destruct (JSON_parse (ChatService.jsonString (trim response))) as [[]|];
      reflexivity. }
  split; [exact Hroute|].
  intros body Hbody Hshape. rewrite Hroute. do 2 f_equal.
  clear Hroute Hinvoke.
  destruct Hshape as [->| ->].
  - rewrite jsonString_clean by (by apply trim_not_elem_of).
    by rewrite trim_idempotent.
  - rewrite (trim_fixed _ (fenced_trimmed body)).
    by rewrite (proj1 (jsonString_fenced body Hbody)).
Qed.

Lemma routeQuery_reads_reply_witness :
  let response := js "```json" ++ RAG.nl
                  ++ (js "{" ++ Samples.quote ++ js "action" ++ Samples.quote ++ js ":"
                      ++ Samples.quote ++ js "rag" ++ Samples.quote ++ js "}")
                  ++ RAG.nl ++ js "```" in
  ChatService.routeQuery Samples.JSON_parse (fun _ => Return Samples.invoke_fenced)
    (js "Tugas: Klasifikasikan") (js "apa itu perubahan iklim?") None
  = Return (Laws.route_of
              (Samples.JSON_parse (ChatService.jsonString (trim response)))).
Proof.
  apply (proj1 (routeQuery_reads_reply Samples.JSON_parse
                  (fun _ => Return Samples.invoke_fenced) Samples.invoke_fenced
                  (js "Tugas: Klasifikasikan") (js "apa itu perubahan iklim?") None
                  (js "```json" ++ RAG.nl
                   ++ (js "{" ++ Samples.quote ++ js "action" ++ Samples.quote ++ js ":"
                       ++ Samples.quote ++ js "rag" ++ Samples.quote ++ js "}")
                   ++ RAG.nl ++ js "```")
                  eq_refl eq_refl)).
Defined.

(** A reply that is valid JSON but not an object leaves [action]
    undefined. *)
Example routeQuery_number :
  ChatService.routeQuery Samples.JSON_parse (fun _ => Return (fun _ => Return (js "42")))
    (js "Tugas: Klasifikasikan") (js "halo") None
  = Return (ChatService.mkRoute None None None None).
Proof. vm_compute. reflexivity. Qed.

(** ** Decimal numbers in rendered text *)

Lemma digits10_digits (fuel : nat) (n : Z) (acc : jstring) :
  0 <= n -> Forall (fun c => RAG.isDigit c = true) acc ->
  Forall (fun c => RAG.isDigit c = true) (digits10 fuel n acc).
Proof.
  revert n acc. induction fuel as [|fuel IH]; intros n acc Hn Hacc; simpl; [done|].
  assert (Hd : Forall (fun c => RAG.isDigit c = true) (Z.to_N (48 + n mod 10) :: acc)).
  { constructor; [|done]. pose proof (Z.mod_pos_bound n 10).
    unfold RAG.isDigit. apply andb_true_iff. split; apply N.leb_le; lia. }
  destruct (n <? 10); [done|].
  apply IH; [|done]. apply Z.div_pos; lia.
Qed.

Lemma digits10_nonempty (fuel : nat) (n : Z) (acc : jstring) :
  (length acc < length (digits10 (S fuel) n acc))%nat.
Proof.
  revert n acc. induction fuel as [|fuel IH]; intros n acc.
  - simpl. destruct (n <? 10); simpl; lia.
  - change (digits10 (S (S fuel)) n acc)
      with (if n <? 10 then Z.to_N (48 + n mod 10) :: acc
            else digits10 (S fuel) (n / 10) (Z.to_N (48 + n mod 10) :: acc)).
    destruct (n <? 10); [simpl; lia|].
    etransitivity; [|apply IH]. simpl. lia.
Qed.

Lemma toString10_digits (n : Z) :
  0 <= n ->
  Forall (fun c => RAG.isDigit c = true) (toString10 n) /\ toString10 n <> [].
Proof.
  intros Hn. unfold toString10.
  destruct (Z.ltb_spec n 0); [lia|]. split.
  - apply digits10_digits; [done|constructor].
  - intros Hnil.
    pose proof (digits10_nonempty (Z.to_nat (Z.log2 n)) n []) as Hlen.
    rewrite Hnil in Hlen. simpl in Hlen. lia.
Qed.

Lemma span_digits_app (ds rest : jstring) :
  Forall (fun c => RAG.isDigit c = true) ds ->
  match rest with c :: _ => RAG.isDigit c = false | [] => True end ->
  RAG.span_digits (ds ++ rest) = (ds, rest).
Proof.
  intros Hds Hrest. induction Hds as [|d ds Hd Hds IH]; simpl.
  - destruct rest as [|c rest]; [done|]. simpl. by rewrite Hrest.
  - by rewrite Hd, IH.
Qed.

(** ** Counting the document markers *)

Lemma count_doc_markers_step (c : char) (s : jstring) :
  RAG.count_doc_markers (c :: s) =
  (RAG.count_doc_markers s
   + if (c =? 91)%N && Laws.closes_marker (RAG.span_digits s) then 1 else 0)%nat.
Proof.
  cbn [RAG.count_doc_markers]. destruct (c =? 91)%N; simpl; [|lia].
  destruct (RAG.span_digits s) as [[|d ds] [|e rest]]; simpl; try lia.
  destruct (N.eqb_spec e 93) as [->|He]; [lia|].
  destruct e as [|p]; [lia|].
  do 7 (destruct p as [p|p|]; try lia).
Qed.

Lemma span_digits_rest (r ds rest b : jstring) (e : char) :
  RAG.span_digits r = (ds, e :: rest) ->
  RAG.span_digits (r ++ b) = (ds, e :: rest ++ b).
Proof.
  revert ds. induction r as [|c r IH]; intros ds; simpl; [done|].
  destruct (RAG.isDigit c).
  - destruct (RAG.span_digits r) as [ds' rest'] eqn:Hr.
    intros Heq. inversion Heq; subst. by rewrite (IH ds').
  - intros Heq. by inversion Heq; subst.
Qed.

Lemma closes_marker_app (a b : jstring) :
  Laws.closes_marker (RAG.span_digits a) = true ->
  Laws.closes_marker (RAG.span_digits (a ++ b)) = true.
Proof.
  destruct (RAG.span_digits a) as [[|d ds] [|e rest]] eqn:Ha; try done.
  simpl. intros He. by rewrite (span_digits_rest _ _ _ b _ Ha).
Qed.

(** A marker in one part of a text is a marker in the whole text. *)
Lemma count_doc_markers_app (a b : jstring) :
  (RAG.count_doc_markers a + RAG.count_doc_markers b
   <= RAG.count_doc_markers (a ++ b))%nat.
Proof.
  induction a as [|c a IH]; [simpl; lia|].
  change ((c :: a) ++ b) with (c :: (a ++ b)).
  rewrite !count_doc_markers_step.
  destruct (c =? 91)%N; simpl; [|lia].
  destruct (Laws.closes_marker (RAG.span_digits a)) eqn:Hc.
  - rewrite (closes_marker_app a b Hc). lia.
  - destruct (Laws.closes_marker (RAG.span_digits (a ++ b))); lia.
Qed.

Lemma count_doc_markers_join (sep : jstring) (parts : list jstring) :
  Forall (fun p => (1 <= RAG.count_doc_markers p)%nat) parts ->
  (length parts <= RAG.count_doc_markers (RAG.join sep parts))%nat.
Proof.
  induction 1 as [|p parts Hp Hparts IH]; [simpl; lia|].
  destruct parts as [|p' parts]; [simpl; lia|].
  change (RAG.join sep (p :: p' :: parts))
    with (p ++ sep ++ RAG.join sep (p' :: parts)).
  pose proof (count_doc_markers_app p (sep ++ RAG.join sep (p' :: parts))).
  pose proof (count_doc_markers_app sep (RAG.join sep (p' :: parts))).
  simpl in *. lia.
Qed.

Section EvaluationFacts.
Context `{Numbers}.
Implicit Types (chunk : RAG.MergedChunk) (evaluation : RAG.AgentEvaluation).

Lemma formatDocument_marker chunk (n : Z) :
  0 <= n -> (1 <= RAG.count_doc_markers (RAG.formatDocument chunk n))%nat.
Proof.
  intros Hn. unfold RAG.formatDocument.
  destruct (toString10_digits n Hn) as [Hdigits Hne].
  change (js "[" ++ toString10 n ++ js "]" ++ ?rest)
    with (91%N :: (toString10 n ++ 93%N :: rest)).
  rewrite count_doc_markers_step.
  rewrite span_digits_app by done.
  destruct (toString10 n); [done|]. simpl. lia.
Qed.

(** Each rendered chunk contributes a marker of its own. *)
Lemma allFormattedDocs_markers (mergedChunks : list RAG.MergedChunk) :
  (length mergedChunks
   <= RAG.count_doc_markers (RAG.allFormattedDocs mergedChunks))%nat.
Proof.
  unfold RAG.allFormattedDocs.
  rewrite <- (length_imap (fun idx chunk => RAG.formatDocument chunk (Z.of_nat idx + 1))
                mergedChunks) at 1.
  apply count_doc_markers_join.
  apply Forall_forall. intros part Hin.
  apply elem_of_lookup_imap in Hin as (i & chunk & -> & _).
  apply formatDocument_marker. lia.
Qed.

Lemma includes_int_range (total : nat) (n : Z) :
  includes_int (List.map (fun i => Some (Z.of_nat i + 1)) (seq 0 total)) n = true
  <-> 1 <= n <= Z.of_nat total.
Proof.
  unfold includes_int. rewrite existsb_exists. split.
  - intros (v & Hin & Hv). apply bool_decide_eq_true in Hv. subst v.
    apply in_map_iff in Hin as (i & Hi & Hseq). apply in_seq in Hseq.
    inversion Hi. lia.
  - intros Hn. exists (Some n). split; [|by apply bool_decide_eq_true].
    apply in_map_iff. exists (Z.to_nat (n - 1)). split; [f_equal; lia|].
    apply in_seq. lia.
Qed.

Lemma indexOf_int_range (start total : nat) (n : Z) :
  Z.of_nat start + 1 <= n <= Z.of_nat start + Z.of_nat total ->
  indexOf_int (List.map (fun i => Some (Z.of_nat i + 1)) (seq start total)) n
  = n - 1 - Z.of_nat start.
Proof.
  revert start. induction total as [|total IH]; intros start Hn; [lia|].
  simpl. destruct (decide (Z.of_nat start + 1 = n)) as [Heq|Hne].
  - rewrite bool_decide_eq_true_2 by (f_equal; lia). lia.
  - rewrite bool_decide_eq_false_2 by (intros Heq; inversion Heq; lia).
    rewrite IH by lia.
    destruct (Z.ltb_spec (n - 1 - Z.of_nat (S start)) 0); lia.
Qed.

Lemma filter_all_true {A} (f : A -> bool) (l : list A) :
  (forall x, x ∈ l -> f x = true) -> List.filter f l = l.
Proof.
  induction l as [|x l IH]; intros Hall; simpl; [done|].
  rewrite (Hall x) by apply list_elem_of_here.
  rewrite IH; [done|]. intros y Hy. apply Hall. by apply list_elem_of_further.
Qed.

(** The evaluation after a failure selects every chunk whose number is
    at most the number of chunks. *)
Lemma fail_open_selects (mergedChunks : list RAG.MergedChunk) :
  let evaluation := Laws.fail_open (RAG.allFormattedDocs mergedChunks) in
  (forall n, 1 <= n <= Z.of_nat (length mergedChunks) ->
     includes_int (RAG.ids evaluation) n = true)
  /\ ((forall chunk, chunk ∈ mergedChunks ->
         1 <= RAG.docNum chunk <= Z.of_nat (length mergedChunks)) ->
      RAG.selectedChunks mergedChunks evaluation = mergedChunks
      /\ forall chunk, chunk ∈ mergedChunks ->
           RAG.finalDocNum evaluation chunk = RAG.docNum chunk).
Proof.
  intros evaluation.
  pose proof (allFormattedDocs_markers mergedChunks) as Hcount.
  assert (Hids : forall n, 1 <= n <= Z.of_nat (length mergedChunks) ->
                   includes_int (RAG.ids evaluation) n = true).
  { intros n Hn. apply includes_int_range. lia. }
  split; [exact Hids|].
  intros Hnums.
  assert (Hall : List.filter
                   (fun chunk => includes_int (RAG.ids evaluation) (RAG.docNum chunk))
                   mergedChunks = mergedChunks).
  { apply filter_all_true. intros chunk Hin. by apply Hids, Hnums. }
  split.
  - unfold RAG.selectedChunks. rewrite Hall.
    destruct mergedChunks; done.
  - intros chunk Hin. unfold RAG.finalDocNum.
    specialize (Hnums chunk Hin).
    unfold evaluation, Laws.fail_open. cbn [RAG.ids].
    rewrite indexOf_int_range by lia. lia.
Qed.

Lemma evaluateChunks_failure (JSON_parse : jstring -> option json)
    (agentChat : jstring -> outcome jstring)
    (formattedChunks expandedQuery : jstring) :
  (exists e, agentChat (RAG.evaluation_prompt formattedChunks expandedQuery) = Throw e)
  \/ (exists response,
        agentChat (RAG.evaluation_prompt formattedChunks expandedQuery)
        = Return response
        /\ (JSON_parse (Laws.evaluation_json response) = None
            \/ JSON_parse (Laws.evaluation_json response) = Some JNull)) ->
  RAG.evaluateChunks JSON_parse agentChat formattedChunks expandedQuery
  = Return (Laws.fail_open formattedChunks).
Proof.
  intros Hfail. unfold RAG.evaluateChunks.
  destruct Hfail as [(e & ->)|(response & -> & Hparse)]; [done|].
  cbn [mbind outcome_bind bind]. unfold RAG.parse.
  fold (Laws.evaluation_json response).
  by destruct Hparse as [-> | ->].
Qed.

End EvaluationFacts.

(** X22.  When the evaluation model fails, or its reply is not JSON or is
    [null], [evaluateChunks] does not fail: it answers with the notice
    that all documents are returned and with the numbers from 1 up to the
    number of [[n]] markers found in the rendered chunks, which is at least
    the number of chunks.  So every chunk numbered between 1 and the number
    of chunks is selected; when all are, the selection is the whole ranked
    list, and each block of the final context is headed by the chunk's
    retrieval number. *)
Theorem evaluateChunks_fails_open :
  forall `{Numbers} (JSON_parse : jstring -> option json)
         (agentChat : jstring -> outcome jstring)
         (mergedChunks : list RAG.MergedChunk) (expandedQuery : jstring),
    let formatted := RAG.allFormattedDocs mergedChunks in
    let evaluation := Laws.fail_open formatted in
    (exists e, agentChat (RAG.evaluation_prompt formatted expandedQuery) = Throw e)
    \/ (exists response,
          agentChat (RAG.evaluation_prompt formatted expandedQuery) = Return response
          /\ (JSON_parse (Laws.evaluation_json response) = None
              \/ JSON_parse (Laws.evaluation_json response) = Some JNull)) ->
    RAG.evaluateChunks JSON_parse agentChat formatted expandedQuery = Return evaluation
    /\ (forall n, 1 <= n <= Z.of_nat (length mergedChunks) ->
          includes_int (RAG.ids evaluation) n = true)
    /\ ((forall chunk, chunk ∈ mergedChunks ->
           1 <= RAG.docNum chunk <= Z.of_nat (length mergedChunks)) ->
        RAG.selectedChunks mergedChunks evaluation = mergedChunks
        /\ forall chunk, chunk ∈ mergedChunks ->
             RAG.finalDocNum evaluation chunk = RAG.docNum chunk).
Proof.
  intros Hnum JSON_parse agentChat mergedChunks expandedQuery formatted evaluation
    Hfail.
  split; [by apply evaluateChunks_failure|].
  apply fail_open_selects.
Qed.

Lemma evaluateChunks_fails_open_witness :
  let formatted := RAG.allFormattedDocs Samples.mergedChunks in
  let evaluation := Laws.fail_open formatted in
  RAG.evaluateChunks Samples.JSON_parse Examples.agentChat_down formatted
    (js "Berapa denda membuang sampah?") = Return evaluation
  /\ (forall n, 1 <= n <= Z.of_nat (length Samples.mergedChunks) ->
        includes_int (RAG.ids evaluation) n = true)
  /\ ((forall chunk, chunk ∈ Samples.mergedChunks ->
         1 <= RAG.docNum chunk <= Z.of_nat (length Samples.mergedChunks)) ->
      RAG.selectedChunks Samples.mergedChunks evaluation = Samples.mergedChunks
      /\ forall chunk, chunk ∈ Samples.mergedChunks ->
           RAG.finalDocNum evaluation chunk = RAG.docNum chunk).
Proof.
  apply (evaluateChunks_fails_open Samples.JSON_parse Examples.agentChat_down
           Samples.mergedChunks (js "Berapa denda membuang sampah?")).
  left. exists (OtherError (js "503 Service Unavailable")). reflexivity.
Defined.

(** ** Expansion and ranking of the retrieved documents *)

Section RankingFacts.
Context `{Numbers}.
Variable toLowerCase : jstring -> jstring.
Variable getById : jstring -> option (jstring * RAG.ChromaMetadata).
Implicit Types (chunk : RAG.MergedChunk).

Local Abbreviation expand_from := (RAG.expand_from toLowerCase getById).
Local Abbreviation expandChunk := (RAG.expandChunk toLowerCase getById).

Lemma insert_chunk_Permutation chunk (l : list RAG.MergedChunk) :
  RAG.insert_chunk chunk l ≡ₚ chunk :: l.
Proof.
  induction l as [|b l IH]; simpl; [done|].
  destruct (num_pos _); [|done].
  rewrite IH. apply Permutation_swap.
Qed.

Lemma sort_chunks_Permutation (l : list RAG.MergedChunk) :
  RAG.sort_chunks l ≡ₚ l.
Proof.
  induction l as [|a l IH]; simpl; [done|].
  rewrite insert_chunk_Permutation. by rewrite IH.
Qed.

(** A chunk made by the loop comes from one retrieved document. *)
Lemma expand_from_sound (i : nat) (rest : list jstring)
    (metadatas : list RAG.ChromaMetadata) (distances : list number) chunk :
  chunk ∈ expand_from i rest metadatas distances ->
  exists (j : nat) (d : jstring),
    rest !! j = Some d /\ d <> []
    /\ metadatas !! (i + j)%nat = Some (RAG.metadata chunk)
    /\ RAG.docNum chunk = Z.of_nat (i + j) + 1
    /\ RAG.content chunk = expandChunk d (RAG.metadata chunk)
    /\ RAG.similarity chunk = RAG.similarity_of (distances !! (i + j)%nat).
Proof.
  revert i. induction rest as [|d rest IH]; intros i Hin; simpl in Hin.
  - by apply elem_of_nil in Hin.
  - assert (Hlater : chunk ∈ expand_from (S i) rest metadatas distances ->
             exists j d0, (d :: rest) !! j = Some d0 /\ d0 <> []
               /\ metadatas !! (i + j)%nat = Some (RAG.metadata chunk)
               /\ RAG.docNum chunk = Z.of_nat (i + j) + 1
               /\ RAG.content chunk = expandChunk d0 (RAG.metadata chunk)
               /\ RAG.similarity chunk = RAG.similarity_of (distances !! (i + j)%nat)).
    { intros Hin'. destruct (IH (S i) Hin') as (j & d0 & Hd0 & Hne & Hm & Hn & Hc & Hs).
      exists (S j), d0. replace (i + S j)%nat with (S i + j)%nat by lia. done. }
    destruct (truthy d) eqn:Hd; [|by apply Hlater].
    destruct (metadatas !! i) as [m|] eqn:Hm; [|by apply Hlater].
    apply elem_of_cons in Hin as [->|Hin]; [|by apply Hlater].
    exists O, d. rewrite Nat.add_0_r. simpl.
    split_and!; try done. by destruct d.
Qed.



End RankingFacts.






(** ** The pipeline when the evaluator fails *)

Section FailOpenFacts.
Context `{Numbers}.
Variable toLowerCase : jstring -> jstring.
Variable getById : jstring -> option (jstring * RAG.ChromaMetadata).

Lemma expand_from_all_kept (i : nat) (rest : list jstring)
    (metadatas : list RAG.ChromaMetadata) (distances : list number) :
  Forall (fun d => d <> []) rest ->
  (i + length rest <= length metadatas)%nat ->
  length (RAG.expand_from toLowerCase getById i rest metadatas distances)
  = length rest.
Proof.
  intros Hrest. revert i. induction Hrest as [|d rest Hd Hrest IH]; intros i Hlen.
  - done.
  - simpl in *. destruct d as [|c d]; [done|]. simpl.
    destruct (lookup_lt_is_Some_2 metadatas i) as [m ->]; [lia|].
    simpl. rewrite IH; [done|lia].
Qed.

Lemma merged_of_numbers (results : RAG.QueryResults) :
  Forall (fun d => d <> []) (Spec.documents_of results) ->
  (length (Spec.documents_of results) <= length (Laws.metadatas_of results))%nat ->
  let merged := Spec.merged_of toLowerCase getById results in
  length merged = length (Spec.documents_of results)
  /\ forall chunk, chunk ∈ merged ->
       1 <= RAG.docNum chunk <= Z.of_nat (length merged).
Proof.
  intros Hdocs Hmetas merged.
  pose proof (sort_chunks_Permutation
                (RAG.expand_from toLowerCase getById 0 (Spec.documents_of results)
                   (Laws.metadatas_of results)
                   (omap Datatypes.id (default [] (head (RAG.res_distances results))))))
    as Hperm.
  assert (Hlen : length merged = length (Spec.documents_of results)).
  { unfold merged, Spec.merged_of. rewrite Hperm.
    by apply expand_from_all_kept. }
  split; [exact Hlen|].
  intros chunk Hin. unfold merged, Spec.merged_of in Hin. rewrite Hperm in Hin.
  apply expand_from_sound in Hin as (j & d & Hj & _ & _ & Hnum & _).
  apply lookup_lt_Some in Hj. rewrite Hlen. lia.
Qed.

End FailOpenFacts.

(** X24.  End to end: when the search returns documents that are all
    non-empty and all have metadata, and the evaluation model fails (or
    replies with something that is not JSON, or with [null]),
    [processRAGQuery] still returns, with the notice that all documents are
    returned as rationale: the sources are those of all merged chunks in
    ranking order, one per retrieved document, and each block of the
    context is headed by the chunk's retrieval number. *)
Theorem processRAGQuery_fails_open :
  forall `{Numbers} (toLowerCase : jstring -> jstring)
         (JSON_parse : jstring -> option json)
         (query : jstring -> Z -> outcome RAG.QueryResults)
         (getById : jstring -> option (jstring * RAG.ChromaMetadata))
         (agentChat : jstring -> outcome jstring) (defaultTopK : Z)
         (ragOptimizedQuery expandedQuery fixedGrammar : jstring) (k : option Z)
         (results : RAG.QueryResults),
    let merged := Spec.merged_of toLowerCase getById results in
    let prompt := RAG.evaluation_prompt (RAG.allFormattedDocs merged) expandedQuery in
    query ragOptimizedQuery (default defaultTopK k) = Return results ->
    Spec.documents_of results <> [] ->
    Forall (fun d => d <> []) (Spec.documents_of results) ->
    (length (Spec.documents_of results) <= length (Laws.metadatas_of results))%nat ->
    (exists e, agentChat prompt = Throw e)
    \/ (exists response,
          agentChat prompt = Return response
          /\ (JSON_parse (Laws.evaluation_json response) = None
              \/ JSON_parse (Laws.evaluation_json response) = Some JNull)) ->
    exists r,
      RAG.processRAGQuery toLowerCase JSON_parse query getById agentChat
        defaultTopK ragOptimizedQuery expandedQuery fixedGrammar k = Return r
      /\ RAG.res_rationale r
         = JString (js "Error in evaluation, returning all documents.")
      /\ RAG.sources r = List.map RAG.source_of merged
      /\ length (RAG.sources r) = length (Spec.documents_of results)
      /\ RAG.contextPrompt r
         = RAG.context_block
             (RAG.join RAG.nl
                (List.map (fun chunk => RAG.formatDocument chunk (RAG.docNum chunk))
                          merged))
             fixedGrammar.
Proof.
  intros Hnum toLowerCase JSON_parse query getById agentChat defaultTopK
    rq eq fg k results merged prompt Hquery Hdocs Hkept Hmetas Hfail.
  destruct (merged_of_numbers toLowerCase getById results Hkept Hmetas)
    as [Hlen Hnums].
  fold merged in Hlen, Hnums.
  destruct (fail_open_selects merged) as [_ Hsel].
  destruct (Hsel Hnums) as [Hselected Hfinal].
  eexists. split.
  { eapply processRAGQuery_found; [exact Hquery|exact Hdocs|].
    by apply evaluateChunks_failure. }
  fold merged.
  cbn [RAG.res_rationale RAG.sources RAG.contextPrompt].
  rewrite Hselected. split_and!.
  - done.
  - done.
  - by rewrite length_map.
  - f_equal. unfold RAG.finalContext. f_equal.
    apply map_ext_in. intros chunk Hin. f_equal.
    by apply Hfinal, list_elem_of_In.
Qed.

Lemma processRAGQuery_fails_open_witness :
  let merged := Spec.merged_of Samples.toLowerCase Samples.getById Samples.results in
  exists r,
    RAG.processRAGQuery Samples.toLowerCase Samples.JSON_parse Samples.query
      Samples.getById Examples.agentChat_down 5
      (js "denda sampah") (js "Berapa denda membuang sampah?")
      (js "Berapa denda buang sampah?") None = Return r
    /\ RAG.res_rationale r
       = JString (js "Error in evaluation, returning all documents.")
    /\ RAG.sources r = List.map RAG.source_of merged
    /\ length (RAG.sources r) = length (Spec.documents_of Samples.results)
    /\ RAG.contextPrompt r
       = RAG.context_block
           (RAG.join RAG.nl
              (List.map (fun chunk => RAG.formatDocument chunk (RAG.docNum chunk))
                        merged))
           (js "Berapa denda buang sampah?").
Proof.
  apply (processRAGQuery_fails_open Samples.toLowerCase Samples.JSON_parse
           Samples.query Samples.getById Examples.agentChat_down 5
           (js "denda sampah") (js "Berapa denda membuang sampah?")
           (js "Berapa denda buang sampah?") None Samples.results).
  - reflexivity.
  - vm_compute. discriminate.
  - vm_compute. repeat constructor; discriminate.
  - vm_compute. repeat constructor.
  - left. exists (OtherError (js "503 Service Unavailable")). reflexivity.
Defined.

(** When a retrieved document is empty its number is skipped, the markers
    counted after a failure do not reach the last number, and the chunk
    that carries it is left out even though the rationale says that all
    documents are returned. *)
Example fail_open_drops_chunk_after_gap :
  exists r,
    RAG.processRAGQuery Samples.toLowerCase Samples.JSON_parse
      (fun _ _ => Return Examples.results_with_gap)
      Samples.getById Examples.agentChat_down 5
      (js "denda sampah") (js "Berapa denda membuang sampah?")
      (js "Berapa denda buang sampah?") None = Return r
    /\ List.map RAG.docNum
         (Spec.merged_of Samples.toLowerCase Samples.getById Examples.results_with_gap)
       = [1; 3]
    /\ length (RAG.sources r) = 1%nat
    /\ RAG.res_rationale r
       = JString (js "Error in evaluation, returning all documents.").
Proof. eexists. vm_compute. split_and!; reflexivity. Qed.

(** ** Expansion with the next chunk *)

(** X25.  [expandChunk] leaves the text as it is for the last chunk of a
    document ([current_chunk >= total_chunks - 1]) and when the store has
    no chunk under the identifier [<document_code>_<current_chunk + 1>].
    Otherwise it merges the text with that next chunk: the result ends
    with the whole next chunk and begins with a prefix of the trimmed
    text, joined directly or by one space. *)
Theorem expandChunk_spec :
  forall (toLowerCase : jstring -> jstring)
         (getById : jstring -> option (jstring * RAG.ChromaMetadata))
         (content : jstring) (metadata : RAG.ChromaMetadata),
    let nextId := RAG.document_code metadata ++ js "_"
                  ++ toString10 (RAG.current_chunk metadata + 1) in
    let expanded := RAG.expandChunk toLowerCase getById content metadata in
    (RAG.total_chunks metadata - 1 <= RAG.current_chunk metadata ->
     expanded = content)
    /\ (getById nextId = None -> expanded = content)
    /\ (forall next,
          RAG.current_chunk metadata < RAG.total_chunks metadata - 1 ->
          getById nextId = Some next ->
          expanded = RAG.mergeChunks toLowerCase content next.1
          /\ next.1 `suffix_of` expanded
          /\ exists kept,
               kept `prefix_of` trim content
               /\ (expanded = kept ++ next.1
                   \/ expanded = kept ++ js " " ++ next.1)).
Proof.
  intros toLowerCase getById content metadata nextId expanded.
  unfold expanded, RAG.expandChunk, RAG.getAdjacentChunk. fold nextId.
  split_and!.
  - intros Hlast.
    destruct (Z.geb_spec (RAG.current_chunk metadata) (RAG.total_chunks metadata - 1));
      [done|lia].
  - intros ->. by destruct (_ >=? _).
  - intros next Hmore ->.
    destruct (Z.geb_spec (RAG.current_chunk metadata) (RAG.total_chunks metadata - 1));
      [lia|].
    split; [done|].
    destruct (mergeChunks_spec toLowerCase content next.1)
      as (L & _ & _ & _ & _ & ->).
    destruct (0 <? L)%nat.
    + split; [by eexists|].
      exists (take (length (trim content) - L) (trim content)).
      split; [apply prefix_take|by left].
    + split; [exists (trim content ++ js " "); by rewrite <- app_assoc|].
      exists (trim content). split; [done|by right].
Qed.

(** ** A search without documents *)

Lemma isEnglish_blank (fixedGrammar : jstring) :
  trim fixedGrammar = [] -> RAG.isEnglish fixedGrammar = false.
Proof. intros Hblank. unfold RAG.isEnglish. by rewrite Hblank. Qed.

(** X26.  When the search returns no document, [processRAGQuery] does not
    call the evaluator: it returns no sources, the rationale
    "No documents found", and a context block around a fixed notice, which
    is the Indonesian one whenever the question is blank.  Stored as a user
    message, that prompt is reduced to the question itself, trimmed,
    provided the question is not empty and holds no [$]. *)
Theorem processRAGQuery_without_documents :
  forall `{Numbers} (toLowerCase : jstring -> jstring)
         (JSON_parse : jstring -> option json)
         (query : jstring -> Z -> outcome RAG.QueryResults)
         (getById : jstring -> option (jstring * RAG.ChromaMetadata))
         (agentChat : jstring -> outcome jstring) (defaultTopK : Z)
         (ragOptimizedQuery expandedQuery fixedGrammar : jstring) (k : option Z)
         (results : RAG.QueryResults),
    query ragOptimizedQuery (default defaultTopK k) = Return results ->
    Spec.documents_of results = [] ->
    exists r notice,
      RAG.processRAGQuery toLowerCase JSON_parse query getById agentChat
        defaultTopK ragOptimizedQuery expandedQuery fixedGrammar k = Return r
      /\ RAG.sources r = []
      /\ RAG.res_rationale r = JString (js "No documents found")
      /\ RAG.contextPrompt r = RAG.context_block notice fixedGrammar
      /\ (notice = js "No documents found."
          \/ notice = js "Tidak ada dokumen yang ditemukan.")
      /\ (trim fixedGrammar = [] -> notice = js "Tidak ada dokumen yang ditemukan.")
      /\ (fixedGrammar <> [] -> (SS.dollar ∉ fixedGrammar) ->
          SS.extractQueryFromMessage (RAG.contextPrompt r) = trim fixedGrammar).
Proof.
  intros Hnum toLowerCase JSON_parse query getById agentChat defaultTopK
    rq eq fg k results Hquery Hdocs.
  eexists. exists (if RAG.isEnglish fg then js "No documents found."
                   else js "Tidak ada dokumen yang ditemukan.").
  split.
  { eapply processRAGQuery_no_documents; [exact Hquery|exact Hdocs]. }
  cbn [RAG.sources RAG.res_rationale RAG.contextPrompt].
  split_and!; try done.
  - destruct (RAG.isEnglish fg); [by left|by right].
  - intros Hblank. by rewrite isEnglish_blank.
  - intros Hne Hdollar. apply extractQuery_context_block; [|done|done].
    destruct (RAG.isEnglish fg); by apply (bool_decide_unpack _); vm_compute.
Qed.

Lemma processRAGQuery_without_documents_witness :
  exists r notice,
    RAG.processRAGQuery Samples.toLowerCase Samples.JSON_parse Examples.query_nothing
      Samples.getById Examples.agentChat_down 5
      (js "denda sampah") (js "Berapa denda membuang sampah?")
      (js "Berapa denda buang sampah?") None = Return r
    /\ RAG.sources r = []
    /\ RAG.res_rationale r = JString (js "No documents found")
    /\ RAG.contextPrompt r
       = RAG.context_block notice (js "Berapa denda buang sampah?")
    /\ (notice = js "No documents found."
        \/ notice = js "Tidak ada dokumen yang ditemukan.")
    /\ (trim (js "Berapa denda buang sampah?") = [] ->
        notice = js "Tidak ada dokumen yang ditemukan.")
    /\ (js "Berapa denda buang sampah?" <> [] ->
        (SS.dollar ∉ js "Berapa denda buang sampah?") ->
        SS.extractQueryFromMessage (RAG.contextPrompt r)
        = trim (js "Berapa denda buang sampah?")).
Proof.
  apply (processRAGQuery_without_documents Samples.toLowerCase Samples.JSON_parse
           Examples.query_nothing Samples.getById Examples.agentChat_down 5
           (js "denda sampah") (js "Berapa denda membuang sampah?")
           (js "Berapa denda buang sampah?") None
           (@RAG.mkResults Samples.rational_numbers [[]] [[]] [[]] [[]])).
  - reflexivity.
  - reflexivity.
Defined.

(** ** The reference list under an answer *)

Lemma fold_left_append (entries : list jstring) (start : jstring) :
  fold_left (fun response entry => response ++ entry) entries start
  = start ++ concat entries.
Proof.
  revert start. induction entries as [|e entries IH]; intros start; simpl.
  - by rewrite app_nil_r.
  - rewrite IH. by rewrite <- app_assoc.
Qed.

Lemma concat_contains (parts : list jstring) (part : jstring) :
  part ∈ parts -> Spec.contains (concat parts) part.
Proof.
  induction parts as [|p parts IH]; intros Hin.
  - by apply elem_of_nil in Hin.
  - simpl. apply elem_of_cons in Hin as [->|Hin].
    + apply contains_app_l, contains_refl.
    + by apply contains_app_r, IH.
Qed.

Lemma referenceEntry_contains_name (isWablas : bool) (idx : nat) (source : RAG.Source) :
  Spec.contains (Routes.referenceEntry isWablas idx source)
                (Routes.sourceName idx source).
Proof.
  unfold Routes.referenceEntry. destruct isWablas.
  - apply contains_app_l, contains_refl.
  - apply contains_app_r, contains_app_l, contains_refl.
Qed.

(** X27.  The answer stored and sent by the Wablas webhook is the model's
    answer followed by the reference list: without sources it is the answer
    itself; otherwise the answer is a prefix of it and every source is
    listed under its position in the source list, counted from 1, with its
    kind, number and year. *)
Theorem responseWithSources_spec (isWablas : bool) (fullResponse : jstring)
    (sources : list RAG.Source) :
  (sources = [] ->
   Routes.responseWithSources isWablas fullResponse sources = fullResponse)
  /\ fullResponse `prefix_of` Routes.responseWithSources isWablas fullResponse sources
  /\ (forall idx source, sources !! idx = Some source ->
        Spec.contains (Routes.responseWithSources isWablas fullResponse sources)
          (js "[" ++ toString10 (Z.of_nat idx + 1) ++ js "] "
           ++ RAG.src_jenis source ++ js ", "
           ++ toString10 (RAG.src_nomor source) ++ js ", "
           ++ toString10 (RAG.src_tahun source))).
Proof.
  unfold Routes.responseWithSources. split_and!.
  - by intros ->.
  - destruct (0 <? length sources)%nat; [|done].
    rewrite fold_left_append, <- app_assoc. by eexists.
  - intros idx source Hsrc.
    assert (Hlen : (0 <? length sources)%nat = true).
    { apply Nat.ltb_lt. apply lookup_lt_Some in Hsrc. lia. }
    rewrite Hlen, fold_left_append.
    apply contains_app_r.
    eapply contains_trans; [|apply (referenceEntry_contains_name isWablas idx source)].
    apply concat_contains.
    apply elem_of_lookup_imap. by exists idx, source.
Qed.

(** ** Redaction is stable *)

Lemma no_dollar_no_wrapper (s : jstring) : (SS.dollar ∉ s) -> Spec.no_wrapper s.
Proof.
  intros Hnin pre body post (-> & _). apply Hnin.
  apply elem_of_app. right. apply list_elem_of_here.
Qed.

(** X28.  What [extractQueryFromMessage] returns is stored unchanged when
    it is stored again: the extracted query holds no [$], so a second
    extraction finds no wrapper; and a text without wrapper is returned as
    it is.  Hence cleaning a message twice is cleaning it once, for user
    and model messages alike. *)
Theorem extractQueryFromMessage_idempotent (content : jstring) :
  SS.extractQueryFromMessage (SS.extractQueryFromMessage content)
  = SS.extractQueryFromMessage content
  /\ (forall message,
        SS.cleanedMessage (SS.cleanedMessage message) = SS.cleanedMessage message).
Proof.
  assert (Hidem : forall c, SS.extractQueryFromMessage (SS.extractQueryFromMessage c)
                            = SS.extractQueryFromMessage c).
  { intros c. unfold SS.extractQueryFromMessage at 2 3.
    destruct (SS.match_pattern c) as [b|] eqn:Hm.
    - destruct (match_pattern_sound _ _ Hm) as (pre & post & (_ & _ & Hnin) & _).
      apply extractQuery_verbatim, no_dollar_no_wrapper.
      by apply trim_not_elem_of.
    - unfold SS.extractQueryFromMessage. by rewrite Hm. }
  split; [apply Hidem|].
  intros [[] text]; unfold SS.cleanedMessage; simpl; try done.
  by rewrite Hidem.
Qed.

(** ** Generated session identifiers *)

Lemma toString10_inj (n m : Z) :
  0 <= n -> 0 <= m -> toString10 n = toString10 m -> n = m.
Proof.
  intros Hn Hm Heq.
  rewrite <- (toString10_decode n Hn), <- (toString10_decode m Hm).
  by rewrite Heq.
Qed.

(** X29.  [generateSessionId] always returns an identifier.  With a
    non-empty user identifier it is [user_<userId>_<time>]; otherwise it is
    [session_<hash of the client address>_<hash of the user agent, or of
    the text unknown>_<time>], where the address is the one [getClientIP]
    gives and its hash is taken as it is (an empty address is not replaced
    by unknown here).  For one client, identifiers generated at different
    times differ. *)
Theorem generateSessionId_shape (headers : Request.Headers)
    (userId : option jstring) (now : Z) :
  (exists sid, Routes.generateSessionId headers userId now = Return sid)
  /\ (forall u, userId = Some u -> u <> [] ->
        Routes.generateSessionId headers userId now
        = Return (js "user_" ++ u ++ js "_" ++ toString10 now))
  /\ (default [] userId = [] ->
      exists ip,
        Request.getClientIP headers = Return ip
        /\ Routes.generateSessionId headers userId now
           = Return (js "session_" ++ RequestUtils.createSimpleHash ip ++ js "_"
                     ++ RequestUtils.createSimpleHash
                          (or_default (headers (js "user-agent")) (js "unknown"))
                     ++ js "_" ++ toString10 now))
  /\ (forall now', 0 <= now -> 0 <= now' ->
        Routes.generateSessionId headers userId now
        = Routes.generateSessionId headers userId now' ->
        now = now').
Proof.
  split_and!.
  - destruct (generateSessionId_not_wablas headers userId now) as (sid & Hsid & _).
    by exists sid.
  - intros u -> Hne. unfold Routes.generateSessionId. simpl.
    by destruct u.
  - intros Hnone. destruct (getClientIP_returns headers) as (ip & Hip).
    exists ip. split; [done|].
    unfold Routes.generateSessionId. rewrite Hnone, Hip. done.
  - intros now' Hn Hn'. unfold Routes.generateSessionId.
    destruct (truthy (default [] userId)).
    + intros Heq. inversion Heq as [Hstr].
      apply app_inv_head in Hstr. inversion Hstr as [Hnum].
      by apply toString10_inj.
    + destruct (getClientIP_returns headers) as (ip & ->).
      cbn [mbind outcome_bind bind]. intros Heq. inversion Heq as [Hstr].
      apply app_inv_head in Hstr. inversion Hstr as [Hua].
      apply app_inv_head in Hua. inversion Hua as [Hnum].
      by apply toString10_inj.
Qed.

(** ** One append, in any store *)

(** X30.  [addMessage] on any well-formed store: the session is filed
    afterwards (it is created, empty and without user, when it was not),
    its history is the earlier history followed by the cleaned message and
    cut to the window, the window size is unchanged and the history of
    every other session is untouched.  A message that is not a user message
    is stored as given. *)
Theorem addMessage_step (clock : nat -> Z) (sid : jstring)
    (message : SS.BaseMessage) (st : SS.Store) :
  Spec.store_wf st ->
  let st' := SS.addMessage clock sid message st in
  Spec.store_wf st'
  /\ SS.hasSession sid st' = true
  /\ SS.maxMessages st' = SS.maxMessages st
  /\ SS.getMessages sid st'
     = Spec.window (SS.maxMessages st)
         (SS.getMessages sid st ++ [SS.cleanedMessage message])
  /\ (SS.kind message <> SS.HumanMessage -> SS.cleanedMessage message = message)
  /\ (forall k, k <> sid -> SS.getMessages k st' = SS.getMessages k st)
  /\ (SS.hasSession sid st = false ->
      exists s, SS.getSession sid st' = Some s
                /\ SS.userId (SS.smeta s) = None
                /\ SS.sessionType (SS.smeta s) = SS.general
                /\ SS.getAllSessionIds st' = SS.getAllSessionIds st ++ [sid]).
Proof.
  intros Hwf st'.
  destruct (addMessage_spec clock sid message st Hwf) as (Hwf' & Hmax & Hsame & Hother).
  fold st' in Hwf', Hmax, Hsame, Hother.
  assert (Hfiled : exists s, SS.getSession sid st' = Some s
                     /\ (SS.hasSession sid st = false ->
                         SS.userId (SS.smeta s) = None
                         /\ SS.sessionType (SS.smeta s) = SS.general
                         /\ SS.getAllSessionIds st' = SS.getAllSessionIds st ++ [sid])).
  { unfold st'. rewrite addMessage_unfold. unfold Spec.opened.
    assert (Hhas : SS.hasSession sid st
                   = match SS.getSession sid st with Some _ => true | None => false end)
      by reflexivity.
    rewrite Hhas. clear Hhas.
    destruct (SS.getSession sid st) as [s|] eqn:Hget.
    - assert (Hid : SS.id s = sid) by by apply (proj2 Hwf).
      rewrite getSession_saveSession, trimHistory_id. simpl.
      rewrite decide_True by done. eexists. split; [done|]. done.
    - destruct (createSession_tables clock sid None None st)
        as (Hfresh & Hsess & _ & _ & _).
      destruct (SS.createSession clock sid None None st) as [s1 st1].
      simpl in Hfresh, Hsess. subst s1.
      rewrite getSession_saveSession, trimHistory_id.
      cbn [SS.id SS.set_messages Laws.fresh].
      rewrite decide_True by done. eexists. split; [reflexivity|]. intros _.
      split_and!.
      + unfold SS.trimHistory. by destruct (_ >? _).
      + unfold SS.trimHistory. by destruct (_ >? _).
      + unfold SS.getAllSessionIds. rewrite saveSession_sessions, trimHistory_id.
        cbn [SS.id SS.set_messages Laws.fresh]. rewrite Hsess.
        rewrite keys_set_present.
        * apply keys_set_absent. by apply get_None_keys.
        * rewrite keys_set_absent by (by apply get_None_keys).
          apply elem_of_app. right. apply list_elem_of_here. }
  destruct Hfiled as (s & Hs & Hnew).
  split_and!; try done.
  - unfold SS.hasSession, JSMap.has. unfold SS.getSession in Hs. by rewrite Hs.
  - intros Hkind. unfold SS.cleanedMessage. by destruct (SS.kind message).
  - intros Habsent. exists s. split; [done|]. by apply Hnew.
Qed.

Lemma addMessage_step_witness :
  let st := Examples.busy_store in
  let sid := js "c" in
  let message := Samples.ai "Halo, ada yang bisa dibantu?" in
  let st' := SS.addMessage Samples.tick_clock sid message st in
  Spec.store_wf st'
  /\ SS.hasSession sid st' = true
  /\ SS.maxMessages st' = SS.maxMessages st
  /\ SS.getMessages sid st'
     = Spec.window (SS.maxMessages st)
         (SS.getMessages sid st ++ [SS.cleanedMessage message])
  /\ (SS.kind message <> SS.HumanMessage -> SS.cleanedMessage message = message)
  /\ (forall k, k <> sid -> SS.getMessages k st' = SS.getMessages k st)
  /\ (SS.hasSession sid st = false ->
      exists s, SS.getSession sid st' = Some s
                /\ SS.userId (SS.smeta s) = None
                /\ SS.sessionType (SS.smeta s) = SS.general
                /\ SS.getAllSessionIds st' = SS.getAllSessionIds st ++ [sid]).
Proof.
  apply (addMessage_step Samples.tick_clock (js "c")
           (Samples.ai "Halo, ada yang bisa dibantu?") Examples.busy_store).
  apply (reachable_wf Samples.tick_clock 4). exists Examples.busy_ops. reflexivity.
Defined.
